(** * openclaw-dingtalk: card streaming engine, caches and post-processing

  A shallow embedding of the TypeScript sources of the DingTalk channel
  plugin, and the properties of its specification that were checked
  against it.

  Part I holds the embedding, one module per source file.  Part II holds
  the theorems.

  Conventions of the embedding:
  - a JavaScript string is the list of its UTF-16 code units;
  - [Date.now()] is a reading of a clock: synchronous code receives its
    readings as arguments, asynchronous code reads them from the world;
  - a [Map] is a finite map ([gmap]); module-level [Map]s are passed in
    and returned;
  - code that awaits the network runs in a state-and-exception monad over
    a world that answers every external call and records it. *)

From Stdlib Require Import ZArith NArith QArith Qminmax Lqa List String Ascii DecimalString DecimalZ.
From stdpp Require Import gmap strings list.

Open Scope Z_scope.

(* ===================================================================== *)
(** * Part I: the embedding                                              *)
(* ===================================================================== *)

(** ** JavaScript strings and values *)

Module Js.

(** A string is a sequence of UTF-16 code units. *)
Abbreviation jstring := (list N).

(** An ASCII literal of the source. *)
Definition lit (s : string) : jstring :=
  map N_of_ascii (list_ascii_of_string s).

(** An ASCII literal of the source in which ['] stands for the double
    quote. *)
Definition litq (s : string) : jstring :=
  map (fun c => if (c =? 39)%N then 34%N else c) (lit s).

(** Truthiness of a string: only the empty string is falsy. *)
Definition truthy (s : jstring) : bool :=
  match s with
  | [] => false
  | _ :: _ => true
  end.

(** [`${n}`] for an integral number (the readings of [Date.now()] are
    integers far below 1e21, where JavaScript prints plain decimals). *)
Definition Number_toString (z : Z) : jstring :=
  lit (NilZero.string_of_int (Z.to_int z)).

(** [a || b] on strings. *)
Definition or_else (a b : jstring) : jstring :=
  if truthy a then a else b.

(** [s.startsWith(prefix)]. *)
Fixpoint startsWith (prefix s : jstring) : bool :=
  match prefix, s with
  | [], _ => true
  | p :: prefix, c :: s => (p =? c)%N && startsWith prefix s
  | _ :: _, [] => false
  end.

(** The rest of [s] after [prefix], when [s] starts with it. *)
Fixpoint stripPrefix (prefix s : jstring) : option jstring :=
  match prefix, s with
  | [], _ => Some s
  | p :: prefix, c :: s => if (p =? c)%N then stripPrefix prefix s else None
  | _ :: _, [] => None
  end.

(** LineTerminator code units: LF, CR, LS, PS.  The [.] of a regular
    expression without the [s] flag matches every other code unit. *)
Definition isLineTerminator (c : N) : bool :=
  ((c =? 10) || (c =? 13) || (c =? 8232) || (c =? 8233))%N.

(** WhiteSpace code units: TAB, VT, FF, SP, NBSP, ZWNBSP and the space
    separators. *)
Definition isWhiteSpace (c : N) : bool :=
  ((c =? 9) || (c =? 11) || (c =? 12) || (c =? 32) || (c =? 160) ||
   (c =? 65279) || (c =? 5760) || ((8192 <=? c) && (c <=? 8202)) ||
   (c =? 8239) || (c =? 8287) || (c =? 12288))%N.

(** [s.trim()] removes white space and line terminators at both ends. *)
Fixpoint trimStart (s : jstring) : jstring :=
  match s with
  | c :: s' => if isWhiteSpace c || isLineTerminator c then trimStart s' else s
  | [] => []
  end.

Definition trimEnd (s : jstring) : jstring := rev (trimStart (rev s)).

Definition trim (s : jstring) : jstring := trimEnd (trimStart s).

(** [s.split('\n')]: never empty, the last piece is what follows the last
    line feed. *)
Fixpoint splitLines (s : jstring) : list jstring :=
  match s with
  | [] => [[]]
  | c :: s' =>
      if (c =? 10)%N then [] :: splitLines s'
      else
        match splitLines s' with
        | piece :: pieces => (c :: piece) :: pieces
        | [] => [[c]]
        end
  end.

(** The code units [trim] removes, and [\s] matches. *)
Definition isSpace (c : N) : bool := isWhiteSpace c || isLineTerminator c.

(** [hay.includes(needle)] on strings. *)
Fixpoint includes (needle hay : jstring) : bool :=
  startsWith needle hay ||
  match hay with
  | [] => false
  | _ :: hay' => includes needle hay'
  end.

(** A JSON value, as [JSON.parse] gives it; an object by its own
    enumerable entries in the order [Object.entries] lists them. *)
#[local] Unset Elimination Schemes.
Inductive JValue :=
| JNull
| JBool (b : bool)
| JNumber (n : Q)
| JString (s : jstring)
| JArray (items : list JValue)
| JObject (members : list (jstring * JValue)).
#[local] Set Elimination Schemes.

(** Truthiness of a JSON value: [null], [false], [0] and the empty string
    are falsy, every array and object is truthy. *)
Definition truthyValue (v : JValue) : bool :=
  match v with
  | JNull => false
  | JBool b => b
  | JNumber n => negb (Qeq_bool n 0%Q)
  | JString s => truthy s
  | JArray _ | JObject _ => true
  end.

(** Whether a template literal can make a string of a JSON value: the
    conversion throws for an object with an own entry [toString] (no JSON
    value is callable, and [valueOf] then gives no primitive) and for an
    array that holds a value for which it throws; [null] in an array is
    joined as the empty string. *)
Fixpoint printable (v : JValue) : bool :=
  match v with
  | JArray items => forallb printable items
  | JObject members =>
      negb (existsb (fun member => bool_decide (member.1 = lit "toString")) members)
  | _ => true
  end.

(** [typeof v === 'string']. *)
Definition isString (v : JValue) : bool :=
  match v with
  | JString _ => true
  | _ => false
  end.

(** A number where the code can make it [NaN]: arithmetic on an absent
    field.  Every comparison with [NaN] is false. *)
Inductive Num :=
| Finite (z : Z)
| NaN.

(** [a > b] and [b > a] for a number [a] and an integer [b]. *)
Definition Num_gt (a : Num) (b : Z) : bool :=
  match a with
  | Finite a => a >? b
  | NaN => false
  end.

Definition Num_lt (a : Num) (b : Z) : bool :=
  match a with
  | Finite a => b >? a
  | NaN => false
  end.

(** [a + b] and [a - b]. *)
Definition Num_add (a : Num) (b : Z) : Num :=
  match a with
  | Finite a => Finite (a + b)
  | NaN => NaN
  end.

End Js.

Import Js.

(** ** session/manager.ts: sessions and message de-duplication *)

Module Session.

(** [UserSession]. *)
Record UserSession := mkUserSession {
  lastActivity : Z;
  sessionId : jstring
}.

(** [SessionContext]. *)
Record SessionContext := mkSessionContext {
  sessionKey : jstring;
  isNew : bool;
  forceNew : bool
}.

(** [MESSAGE_DEDUP_TTL = 5 * 60 * 1000]. *)
Definition MESSAGE_DEDUP_TTL : Z := 5 * 60 * 1000.

(** [isMessageProcessed]: [processedMessages] is the module-level map. *)
Definition isMessageProcessed (messageId : jstring)
    (processedMessages : gmap jstring Z) : bool :=
  if negb (truthy messageId) then false
  else bool_decide (is_Some (processedMessages !! messageId)).

(** [cleanupProcessedMessages]: deleting from a [Map] while iterating
    over it visits every entry once, so the loop is a filter. *)
Definition cleanupProcessedMessages (now : Z)
    (processedMessages : gmap jstring Z) : gmap jstring Z :=
  filter (fun kv => ~ (now - kv.2 > MESSAGE_DEDUP_TTL)) processedMessages.

(** [markMessageProcessed].  [now] is the reading stored with the id,
    [now_sweep] the later reading taken inside the sweep. *)
Definition markMessageProcessed (now now_sweep : Z) (messageId : jstring)
    (processedMessages : gmap jstring Z) : gmap jstring Z :=
  if negb (truthy messageId) then processedMessages
  else
    let processedMessages := <[messageId := now]> processedMessages in
    if (100 <=? Z.of_nat (size processedMessages))
    then cleanupProcessedMessages now_sweep processedMessages
    else processedMessages.

(** The operations that touch [processedMessages], for statements about
    runs of them. *)
Inductive dedup_op :=
| OpMark (now now_sweep : Z) (messageId : jstring)
| OpCleanup (now : Z).

Definition dedup_step (pm : gmap jstring Z) (op : dedup_op) : gmap jstring Z :=
  match op with
  | OpMark now now_sweep messageId => markMessageProcessed now now_sweep messageId pm
  | OpCleanup now => cleanupProcessedMessages now pm
  end.

Definition dedup_run (ops : list dedup_op) (pm : gmap jstring Z) : gmap jstring Z :=
  fold_left dedup_step ops pm.

(** The clock readings an operation takes. *)
Definition op_readings (op : dedup_op) : list Z :=
  match op with
  | OpMark now now_sweep _ => [now; now_sweep]
  | OpCleanup now => [now]
  end.

Definition op_marks (messageId : jstring) (op : dedup_op) : Prop :=
  match op with
  | OpMark _ _ id => id = messageId
  | OpCleanup _ => False
  end.

(** The session key minted on a rollover:
    [`dingtalk:${senderId}:${now}`]. *)
Definition mintedKey (senderId : jstring) (now : Z) : jstring :=
  lit "dingtalk:" ++ senderId ++ lit ":" ++ Number_toString now.

(** The key of a sender's first session: [`dingtalk:${senderId}`]. *)
Definition firstKey (senderId : jstring) : jstring :=
  lit "dingtalk:" ++ senderId.

(** [getSessionKey]; [now] is the reading of [Date.now()] on entry. *)
Definition getSessionKey (now : Z) (senderId : jstring) (forceNew : bool)
    (sessionTimeout : Z) (userSessions : gmap jstring UserSession)
    : SessionContext * gmap jstring UserSession :=
  let existing := userSessions !! senderId in
  if forceNew then
    let sessionId := mintedKey senderId now in
    (mkSessionContext sessionId true true,
     <[senderId := mkUserSession now sessionId]> userSessions)
  else
    match existing with
    | Some existing =>
        let elapsed := now - lastActivity existing in
        if elapsed >? sessionTimeout then
          let sessionId := mintedKey senderId now in
          (mkSessionContext sessionId true false,
           <[senderId := mkUserSession now sessionId]> userSessions)
        else
          (mkSessionContext (sessionId existing) false false,
           <[senderId := mkUserSession now (sessionId existing)]> userSessions)
    | None =>
        let sessionId := firstKey senderId in
        (mkSessionContext sessionId false false,
         <[senderId := mkUserSession now sessionId]> userSessions)
    end.

(** Sample data for the worked examples: one sender, seen at time 1000. *)
Definition sampleSessions : gmap jstring UserSession :=
  <[lit "u1" := mkUserSession 1000 (firstKey (lit "u1"))]> ∅.


Definition NEW_SESSION_COMMANDS : list jstring :=
  [lit "/new"; lit "/reset"; lit "/clear";
   [26032; 20250; 35805]%N;
   [37325; 26032; 24320; 22987]%N;
   [28165; 31354; 23545; 35805]%N].

Section Commands.
Variable toLowerCase : jstring -> jstring.

Definition isNewSessionCommand (text : jstring) : bool :=
  let trimmed := toLowerCase (trim text) in
  existsb (fun cmd => bool_decide (trimmed = toLowerCase cmd)) NEW_SESSION_COMMANDS.
End Commands.

Definition touchSession (now : Z) (senderId : jstring)
    (userSessions : gmap jstring UserSession) : gmap jstring UserSession :=
  match userSessions !! senderId with
  | Some existing =>
      <[senderId := mkUserSession now (sessionId existing)]> userSessions
  | None => userSessions
  end.

Definition getSession (senderId : jstring)
    (userSessions : gmap jstring UserSession) : option UserSession :=
  userSessions !! senderId.

Definition deleteSession (senderId : jstring)
    (userSessions : gmap jstring UserSession) : gmap jstring UserSession :=
  delete senderId userSessions.

Definition clearAllSessions (userSessions : gmap jstring UserSession)
    : gmap jstring UserSession := ∅.

Definition getActiveSessionCount (userSessions : gmap jstring UserSession) : nat :=
  size userSessions.

Definition cleanupExpiredSessions (now maxAge : Z)
    (userSessions : gmap jstring UserSession) : nat * gmap jstring UserSession :=
  (size (filter (fun kv => now - lastActivity kv.2 > maxAge) userSessions),
   filter (fun kv => ~ (now - lastActivity kv.2 > maxAge)) userSessions).

Definition wellKeyed (userSessions : gmap jstring UserSession) : Prop :=
  forall senderId s, userSessions !! senderId = Some s ->
    sessionId s = firstKey senderId \/
    exists t, t <= lastActivity s /\ sessionId s = mintedKey senderId t.

End Session.

(** ** The world: external calls, their answers and their record *)

Module Runtime.

(** A thrown value.  [AxiosError] carries [error.response?.status];
    [TypeError] is the error the language or a library throws for a value
    of the wrong type. *)
Inductive Error :=
| AxiosError (status : option Z) (message : jstring)
| PlainError (message : jstring)
| TypeError.

(** [axios.isAxiosError(error) && error.response?.status === 401]. *)
Definition is401 (error : Error) : bool :=
  match error with
  | AxiosError (Some status) _ => status =? 401
  | _ => false
  end.

(** The part of [DingTalkConfig] the card engine reads. *)
Record DingTalkConfig := mkConfig {
  clientId : jstring;
  robotCode : option jstring;
  cardTemplateId : option jstring
}.

(** [AICardStreamingRequest], the body of [PUT /v1.0/card/streaming]. *)
Record AICardStreamingRequest := mkStreamingRequest {
  sr_outTrackId : jstring;
  sr_guid : jstring;
  sr_key : jstring;
  sr_content : jstring;
  sr_isFull : bool;
  sr_isFinalize : bool;
  sr_isError : bool
}.

(** The requests sent to the card API.  [PutInstances] is
    [PUT /v1.0/card/instances] with [flowStatus] and [msgContent] (its
    other two parameters are constants); [CreateAndDeliver] is
    [POST /v1.0/card/instances/createAndDeliver] with the template id,
    [outTrackId], [openSpaceId] and, for a group, the robot code of
    [imGroupOpenDeliverModel]. *)
Inductive Request :=
| CreateAndDeliver (cardTemplateId outTrackId openSpaceId : jstring)
                   (groupRobotCode : option jstring)
| PutInstances (outTrackId flowStatus msgContent : jstring)
| PutStreaming (body : AICardStreamingRequest).

(** Everything the code asks of its environment. *)
Inductive Call :=
| CallDateNow
| CallMathRandom
| CallRandomUUID
| CallSleep (ms : Q)
| CallGetAccessToken (config : DingTalkConfig)
| CallHttp (request : Request) (accessToken : jstring)
| CallExternal (name : string) (arguments : list jstring)
| CallSendFileMessage (target mediaId : jstring) (fileName fileType : JValue).

(** What the environment answers: a failure when the call throws or
    rejects, and otherwise the text (token, uuid, response data, media
    id), number ([Math.random()]), clock reading ([Date.now()]), truth
    value ([fs.existsSync]) or size ([fs.statSync]) the call asked for. *)
Record Answer := mkAnswer {
  failure : option Error;
  text : jstring;
  number : Q;
  time : Z;
  flag : bool;
  size : Z
}.

(** The world answers the n-th call with [oracle n] and keeps the calls
    made so far, oldest first. *)
Record World := mkWorld {
  oracle : nat -> Answer;
  log : list (Call * Answer)
}.

Inductive Outcome (A : Type) :=
| Ok (value : A)
| Throw (error : Error).

Arguments Ok {A} value.
Arguments Throw {A} error.

(** Computations over local mutable data [X] and the world, which either
    return or throw. *)
Definition M (X A : Type) : Type := X * World -> Outcome A * (X * World).

Definition ret {X A} (a : A) : M X A := fun s => (Ok a, s).

Definition throw {X A} (e : Error) : M X A := fun s => (Throw e, s).

Definition bind {X A B} (m : M X A) (k : A -> M X B) : M X B :=
  fun s =>
    match m s with
    | (Ok a, s') => k a s'
    | (Throw e, s') => (Throw e, s')
    end.

(** [try { m } catch (error) { handler }]. *)
Definition try_catch {X A} (m : M X A) (handler : Error -> M X A) : M X A :=
  fun s =>
    match m s with
    | (Ok a, s') => (Ok a, s')
    | (Throw e, s') => handler e s'
    end.

Definition get {X} : M X X := fun s => (Ok s.1, s).

Definition modify {X} (f : X -> X) : M X unit := fun s => (Ok tt, (f s.1, s.2)).

Notation "'let*' x ':=' m 'in' k" := (bind m (fun x => k))
  (at level 10, x binder, k at level 200).
Notation "m1 '>>' m2" := (bind m1 (fun _ => m2))
  (at level 100, right associativity).

(** The answer the next call will get. *)
Definition answer (w : World) : Answer := oracle w (length (log w)).

(** The world after further calls were recorded. *)
Definition grow (w : World) (calls : list (Call * Answer)) : World :=
  mkWorld (oracle w) (log w ++ calls).

(** One call: the oracle answers, the log grows. *)
Definition perform {X} (c : Call) : M X Answer :=
  fun s => (Ok (answer s.2), (s.1, grow s.2 [(c, answer s.2)])).

(** A call that throws when the environment reports a failure. *)
Definition request {X} (c : Call) : M X jstring :=
  let* a := perform c in
  match failure a with
  | Some e => throw e
  | None => ret (text a)
  end.

Definition Date_now {X} : M X Z :=
  let* a := perform CallDateNow in ret (time a).

Definition Math_random {X} : M X Q :=
  let* a := perform CallMathRandom in ret (number a).

Definition randomUUID {X} : M X jstring :=
  let* a := perform CallRandomUUID in ret (text a).

Definition sleep {X} (ms : Q) : M X unit :=
  let* _ := perform (CallSleep ms) in ret tt.

(** [getAccessToken(config)] of api/token.ts, taken as one call: it
    returns a bearer token or throws. *)
Definition getAccessToken {X} (config : DingTalkConfig) : M X jstring :=
  request (CallGetAccessToken config).

(** [axios.post] / [axios.put] with the access-token header. *)
Definition axios {X} (req : Request) (accessToken : jstring) : M X jstring :=
  request (CallHttp req accessToken).

(** A computation that only talks to the world, run beside data [X]. *)
Definition worldOnly {X A} (m : M unit A) : M X A :=
  fun s =>
    match m (tt, s.2) with
    | (r, (_, w')) => (r, (s.1, w'))
    end.

(** A block with a local variable [init] of its own: the value of the
    block and the final value of the variable. *)
Definition runLocal {X A} (init : X) (m : M X A) : M unit (A * X) :=
  fun s =>
    match m (init, s.2) with
    | (Ok a, (x, w')) => (Ok (a, x), (tt, w'))
    | (Throw e, (_, w')) => (Throw e, (tt, w'))
    end.

(** [for (const item of items) body(item)]. *)
Fixpoint forEach {X A} (items : list A) (body : A -> M X unit) : M X unit :=
  match items with
  | [] => ret tt
  | item :: items => body item >> forEach items body
  end.

(** The parts of the result of a run. *)
Definition outcome {X A} (run : Outcome A * (X * World)) : Outcome A := run.1.
Definition data {X A} (run : Outcome A * (X * World)) : X := run.2.1.
Definition world {X A} (run : Outcome A * (X * World)) : World := run.2.2.

(** Sample worlds for the worked examples: an answer that succeeds, one
    that fails with an HTTP status, and the world that answers from a
    table. *)
Definition fine : Answer := mkAnswer None (lit "ok") 0 7 true 0.

Definition failing (status : Z) : Answer :=
  mkAnswer (Some (AxiosError (Some status) (lit "rejected"))) [] 0 7 false 0.

(** The world whose n-th answer is the n-th entry of [answers], and [fine]
    beyond the table. *)
Definition scripted (answers : list Answer) : World :=
  mkWorld (fun n => nth n answers fine) [].

(** The calls a computation added to the log. *)
Definition new_calls (before after : World) : list (Call * Answer) :=
  drop (length (log before)) (log after).

End Runtime.

(** ** utils/retry.ts *)

Module Retry.
Import Runtime.

(** [RetryOptions] (the logger aside); an absent field takes its default. *)
Record RetryOptions := mkRetryOptions {
  maxRetries : option Z;
  baseDelay : option Z;
  maxDelay : option Z
}.

(** [DEFAULT_RETRY_OPTIONS]. *)
Definition DEFAULT_maxRetries : Z := 3.
Definition DEFAULT_baseDelay : Z := 1000.
Definition DEFAULT_maxDelay : Z := 10000.

(** [Math.min(baseDelay * Math.pow(2, attempt) + Math.random() * 1000, maxDelay)],
    in exact arithmetic. *)
Definition backoffDelay (baseDelay maxDelay attempt : Z) (random : Q) : Q :=
  Qmin (inject_Z (baseDelay * 2 ^ attempt) + random * 1000) (inject_Z maxDelay).

Section Loop.
Context {X T : Type}.
Variable fn : M X T.
Variables maxRetries baseDelay maxDelay : Z.

(** [throw lastError || new Error('Retry failed')] after the loop. *)
Definition afterLoop (lastError : option Error) : M X T :=
  throw (default (PlainError (lit "Retry failed")) lastError).

(** The [for] loop from [attempt] on; [fuel] bounds the iterations left. *)
Fixpoint retryLoop (fuel : nat) (attempt : Z) (lastError : option Error) : M X T :=
  match fuel with
  | O => afterLoop lastError
  | S fuel =>
      if attempt <=? maxRetries then
        try_catch fn (fun error =>
          let lastError := error in
          if attempt =? maxRetries then throw lastError
          else
            let* random := Math_random in
            let delay := backoffDelay baseDelay maxDelay attempt random in
            sleep delay >>
            retryLoop fuel (attempt + 1) (Some lastError))
      else afterLoop lastError
  end.

End Loop.

(** [opts = { ...DEFAULT_RETRY_OPTIONS, ...options }]. *)
Definition optMaxRetries (options : RetryOptions) : Z :=
  default DEFAULT_maxRetries (maxRetries options).
Definition optBaseDelay (options : RetryOptions) : Z :=
  default DEFAULT_baseDelay (baseDelay options).
Definition optMaxDelay (options : RetryOptions) : Z :=
  default DEFAULT_maxDelay (maxDelay options).

(** [retryWithBackoff]: the loop runs for [attempt = 0 .. maxRetries], so
    [maxRetries + 1] iterations exhaust it. *)
Definition retryWithBackoff {X T} (fn : M X T) (options : RetryOptions) : M X T :=
  retryLoop fn (optMaxRetries options) (optBaseDelay options) (optMaxDelay options)
            (Z.to_nat (optMaxRetries options + 1)) 0 None.


(** The calls of the back-off itself. *)
Definition is_backoff (ev : Call * Answer) : bool :=
  match ev.1 with
  | CallMathRandom => true
  | CallSleep _ => true
  | _ => false
  end.



End Retry.

(** ** card/ai-card.ts *)

Module Card.
Import Runtime Retry.

(** [AICardStatus]. *)
Definition PROCESSING : jstring := lit "1".
Definition INPUTING : jstring := lit "2".
Definition FINISHED : jstring := lit "3".
Definition EXECUTING : jstring := lit "4".
Definition FAILED : jstring := lit "5".

(** [DEFAULT_CARD_TEMPLATE_ID]. *)
Definition DEFAULT_CARD_TEMPLATE_ID : jstring :=
  lit "382e4302-551d-4880-bf29-a30acfab2e71.schema".

(** [TOKEN_REFRESH_THRESHOLD = 90 * 60 * 1000]. *)
Definition TOKEN_REFRESH_THRESHOLD : Z := 90 * 60 * 1000.

(** [AICardInstance]; [state] is whatever string was last assigned. *)
Record AICardInstance := mkCard {
  cardInstanceId : jstring;
  accessToken : jstring;
  conversationId : jstring;
  accountId : jstring;
  createdAt : Z;
  lastUpdated : Z;
  state : jstring;
  config : DingTalkConfig;
  inputingStarted : bool
}.

(** [AICardTarget]. *)
Record AICardTarget := mkTarget {
  t_accountId : jstring;
  t_conversationId : jstring;
  t_isGroup : bool;
  t_userId : option jstring
}.

Definition set_accessToken (v : jstring) (c : AICardInstance) : AICardInstance :=
  mkCard (cardInstanceId c) v (conversationId c) (accountId c) (createdAt c)
         (lastUpdated c) (state c) (config c) (inputingStarted c).

Definition set_lastUpdated (v : Z) (c : AICardInstance) : AICardInstance :=
  mkCard (cardInstanceId c) (accessToken c) (conversationId c) (accountId c)
         (createdAt c) v (state c) (config c) (inputingStarted c).

Definition set_state (v : jstring) (c : AICardInstance) : AICardInstance :=
  mkCard (cardInstanceId c) (accessToken c) (conversationId c) (accountId c)
         (createdAt c) (lastUpdated c) v (config c) (inputingStarted c).

Definition set_inputingStarted (v : bool) (c : AICardInstance) : AICardInstance :=
  mkCard (cardInstanceId c) (accessToken c) (conversationId c) (accountId c)
         (createdAt c) (lastUpdated c) (state c) (config c) v.

(** [a || b] where [a] may be undefined. *)
Definition opt_or (a : option jstring) (b : jstring) : jstring :=
  match a with
  | Some a => or_else a b
  | None => b
  end.

(** [isCardInTerminalState]. *)
Definition isCardInTerminalState (state : jstring) : bool :=
  bool_decide (state = FINISHED) || bool_decide (state = FAILED).

(** [createAICard]: the new instance, or [null] after any failure. *)
Definition createAICard (config : DingTalkConfig) (target : AICardTarget)
    : M unit (option AICardInstance) :=
  try_catch
    (let* token := getAccessToken config in
     let* uuid := randomUUID in
     let cardInstanceId := lit "card_" ++ uuid in
     let openSpaceId :=
       if t_isGroup target
       then lit "dtv1.card//IM_GROUP." ++ t_conversationId target
       else lit "dtv1.card//IM_ROBOT." ++
            opt_or (t_userId target) (t_conversationId target) in
     let createBody :=
       CreateAndDeliver
         (opt_or (cardTemplateId config) DEFAULT_CARD_TEMPLATE_ID)
         cardInstanceId openSpaceId
         (if t_isGroup target
          then Some (opt_or (robotCode config) (clientId config))
          else None) in
     let* _ := retryWithBackoff (axios createBody token)
                 (mkRetryOptions (Some 2) None None) in
     let* createdAt := Date_now in
     let* lastUpdated := Date_now in
     ret (Some (mkCard cardInstanceId token (t_conversationId target)
                  (t_accountId target) createdAt lastUpdated PROCESSING
                  config false)))
    (fun _ => ret None).

(** The state update after an accepted content update (both the first
    attempt and the retry run it). *)
Definition markUpdated (finished : bool) : M AICardInstance unit :=
  let* now := Date_now in
  modify (set_lastUpdated now) >>
  let* card := get in
  if finished then modify (set_state FINISHED)
  else if bool_decide (state card = PROCESSING) then modify (set_state INPUTING)
  else ret tt.

(** The body of [PUT /v1.0/card/streaming] built by [streamAICard]. *)
Definition streamBody (card : AICardInstance) (guid content : jstring)
    (finished : bool) : AICardStreamingRequest :=
  mkStreamingRequest (cardInstanceId card) guid (lit "msgContent") content
                     true finished false.

(** [streamAICard], first block: the pre-emptive token refresh, whose
    failure is logged and swallowed. *)
Definition refreshIfStale : M AICardInstance unit :=
  let* now := Date_now in
  let* card := get in
  let tokenAge := now - createdAt card in
  if tokenAge >? TOKEN_REFRESH_THRESHOLD then
    try_catch
      (let* token := getAccessToken (config card) in
       modify (set_accessToken token))
      (fun _ => ret tt)
  else ret tt.

(** [streamAICard], second block: the switch to INPUTING before the
    first content update; its [catch] logs and rethrows. *)
Definition ensureInputing : M AICardInstance unit :=
  let* card := get in
  if negb (inputingStarted card) then
    try_catch
      (let* _ := axios (PutInstances (cardInstanceId card) INPUTING [])
                       (accessToken card) in
       ret tt)
      (fun error => throw error) >>
    modify (set_inputingStarted true)
  else ret tt.

(** [streamAICard], third block: the content update, with one refresh
    and one retry after a 401, and the marking of a failure. *)
Definition pushContent (content : jstring) (finished : bool)
    : M AICardInstance unit :=
  let* guid := randomUUID in
  let* card := get in
  let body := streamBody card guid content finished in
  try_catch
    (let* _ := axios (PutStreaming body) (accessToken card) in
     markUpdated finished)
    (fun error =>
       let* recovered :=
         (if is401 error then
            try_catch
              (let* token := getAccessToken (config card) in
               modify (set_accessToken token) >>
               let* card := get in
               let* _ := axios (PutStreaming body) (accessToken card) in
               markUpdated finished >>
               ret true)
              (fun retryError => ret false)
          else ret false) in
       if recovered : bool then ret tt
       else
         modify (set_state FAILED) >>
         let* now := Date_now in
         modify (set_lastUpdated now) >>
         throw error).

(** [streamAICard] on the card held by the caller. *)
Definition streamAICard (content : jstring) (finished : bool)
    : M AICardInstance unit :=
  refreshIfStale >>
  ensureInputing >>
  pushContent content finished.

(** [finishAICard]. *)
Definition finishAICard (content : jstring) : M AICardInstance unit :=
  streamAICard content true >>
  let* card := get in
  try_catch
    (let* _ := axios (PutInstances (cardInstanceId card) FINISHED content)
                     (accessToken card) in
     ret tt)
    (fun _ => ret tt).

(** Observations on recorded calls. *)
Definition is_inputing (ev : Call * Answer) : bool :=
  match ev.1 with
  | CallHttp (PutInstances _ flowStatus _) _ => bool_decide (flowStatus = INPUTING)
  | _ => false
  end.

Definition is_update (ev : Call * Answer) : bool :=
  match ev.1 with
  | CallHttp (PutStreaming _) _ => true
  | _ => false
  end.




(** The card after an accepted content update read at clock [t]. *)
Definition afterUpdate (finished : bool) (t : Z) (card : AICardInstance)
    : AICardInstance :=
  let card := set_lastUpdated t card in
  if finished then set_state FINISHED card
  else if bool_decide (state card = PROCESSING) then set_state INPUTING card
  else card.

(** The card after a failed content update read at clock [t]. *)
Definition afterFailure (t : Z) (card : AICardInstance) : AICardInstance :=
  set_lastUpdated t (set_state FAILED card).

(** The runs of the first block: one clock reading, then at most one
    token request; only the token of the card can change. *)
Inductive refresh_run (card : AICardInstance)
    : AICardInstance -> list (Call * Answer) -> Prop :=
| refresh_fresh a0 :
    refresh_run card card [(CallDateNow, a0)]
| refresh_done a0 a1 :
    failure a1 = None ->
    refresh_run card (set_accessToken (text a1) card)
      [(CallDateNow, a0); (CallGetAccessToken (config card), a1)]
| refresh_failed a0 a1 e :
    failure a1 = Some e ->
    refresh_run card card
      [(CallDateNow, a0); (CallGetAccessToken (config card), a1)].

(** The runs of the second block. *)
Inductive inputing_run (card : AICardInstance)
    : Outcome unit -> AICardInstance -> list (Call * Answer) -> Prop :=
| inputing_skipped :
    inputingStarted card = true ->
    inputing_run card (Ok tt) card []
| inputing_switched a :
    inputingStarted card = false ->
    failure a = None ->
    inputing_run card (Ok tt) (set_inputingStarted true card)
      [(CallHttp (PutInstances (cardInstanceId card) INPUTING [])
                 (accessToken card), a)]
| inputing_rejected a e :
    inputingStarted card = false ->
    failure a = Some e ->
    inputing_run card (Throw e) card
      [(CallHttp (PutInstances (cardInstanceId card) INPUTING [])
                 (accessToken card), a)].

(** The runs of the third block. *)
Inductive push_run (card : AICardInstance) (content : jstring) (finished : bool)
    : Outcome unit -> AICardInstance -> list (Call * Answer) -> Prop :=
| push_accepted a0 a1 a2 :
    failure a1 = None ->
    push_run card content finished (Ok tt) (afterUpdate finished (time a2) card)
      [(CallRandomUUID, a0);
       (CallHttp (PutStreaming (streamBody card (text a0) content finished))
                 (accessToken card), a1);
       (CallDateNow, a2)]
| push_rejected a0 a1 a2 e :
    failure a1 = Some e ->
    is401 e = false ->
    push_run card content finished (Throw e) (afterFailure (time a2) card)
      [(CallRandomUUID, a0);
       (CallHttp (PutStreaming (streamBody card (text a0) content finished))
                 (accessToken card), a1);
       (CallDateNow, a2)]
| push_refresh_failed a0 a1 a2 a3 e e' :
    failure a1 = Some e ->
    is401 e = true ->
    failure a2 = Some e' ->
    push_run card content finished (Throw e) (afterFailure (time a3) card)
      [(CallRandomUUID, a0);
       (CallHttp (PutStreaming (streamBody card (text a0) content finished))
                 (accessToken card), a1);
       (CallGetAccessToken (config card), a2);
       (CallDateNow, a3)]
| push_retry_failed a0 a1 a2 a3 a4 e e' :
    failure a1 = Some e ->
    is401 e = true ->
    failure a2 = None ->
    failure a3 = Some e' ->
    push_run card content finished (Throw e)
      (afterFailure (time a4) (set_accessToken (text a2) card))
      [(CallRandomUUID, a0);
       (CallHttp (PutStreaming (streamBody card (text a0) content finished))
                 (accessToken card), a1);
       (CallGetAccessToken (config card), a2);
       (CallHttp (PutStreaming (streamBody card (text a0) content finished))
                 (text a2), a3);
       (CallDateNow, a4)]
| push_retry_accepted a0 a1 a2 a3 a4 e :
    failure a1 = Some e ->
    is401 e = true ->
    failure a2 = None ->
    failure a3 = None ->
    push_run card content finished (Ok tt)
      (afterUpdate finished (time a4) (set_accessToken (text a2) card))
      [(CallRandomUUID, a0);
       (CallHttp (PutStreaming (streamBody card (text a0) content finished))
                 (accessToken card), a1);
       (CallGetAccessToken (config card), a2);
       (CallHttp (PutStreaming (streamBody card (text a0) content finished))
                 (text a2), a3);
       (CallDateNow, a4)].

(** The runs of [streamAICard]: the three blocks in turn, the third only
    when the second did not throw. *)
Inductive stream_run (card : AICardInstance) (content : jstring) (finished : bool)
    : Outcome unit -> AICardInstance -> list (Call * Answer) -> Prop :=
| stream_stopped card1 tr1 e tr2 :
    refresh_run card card1 tr1 ->
    inputing_run card1 (Throw e) card1 tr2 ->
    stream_run card content finished (Throw e) card1 (tr1 ++ tr2)
| stream_pushed card1 tr1 card2 tr2 r card3 tr3 :
    refresh_run card card1 tr1 ->
    inputing_run card1 (Ok tt) card2 tr2 ->
    push_run card2 content finished r card3 tr3 ->
    stream_run card content finished r card3 (tr1 ++ tr2 ++ tr3).



(** A caller that catches: the outcome of [m] as a value. *)
Definition attempt {X A} (m : M X A) : M X (Outcome A) :=
  try_catch (let* a := m in ret (Ok a)) (fun e => ret (Throw e)).


(** Sample data for the worked examples: an instance in a given state. *)
Definition sampleCard (state : jstring) (inputingStarted : bool) : AICardInstance :=
  mkCard (lit "card_1") (lit "tok") (lit "cid") (lit "acc") 0 0 state
         (mkConfig (lit "app") None None) inputingStarted.


(** The request [createAICard] sends for a target, given the uuid drawn. *)
Definition createRequest (config : DingTalkConfig) (target : AICardTarget)
    (uuid : jstring) : Request :=
  CreateAndDeliver
    (opt_or (cardTemplateId config) DEFAULT_CARD_TEMPLATE_ID)
    (lit "card_" ++ uuid)
    (if t_isGroup target
     then lit "dtv1.card//IM_GROUP." ++ t_conversationId target
     else lit "dtv1.card//IM_ROBOT." ++
          opt_or (t_userId target) (t_conversationId target))
    (if t_isGroup target
     then Some (opt_or (robotCode config) (clientId config))
     else None).

Definition is_create (ev : Call * Answer) : bool :=
  match ev.1 with
  | CallHttp (CreateAndDeliver _ _ _ _) _ => true
  | _ => false
  end.

End Card.

(** ** card/card-cache.ts *)

Module CardCache.
Import Runtime Retry Card.

(** The module state.  Card instances are objects shared with the
    callers: [heap] holds them, a reference is an index into it, and
    [cardInstances] maps an id to the reference stored under it. *)
Record Cache := mkCache {
  heap : list AICardInstance;
  cardInstances : gmap jstring nat;
  activeCardsByTarget : gmap jstring jstring
}.

(** [getTargetKey]. *)
Definition getTargetKey (accountId conversationId : jstring) : jstring :=
  accountId ++ lit ":" ++ conversationId.

(** [cardInstances.get(id)], dereferenced. *)
Definition cachedCard (cache : Cache) (id : jstring) : option (nat * AICardInstance) :=
  match cardInstances cache !! id with
  | Some ref =>
      match heap cache !! ref with
      | Some card => Some (ref, card)
      | None => None
      end
  | None => None
  end.

Definition deleteActive (targetKey : jstring) (cache : Cache) : Cache :=
  mkCache (heap cache) (cardInstances cache)
          (delete targetKey (activeCardsByTarget cache)).

(** [cardInstances.set(id, newCard); activeCardsByTarget.set(targetKey, id)]
    for a freshly allocated [newCard]. *)
Definition install (targetKey : jstring) (newCard : AICardInstance)
    (cache : Cache) : Cache :=
  mkCache (heap cache ++ [newCard])
          (<[cardInstanceId newCard := length (heap cache)]> (cardInstances cache))
          (<[targetKey := cardInstanceId newCard]> (activeCardsByTarget cache)).

(** [getOrCreateCard]: a reference to the instance, or [null]. *)
Definition getOrCreateCard (config : DingTalkConfig) (target : AICardTarget)
    : M Cache (option nat) :=
  let targetKey := getTargetKey (t_accountId target) (t_conversationId target) in
  let* cache := get in
  let existingCardId := activeCardsByTarget cache !! targetKey in
  let* reused :=
    match existingCardId with
    | Some existingCardId =>
        if truthy existingCardId then
          match cachedCard cache existingCardId with
          | Some (ref, existingCard) =>
              if negb (isCardInTerminalState (state existingCard))
              then ret (Some ref)
              else modify (deleteActive targetKey) >> ret None
          | None => modify (deleteActive targetKey) >> ret None
          end
        else ret None
    | None => ret None
    end in
  match reused with
  | Some ref => ret (Some ref)
  | None =>
      let* newCard := worldOnly (createAICard config target) in
      match newCard with
      | Some newCard =>
          let* cache := get in
          modify (install targetKey newCard) >>
          ret (Some (length (heap cache)))
      | None => ret None
      end
  end.

(** [getCachedCard]. *)
Definition getCachedCard (cardInstanceId : jstring) (cache : Cache)
    : option (nat * AICardInstance) :=
  cachedCard cache cardInstanceId.

(** [updateCardState]: the assignment to the shared object. *)
Definition updateCardState (cardInstanceId state : jstring) : M Cache unit :=
  let* cache := get in
  match cachedCard cache cardInstanceId with
  | Some (ref, card) =>
      let card := set_state state card in
      let* now := Date_now in
      let card := set_lastUpdated now card in
      modify (fun cache =>
        mkCache (<[ref := card]> (heap cache)) (cardInstances cache)
                (activeCardsByTarget cache))
  | None => ret tt
  end.

(** [removeActiveCard]. *)
Definition removeActiveCard (accountId conversationId : jstring) (cache : Cache)
    : Cache :=
  deleteActive (getTargetKey accountId conversationId) cache.

(** Every id the cache maps a target to is a non-empty string (the ids
    installed are [card_] followed by a uuid). *)
Definition idsNonEmpty (cache : Cache) : Prop :=
  forall targetKey id,
    activeCardsByTarget cache !! targetKey = Some id -> id <> [].

(** Sample data for the worked examples: a target and a cache that maps
    it to one instance in the given state. *)
Definition sampleTarget : AICardTarget :=
  mkTarget (lit "acc") (lit "cid") false None.

Definition sampleCache (state : jstring) : Cache :=
  mkCache [sampleCard state true]
          {[ lit "card_1" := 0%nat ]}
          {[ lit "acc:cid" := lit "card_1" ]}.

(** [CARD_CACHE_TTL = 60 * 60 * 1000]. *)
Definition CARD_CACHE_TTL : Z := 60 * 60 * 1000.

(** [getActiveCardForTarget]: a reference to the instance, or
    [undefined]; a mapping to a terminal or missing instance is deleted
    on the way. *)
Definition getActiveCardForTarget (accountId conversationId : jstring)
    (cache : Cache) : option nat * Cache :=
  let targetKey := getTargetKey accountId conversationId in
  match activeCardsByTarget cache !! targetKey with
  | Some cardId =>
      if negb (truthy cardId) then (None, cache)
      else
        match cachedCard cache cardId with
        | Some (ref, card) =>
            if isCardInTerminalState (state card)
            then (None, deleteActive targetKey cache)
            else (Some ref, cache)
        | None => (None, deleteActive targetKey cache)
        end
  | None => (None, cache)
  end.

(** The inner loop of [cleanupCardCache]: the first key, in the iteration
    order of [activeCardsByTarget], that is mapped to [cardId]. *)
Definition firstTargetOf (cardId : jstring) (targetOrder : list jstring)
    (active : gmap jstring jstring) : option jstring :=
  List.find (fun targetKey => bool_decide (active !! targetKey = Some cardId))
            targetOrder.

(** The body of the outer loop of [cleanupCardCache]. *)
Definition cleanupStep (now : Z) (targetOrder : list jstring) (cache : Cache)
    (cardId : jstring) : Cache :=
  match cachedCard cache cardId with
  | Some (ref, card) =>
      if isCardInTerminalState (state card)
         && (now - lastUpdated card >? CARD_CACHE_TTL)
      then
        mkCache (heap cache) (delete cardId (cardInstances cache))
          (match firstTargetOf cardId targetOrder (activeCardsByTarget cache) with
           | Some targetKey => delete targetKey (activeCardsByTarget cache)
           | None => activeCardsByTarget cache
           end)
      else cache
  | None => cache
  end.

(** [cleanupCardCache]; [now] is the reading of [Date.now()], [cardOrder]
    and [targetOrder] are the keys of [cardInstances] and of
    [activeCardsByTarget] in the order the [Map]s iterate them. *)
Definition cleanupCardCache (now : Z) (cardOrder targetOrder : list jstring)
    (cache : Cache) : Cache :=
  fold_left (cleanupStep now targetOrder) cardOrder cache.

(** [getCacheStats]. *)
Definition getCacheStats (cache : Cache) : nat * nat :=
  (base.size (cardInstances cache), base.size (activeCardsByTarget cache)).

(** [clearAllCache]: both maps are emptied; the instances live on for
    whoever holds them. *)
Definition clearAllCache (cache : Cache) : Cache :=
  mkCache (heap cache) ∅ ∅.

(** An instance that [cleanupCardCache] removes at the reading [now]. *)
Definition expired (now : Z) (card : AICardInstance) : bool :=
  isCardInTerminalState (state card) && (now - lastUpdated card >? CARD_CACHE_TTL).

End CardCache.

(** ** card/streaming.ts: the stream consumer *)

Module Streaming.

Section Consumer.

(** What [JSON.parse(data)] followed by [chunk.choices?.[0]?.delta?.content]
    gives: [None] when the [try] block throws there, [Some None] when the
    content is absent, [Some (Some content)] for a content, which is any
    JSON value: the code does not look at its type. *)
Variable deltaContent : jstring -> option (option JValue).

(** Whether [log?.info] is there: only then is the argument of the call
    in the [try] block, [content.slice(0, 30)] in it, evaluated.  The
    logger itself returns normally. *)
Variable logInfo : bool.

(** Whether the argument of the log call can be built:
    [content.slice(0, 30)] needs a string or an array, and the template
    then makes a string of what it gives. *)
Definition loggable (content : JValue) : bool :=
  match content with
  | JString _ => true
  | JArray items => forallb printable (take 30 items)
  | _ => false
  end.

(** What one line of the wire does to the generator. *)
Inductive LineEffect :=
| Yield (content : JValue)
| Skip
| Done.

(** The body of the [for (const line of lines)] loop, with [chunkCount]
    before and after.  A truthy content is counted; among the first five,
    with a logger, one for which the argument of the log call cannot be
    built throws in the [try] block and is not yielded. *)
Definition processLine (chunkCount : nat) (line : jstring) : LineEffect * nat :=
  if negb (startsWith (lit "data: ") line) then (Skip, chunkCount)
  else
    let data := trim (drop 6 line) in
    if bool_decide (data = lit "[DONE]") then (Done, chunkCount)
    else
      match deltaContent data with
      | Some (Some content) =>
          if truthyValue content then
            let chunkCount := S chunkCount in
            if (chunkCount <=? 5)%nat && logInfo && negb (loggable content)
            then (Skip, chunkCount)
            else (Yield content, chunkCount)
          else (Skip, chunkCount)
      | Some None => (Skip, chunkCount)
      | None => (Skip, chunkCount)
      end.

(** The [for] loop over the complete lines of the buffer: the fragments
    yielded, whether the sentinel ended the generator, and the count. *)
Fixpoint processLines (chunkCount : nat) (lines : list jstring)
    : list JValue * bool * nat :=
  match lines with
  | [] => ([], false, chunkCount)
  | line :: lines =>
      let '(effect, chunkCount) := processLine chunkCount line in
      match effect with
      | Done => ([], true, chunkCount)
      | Skip => processLines chunkCount lines
      | Yield content =>
          let '(fragments, done, chunkCount) := processLines chunkCount lines in
          (content :: fragments, done, chunkCount)
      end
  end.

(** The [while (true)] loop over the pieces the reader delivers, already
    decoded; the reader reports [done] after the last piece.  The last,
    incomplete line stays in the buffer. *)
Fixpoint readLoop (chunkCount : nat) (buffer : jstring) (pieces : list jstring)
    : list JValue :=
  match pieces with
  | [] => []
  | value :: pieces =>
      let buffer := buffer ++ value in
      let lines := splitLines buffer in
      let buffer := or_else (default [] (last lines)) [] in
      let lines := removelast lines in
      let '(fragments, done, chunkCount) := processLines chunkCount lines in
      if done then fragments else fragments ++ readLoop chunkCount buffer pieces
  end.

(** [streamFromGateway] once the request was sent: the values the
    generator yields over its whole life, or [None] for the exception
    thrown when the response is not ok or has no body. *)
Definition streamFromGateway (response_ok : bool) (body : option (list jstring))
    : option (list JValue) :=
  match response_ok, body with
  | true, Some pieces => Some (readLoop 0 [] pieces)
  | _, _ => None
  end.

End Consumer.

(** A sample decoder for the worked examples: it knows the payloads of
    the examples and throws on everything else. *)
Definition sampleDelta (data : jstring) : option (option JValue) :=
  if bool_decide (data = litq "{'choices':[{'delta':{'content':'hello '}}]}")
  then Some (Some (JString (lit "hello ")))
  else if bool_decide (data = litq "{'choices':[{'delta':{'content':''}}]}")
  then Some (Some (JString []))
  else if bool_decide (data = litq "{'choices':[{'delta':{'content':5}}]}")
  then Some (Some (JNumber 5))
  else if bool_decide (data = litq "{'choices':[{'delta':{}}]}")
  then Some None
  else None.

(** A sample wire for the worked examples: a content event cut in two by
    the transport, a comment line, an event without content, the
    sentinel. *)
Definition sampleWire : list jstring :=
  [lit "data: {";
   litq "'choices':[{'delta':{'content':'hello '}}]}" ++ [10%N];
   lit ": ping" ++ [10%N] ++ litq "data: {'choices':[{'delta':{}}]}" ++ [10%N];
   lit "data: [DONE]" ++ [10%N]].

(** A string without a line feed. *)
Definition noLineFeed (s : jstring) : Prop := Forall (fun c => c <> 10%N) s.

End Streaming.

(** ** post-process/file.ts, video.ts, audio.ts: media markers *)

Module Markers.
Import Runtime Card.

Inductive MarkerKind := FILE | VIDEO | AUDIO.

Definition openTag (kind : MarkerKind) : jstring :=
  match kind with
  | FILE => lit "[DINGTALK_FILE]"
  | VIDEO => lit "[DINGTALK_VIDEO]"
  | AUDIO => lit "[DINGTALK_AUDIO]"
  end.

Definition closeTag (kind : MarkerKind) : jstring :=
  match kind with
  | FILE => lit "[/DINGTALK_FILE]"
  | VIDEO => lit "[/DINGTALK_VIDEO]"
  | AUDIO => lit "[/DINGTALK_AUDIO]"
  end.

(** The code units of the braces and of the opening bracket. *)
Definition LBRACE : N := 123.
Definition RBRACE : N := 125.
Definition LBRACKET : N := 91.

(** [.*?}\[\/KIND\]] tried at the start of [s]: the lazy quantifier takes
    the shortest run of code units, none a line terminator, after which
    the closing brace and tag follow.  Gives the run and what follows the
    closing tag. *)
Fixpoint lazyBody (close : jstring) (s : jstring) : option (jstring * jstring) :=
  match stripPrefix (RBRACE :: close) s with
  | Some rest => Some ([], rest)
  | None =>
      match s with
      | [] => None
      | c :: s' =>
          if isLineTerminator c then None
          else
            match lazyBody close s' with
            | Some (body, rest) => Some (c :: body, rest)
            | None => None
            end
      end
  end.

(** [/\[KIND\]({.*?})\[\/KIND\]/] tried at the start of [s]: capture group
    1 and what follows the match. *)
Definition matchHere (kind : MarkerKind) (s : jstring) : option (jstring * jstring) :=
  match stripPrefix (openTag kind ++ [LBRACE]) s with
  | Some s1 =>
      match lazyBody (closeTag kind) s1 with
      | Some (body, rest) => Some (LBRACE :: body ++ [RBRACE], rest)
      | None => None
      end
  | None => None
  end.

(** The scan of a global regular expression: at each position the pattern
    is tried; a match is taken and the scan resumes after it, otherwise the
    code unit stays and the scan moves on by one. *)
Inductive Token :=
| TChar (c : N)
| TMarker (capture : jstring).

Fixpoint scan (kind : MarkerKind) (fuel : nat) (s : jstring) : list Token :=
  match fuel with
  | O => []
  | S fuel =>
      match s with
      | [] => []
      | c :: s' =>
          match matchHere kind s with
          | Some (capture, rest) => TMarker capture :: scan kind fuel rest
          | None => TChar c :: scan kind fuel s'
          end
      end
  end.

(** Every step consumes at least one code unit, so [length s] steps
    finish the scan. *)
Definition tokenize (kind : MarkerKind) (s : jstring) : list Token :=
  scan kind (length s) s.

Definition captureOf (t : Token) : list jstring :=
  match t with
  | TMarker capture => [capture]
  | TChar _ => []
  end.

Definition charOf (t : Token) : jstring :=
  match t with
  | TMarker _ => []
  | TChar c => [c]
  end.

(** [[...content.matchAll(PATTERN)]], each match by its group 1. *)
Definition matchAll (kind : MarkerKind) (s : jstring) : list jstring :=
  flat_map captureOf (tokenize kind s).

(** [content.replace(PATTERN, '')]. *)
Definition replaceAll (kind : MarkerKind) (s : jstring) : jstring :=
  flat_map charOf (tokenize kind s).

(** The marker the prompt asks the model to write around a payload
    [{body}]. *)
Definition marker (kind : MarkerKind) (body : jstring) : jstring :=
  openTag kind ++ [LBRACE] ++ body ++ [RBRACE] ++ closeTag kind.

(** A text written as pieces of plain text, each followed by a marker,
    and a last piece of plain text. *)
Fixpoint assemble (kind : MarkerKind) (pieces : list (jstring * jstring))
    (tail : jstring) : jstring :=
  match pieces with
  | [] => tail
  | (gap, body) :: pieces => gap ++ marker kind body ++ assemble kind pieces tail
  end.

Definition payloadOf (body : jstring) : jstring := LBRACE :: body ++ [RBRACE].

(** Plain text holds no opening bracket; a plain payload body holds
    neither an opening bracket nor a line terminator. *)
Definition plain (s : jstring) : Prop :=
  Forall (fun c => c <> LBRACKET) s.

Definition plainBody (s : jstring) : Prop :=
  Forall (fun c => c <> LBRACKET /\ isLineTerminator c = false) s.

Definition wellFormed (pieces : list (jstring * jstring)) : Prop :=
  Forall (fun piece => plain piece.1 /\ plainBody piece.2) pieces.

(** A text without a stray tag: the opening tag of the kind occurs
    nowhere in it.  A payload body the pattern takes whole: it holds no
    line terminator and not the closing tag of the kind. *)
Definition tagFree (kind : MarkerKind) (s : jstring) : Prop :=
  includes (openTag kind) s = false.

Definition closedBody (kind : MarkerKind) (body : jstring) : Prop :=
  Forall (fun c => isLineTerminator c = false) body /\
  includes (closeTag kind) body = false.

(** A text of gaps and markers without stray tags: the gaps and the tail,
    joined, hold no opening tag, and no payload body holds a closing tag
    or a line terminator. *)
Definition wellTagged (kind : MarkerKind) (pieces : list (jstring * jstring))
    (tail : jstring) : Prop :=
  tagFree kind (flat_map fst pieces ++ tail) /\
  Forall (fun piece => closedBody kind piece.2) pieces.

(** The parsed payload of a marker: the three fields the passes read,
    each absent or any JSON value ([FileInfo], [VideoInfo] and [AudioInfo]
    are not checked at run time). *)
Record MarkerPayload := mkPayload {
  p_path : option JValue;
  p_fileName : option JValue;
  p_fileType : option JValue
}.

(** The status lines, by the template that builds them. *)
Inductive StatusLine :=
| FileNotFound (fileName : jstring)          (* ⚠️ 文件不存在: ${fileName} *)
| FileTooLarge (fileName : jstring) (size : Z)
                                             (* ⚠️ 文件过大: ${fileName}（${sizeMB}MB，限制 20MB） *)
| FileUploadFailed (fileName : jstring)      (* ⚠️ 文件上传失败: ${fileName} *)
| FileSent (fileName : jstring)              (* ✅ 文件已发送: ${fileName} *)
| FileError (fileName : jstring)             (* ⚠️ 文件处理异常: ${fileName} *)
| VideoNotFound (fileName : jstring)         (* ⚠️ 视频文件不存在: ${basename} *)
| VideoNoMetadata (fileName : jstring)       (* ⚠️ 视频处理失败: ${fileName}（无法读取视频信息） *)
| VideoNoThumbnail (fileName : jstring)      (* ⚠️ 视频处理失败: ${fileName}（无法生成封面） *)
| VideoUploadFailed (fileName : jstring)     (* ⚠️ 视频上传失败: ${fileName}（文件可能超过 20MB） *)
| ThumbnailUploadFailed (fileName : jstring) (* ⚠️ 封面上传失败: ${fileName} *)
| VideoSent (fileName : jstring)             (* ✅ 视频已发送: ${fileName} *)
| VideoError (fileName : jstring)            (* ⚠️ 视频处理异常: ${fileName} *)
| AudioNotFound (fileName : jstring)         (* ⚠️ 音频文件不存在: ${basename} *)
| AudioUploadFailed (fileName : jstring)     (* ⚠️ 音频上传失败: ${fileName}（文件可能超过 20MB） *)
| AudioSent (fileName : jstring)             (* ✅ 音频已发送: ${fileName} *)
| AudioError (fileName : jstring).           (* ⚠️ 音频处理异常: ${fileName} *)

(** [ProcessResult]; no pass adds a media message. *)
Record ProcessResult := mkResult {
  content : jstring;
  mediaMessages : list jstring;
  statusMessages : list StatusLine
}.

(** [ProcessContext] (the logger aside). *)
Record ProcessContext := mkContext {
  ctx_config : DingTalkConfig;
  ctx_target : AICardTarget;
  ctx_oapiToken : option jstring
}.

(** [MAX_FILE_SIZE], [MAX_VIDEO_SIZE], [MAX_AUDIO_SIZE]: 20 MB. *)
Definition MAX_SIZE : Z := 20 * 1024 * 1024.

(** [target.isGroup ? target.conversationId : target.userId || target.conversationId]. *)
Definition targetId (target : AICardTarget) : jstring :=
  if t_isGroup target then t_conversationId target
  else opt_or (t_userId target) (t_conversationId target).

(** The file system and the media API, as calls. *)
Definition existsSync {X} (path : jstring) : M X bool :=
  let* a := perform (CallExternal "fs.existsSync" [path]) in ret (flag a).

Definition statSync {X} (path : jstring) : M X Z :=
  let* a := perform (CallExternal "fs.statSync" [path]) in
  match failure a with
  | Some e => throw e
  | None => ret (size a)
  end.

Definition unlinkSync {X} (path : jstring) : M X jstring :=
  request (CallExternal "fs.unlinkSync" [path]).

(** [uploadMediaToDingTalk]: the media id, the empty string for [null]. *)
Definition uploadMediaToDingTalk {X} (path mediaType oapiToken : jstring)
    : M X jstring :=
  request (CallExternal "uploadMediaToDingTalk" [path; mediaType; oapiToken]).

Definition sendFileMessage {X} (target mediaId : jstring) (fileName fileType : JValue)
    : M X jstring :=
  request (CallSendFileMessage target mediaId fileName fileType).

Definition sendAudioMessage {X} (target mediaId duration : jstring) : M X jstring :=
  request (CallExternal "sendAudioMessage" [target; mediaId; duration]).

Definition sendVideoMessage {X} (target videoMediaId picMediaId : jstring)
    (duration : Z) : M X jstring :=
  request (CallExternal "sendVideoMessage"
             [target; videoMediaId; picMediaId; Number_toString duration]).

(** [extractVideoMetadata]: [flag] tells whether metadata came back,
    [size] holds its duration. *)
Definition extractVideoMetadata {X} (path : jstring) : M X Answer :=
  let* a := perform (CallExternal "extractVideoMetadata" [path]) in
  match failure a with
  | Some e => throw e
  | None => ret a
  end.

(** [extractVideoThumbnail]: the output path, the empty string for [null]. *)
Definition extractVideoThumbnail {X} (videoPath outputPath : jstring) : M X jstring :=
  request (CallExternal "extractVideoThumbnail" [videoPath; outputPath]).

(** [path.join(os.tmpdir(), name)]. *)
Definition tmpdirJoin {X} (name : jstring) : M X jstring :=
  let* a := perform (CallExternal "path.join(os.tmpdir())" [name]) in ret (text a).

Section Passes.

(** [JSON.parse] on a captured payload: [None] when it throws. *)
Variable JSON_parse : jstring -> option MarkerPayload.

(** [path.basename] on a string. *)
Variable basename : jstring -> jstring.

(** The string a template literal makes of a JSON value that is no
    string: [None] when the conversion throws (an object or an array whose
    [toString] and [valueOf] give no primitive). *)
Variable String_of : JValue -> option jstring.

Definition truthyField (field : option jstring) : bool :=
  match field with
  | Some s => truthy s
  | None => false
  end.

(** Truthiness of a field of a parsed payload. *)
Definition truthyJson (field : option JValue) : bool :=
  match field with
  | Some value => truthyValue value
  | None => false
  end.

(** [`${value}`]. *)
Definition templateOf (value : JValue) : option jstring :=
  match value with
  | JString s => Some s
  | _ => String_of value
  end.

Definition pushStatus {X} (line : StatusLine) : M (X * list StatusLine) unit :=
  modify (fun st => (st.1, st.2 ++ [line])).

(** [statusMessages.push(`... ${value}`)]: the template is evaluated
    first, and may throw. *)
Definition pushNamed {X} (line : jstring -> StatusLine) (value : JValue)
    : M (X * list StatusLine) unit :=
  match templateOf value with
  | Some name => pushStatus (line name)
  | None => throw TypeError
  end.

(** *** The file pass *)

(** The parsing loop: a payload is kept when it parses and has a truthy
    path and a truthy file name. *)
Definition fileInfoOf (capture : jstring) : list MarkerPayload :=
  match JSON_parse capture with
  | Some fileInfo =>
      if truthyJson (p_path fileInfo) && truthyJson (p_fileName fileInfo)
      then [fileInfo] else []
  | None => []
  end.

(** [fileInfo.fileType || 'file']. *)
Definition fileTypeOf (fileInfo : MarkerPayload) : JValue :=
  match p_fileType fileInfo with
  | Some value => if truthyValue value then value else JString (lit "file")
  | None => JString (lit "file")
  end.

(** The body of the processing loop.  [fs.existsSync] answers [false],
    without looking at the file system, for a value that is no path; the
    status line of the [catch] block is built from the same file name as
    those of the [try] block. *)
Definition fileBody (context : ProcessContext) (oapiToken : jstring)
    (fileInfo : MarkerPayload) : M (unit * list StatusLine) unit :=
  let fileName := default JNull (p_fileName fileInfo) in
  try_catch
    (match default JNull (p_path fileInfo) with
     | JString path =>
         let* present := existsSync path in
         if negb present then pushNamed FileNotFound fileName
         else
           let* size := statSync path in
           if size >? MAX_SIZE
           then pushNamed (fun name => FileTooLarge name size) fileName
           else
             let* mediaId := uploadMediaToDingTalk path (lit "file") oapiToken in
             if negb (truthy mediaId) then pushNamed FileUploadFailed fileName
             else
               let* _ := sendFileMessage (targetId (ctx_target context)) mediaId
                           fileName (fileTypeOf fileInfo) in
               pushNamed FileSent fileName
     | _ => pushNamed FileNotFound fileName
     end)
    (fun err => pushNamed FileError fileName).

(** [processFileMarkers]. *)
Definition processFileMarkers (content : jstring) (context : ProcessContext)
    : M unit ProcessResult :=
  if negb (truthyField (ctx_oapiToken context)) then
    ret (mkResult (trim (replaceAll FILE content)) [] [])
  else
    let oapiToken := default [] (ctx_oapiToken context) in
    let matches := matchAll FILE content in
    let fileInfos := flat_map fileInfoOf matches in
    let cleanedContent := trim (replaceAll FILE content) in
    match fileInfos with
    | [] => ret (mkResult cleanedContent [] [])
    | _ :: _ =>
        let* r := runLocal (tt, []) (forEach fileInfos (fileBody context oapiToken)) in
        ret (mkResult cleanedContent [] r.2.2)
    end.

(** *** The audio and video passes *)

(** The body of the parsing loop of both passes: the paths found, and
    what is pushed for the others, [info.path || 'unknown'].
    [fs.existsSync] is asked only about a truthy path and answers [false]
    for one that is no string. *)
Definition mediaParseBody (capture : jstring)
    : M (list jstring * list JValue) unit :=
  match JSON_parse capture with
  | Some info =>
      match p_path info with
      | Some (JString path) =>
          let* present := (if truthy path then existsSync path else ret false) in
          if present
          then modify (fun st => (st.1 ++ [path], st.2))
          else modify (fun st =>
                         (st.1, st.2 ++ [JString (or_else path (lit "unknown"))]))
      | Some value =>
          modify (fun st =>
                    (st.1, st.2 ++ [if truthyValue value then value
                                    else JString (lit "unknown")]))
      | None => modify (fun st => (st.1, st.2 ++ [JString (lit "unknown")]))
      end
  | None => ret tt
  end.

(** The body of the loop over what was not found: [path.basename] throws
    for a value that is no string, outside every [try]. *)
Definition notFoundBody (line : jstring -> StatusLine) (invalidPath : JValue)
    : M (unit * list StatusLine) unit :=
  match invalidPath with
  | JString path => pushStatus (line (basename path))
  | _ => throw TypeError
  end.

(** The body of the processing loop of the audio pass. *)
Definition audioBody (context : ProcessContext) (oapiToken : jstring)
    (path : jstring) : M (unit * list StatusLine) unit :=
  let fileName := basename path in
  try_catch
    (let* mediaId := uploadMediaToDingTalk path (lit "voice") oapiToken in
     if negb (truthy mediaId) then pushStatus (AudioUploadFailed fileName)
     else
       let* _ := sendAudioMessage (targetId (ctx_target context)) mediaId
                   (lit "60000") in
       pushStatus (AudioSent fileName))
    (fun err => pushStatus (AudioError fileName)).

(** [processAudioMarkers]. *)
Definition processAudioMarkers (content : jstring) (context : ProcessContext)
    : M unit ProcessResult :=
  if negb (truthyField (ctx_oapiToken context)) then
    ret (mkResult (trim (replaceAll AUDIO content)) [] [])
  else
    let oapiToken := default [] (ctx_oapiToken context) in
    let matches := matchAll AUDIO content in
    let* parsed := runLocal ([], []) (forEach matches mediaParseBody) in
    let audioInfos := parsed.2.1 in
    let invalidAudios := parsed.2.2 in
    let cleanedContent := trim (replaceAll AUDIO content) in
    let* named := runLocal (tt, [])
                    (forEach invalidAudios (notFoundBody AudioNotFound)) in
    let statusMessages := named.2.2 in
    match audioInfos with
    | [] => ret (mkResult cleanedContent [] statusMessages)
    | _ :: _ =>
        let* r := runLocal (tt, statusMessages)
                    (forEach audioInfos (audioBody context oapiToken)) in
        ret (mkResult cleanedContent [] r.2.2)
    end.

(** The body of the processing loop of the video pass; the local
    [thumbnailPath] is kept beside the status lines for the [finally]
    block. *)
Definition videoBody (context : ProcessContext) (oapiToken : jstring)
    (path : jstring) : M (jstring * list StatusLine) unit :=
  let fileName := basename path in
  modify (fun st => ([], st.2)) >>
  try_catch
    (let* metadata := extractVideoMetadata path in
     if negb (flag metadata) then pushStatus (VideoNoMetadata fileName)
     else
       let* now := Date_now in
       let* thumbnailPath :=
         tmpdirJoin (lit "thumbnail_" ++ Number_toString now ++ lit ".jpg") in
       modify (fun st => (thumbnailPath, st.2)) >>
       let* thumbnail := extractVideoThumbnail path thumbnailPath in
       if negb (truthy thumbnail) then pushStatus (VideoNoThumbnail fileName)
       else
         let* videoMediaId := uploadMediaToDingTalk path (lit "video") oapiToken in
         if negb (truthy videoMediaId) then pushStatus (VideoUploadFailed fileName)
         else
           let* picMediaId :=
             uploadMediaToDingTalk thumbnailPath (lit "image") oapiToken in
           if negb (truthy picMediaId)
           then pushStatus (ThumbnailUploadFailed fileName)
           else
             let* _ := sendVideoMessage (targetId (ctx_target context))
                         videoMediaId picMediaId (size metadata) in
             pushStatus (VideoSent fileName))
    (fun err => pushStatus (VideoError fileName)) >>
  let* st := get in
  let thumbnailPath := st.1 in
  let* present :=
    (if truthy thumbnailPath then existsSync thumbnailPath else ret false) in
  if present
  then try_catch (let* _ := unlinkSync thumbnailPath in ret tt) (fun _ => ret tt)
  else ret tt.

(** [processVideoMarkers]. *)
Definition processVideoMarkers (content : jstring) (context : ProcessContext)
    : M unit ProcessResult :=
  if negb (truthyField (ctx_oapiToken context)) then
    ret (mkResult (trim (replaceAll VIDEO content)) [] [])
  else
    let oapiToken := default [] (ctx_oapiToken context) in
    let matches := matchAll VIDEO content in
    let* parsed := runLocal ([], []) (forEach matches mediaParseBody) in
    let videoInfos := parsed.2.1 in
    let invalidVideos := parsed.2.2 in
    let cleanedContent := trim (replaceAll VIDEO content) in
    let* named := runLocal (tt, [])
                    (forEach invalidVideos (notFoundBody VideoNotFound)) in
    let statusMessages := named.2.2 in
    match videoInfos with
    | [] => ret (mkResult cleanedContent [] statusMessages)
    | _ :: _ =>
        let* r := runLocal ([], statusMessages)
                    (forEach videoInfos (videoBody context oapiToken)) in
        ret (mkResult cleanedContent [] r.2.2)
    end.

(** The pass of a kind. *)
Definition processMarkers (kind : MarkerKind) (content : jstring)
    (context : ProcessContext) : M unit ProcessResult :=
  match kind with
  | FILE => processFileMarkers content context
  | VIDEO => processVideoMarkers content context
  | AUDIO => processAudioMarkers content context
  end.

(** The captures for which a pass writes a status line: in the file pass
    those that parse and carry a truthy path and file name, in the other
    two all that parse. *)
Definition reported (kind : MarkerKind) (capture : jstring) : bool :=
  match JSON_parse capture with
  | Some info =>
      match kind with
      | FILE => truthyJson (p_path info) && truthyJson (p_fileName info)
      | VIDEO | AUDIO => true
      end
  | None => false
  end.

(** The captures whose status line a pass can build: in the file pass a
    reported payload needs a file name with a string form, in the other
    two a truthy path has to be a string. *)
Definition nameable (kind : MarkerKind) (capture : jstring) : bool :=
  match JSON_parse capture with
  | Some info =>
      match kind with
      | FILE =>
          if truthyJson (p_path info) && truthyJson (p_fileName info)
          then match templateOf (default JNull (p_fileName info)) with
               | Some _ => true
               | None => false
               end
          else true
      | VIDEO | AUDIO =>
          match p_path info with
          | Some (JString _) => true
          | Some value => negb (truthyValue value)
          | None => true
          end
      end
  | None => true
  end.

End Passes.

(** A sample [JSON.parse] for the worked examples: it knows the payloads
    of the examples and throws on everything else. *)
Definition sampleParse (capture : jstring) : option MarkerPayload :=
  if bool_decide (capture = litq "{'path':'/tmp/a.ogg'}")
  then Some (mkPayload (Some (JString (lit "/tmp/a.ogg"))) None None)
  else if bool_decide (capture = litq "{'path':'/tmp/a.txt','fileName':'a.txt'}")
  then Some (mkPayload (Some (JString (lit "/tmp/a.txt")))
                       (Some (JString (lit "a.txt"))) None)
  else if bool_decide (capture = litq "{'path':5}")
  then Some (mkPayload (Some (JNumber 5)) None None)
  else if bool_decide (capture = lit "{}")
  then Some (mkPayload None None None)
  else None.

(** A sample string conversion: it knows no value. *)
Definition sampleString (value : JValue) : option jstring := None.

(** A sample [path.basename]: what follows the last slash. *)
Fixpoint sampleBasename (path : jstring) : jstring :=
  match path with
  | [] => []
  | c :: rest =>
      if existsb (N.eqb 47) rest then sampleBasename rest
      else if (c =? 47)%N then rest else path
  end.

Definition sampleContext : ProcessContext :=
  mkContext (mkConfig (lit "app") None None)
            (mkTarget (lit "acc") (lit "cid") false None)
            (Some (lit "oapi")).

(** *** Hiding the markers *)

(** [.*?CLOSE] tried at the start of [s]: the shortest run after which the
    closing tag follows; without the [s] flag the run holds no line
    terminator.  Gives what follows the closing tag. *)
Fixpoint lazyUntil (dotAll : bool) (close s : jstring) : option jstring :=
  match stripPrefix close s with
  | Some rest => Some rest
  | None =>
      match s with
      | [] => None
      | c :: s' =>
          if negb dotAll && isLineTerminator c then None
          else lazyUntil dotAll close s'
      end
  end.

(** [/\[KIND\].*?\[\/KIND\]/] tried at the start of [s]: what follows the
    match. *)
Definition matchTag (dotAll : bool) (kind : MarkerKind) (s : jstring)
    : option jstring :=
  match stripPrefix (openTag kind) s with
  | Some s1 => lazyUntil dotAll (closeTag kind) s1
  | None => None
  end.

(** [s.replace(/\[KIND\].*?\[\/KIND\]/g, '')], by the scan of a global
    regular expression. *)
Fixpoint stripScan (dotAll : bool) (kind : MarkerKind) (fuel : nat) (s : jstring)
    : jstring :=
  match fuel with
  | O => []
  | S fuel =>
      match s with
      | [] => []
      | c :: s' =>
          match matchTag dotAll kind s with
          | Some rest => stripScan dotAll kind fuel rest
          | None => c :: stripScan dotAll kind fuel s'
          end
      end
  end.

Definition stripAll (dotAll : bool) (kind : MarkerKind) (s : jstring) : jstring :=
  stripScan dotAll kind (length s) s.

(** [cleanAllMediaMarkers]: the patterns carry the [s] flag. *)
Definition cleanAllMediaMarkers (content : jstring) : jstring :=
  trim (stripAll true AUDIO (stripAll true VIDEO (stripAll true FILE content))).

(** *** The pipeline *)

(** [lines.join('\n')]. *)
Fixpoint joinLines (lines : list jstring) : jstring :=
  match lines with
  | [] => []
  | [line] => line
  | line :: rest => line ++ 10%N :: joinLines rest
  end.

Section Pipeline.
Variable JSON_parse : jstring -> option MarkerPayload.
Variable basename : jstring -> jstring.

Variable String_of : JValue -> option jstring.

(** [processImages(content, oapiToken, log)]. *)
Variable processImages : jstring -> jstring -> M unit jstring.

(** The text of a status line. *)
Variable statusText : StatusLine -> jstring.

(** [processPostPipeline]. *)
Definition processPostPipeline (content : jstring) (context : ProcessContext)
    : M unit ProcessResult :=
  let* processedContent :=
    if truthyField (ctx_oapiToken context)
    then processImages content (default [] (ctx_oapiToken context))
    else ret content in
  let* videoResult := processVideoMarkers JSON_parse basename processedContent context in
  let* audioResult :=
    processAudioMarkers JSON_parse basename (Markers.content videoResult) context in
  let* fileResult :=
    processFileMarkers JSON_parse String_of (Markers.content audioResult) context in
  let processedContent := Markers.content fileResult in
  let mediaMessages :=
    mediaMessages videoResult ++ mediaMessages audioResult ++ mediaMessages fileResult in
  let statusMessages :=
    statusMessages videoResult ++ statusMessages audioResult
      ++ statusMessages fileResult in
  ret (mkResult
         (match statusMessages with
          | [] => processedContent
          | _ :: _ =>
              let statusText := joinLines (map statusText statusMessages) in
              if truthy processedContent
              then processedContent ++ [10; 10]%N ++ statusText
              else statusText
          end)
         mediaMessages statusMessages).

End Pipeline.

End Markers.

(** ** gateway/start.ts: the stream callback *)

Module Gateway.
Import Session.

(** A delivery of the stream callback: the readings of [Date.now()] that
    [markMessageProcessed] takes, and [response.headers?.messageId]. *)
Record Delivery := mkDelivery {
  d_now : Z;
  d_now_sweep : Z;
  d_messageId : option jstring
}.

(** The head of the callback registered by [startDingTalkAccount]: whether
    the message goes on to [handleDingTalkMessage], and the map after. *)
Definition acceptDelivery (d : Delivery) (processedMessages : gmap jstring Z)
    : bool * gmap jstring Z :=
  match d_messageId d with
  | Some messageId =>
      if truthy messageId && isMessageProcessed messageId processedMessages
      then (false, processedMessages)
      else
        (true,
         if truthy messageId
         then markMessageProcessed (d_now d) (d_now_sweep d) messageId processedMessages
         else processedMessages)
  | None => (true, processedMessages)
  end.

(** The callback over the deliveries of a connection, in order. *)
Fixpoint deliveries (ds : list Delivery) (processedMessages : gmap jstring Z)
    : list bool * gmap jstring Z :=
  match ds with
  | [] => ([], processedMessages)
  | d :: ds =>
      let '(handled, processedMessages) := acceptDelivery d processedMessages in
      let '(rest, processedMessages) := deliveries ds processedMessages in
      (handled :: rest, processedMessages)
  end.

(** The answers of the callback to the deliveries that carry [id]. *)
Fixpoint handledOf (id : jstring) (ds : list Delivery) (handled : list bool)
    : list bool :=
  match ds, handled with
  | d :: ds, h :: handled =>
      if bool_decide (d_messageId d = Some id)
      then h :: handledOf id ds handled
      else handledOf id ds handled
  | _, _ => []
  end.

Definition inWindow (t0 : Z) (d : Delivery) : Prop :=
  t0 <= d_now d <= t0 + MESSAGE_DEDUP_TTL /\
  t0 <= d_now_sweep d <= t0 + MESSAGE_DEDUP_TTL.

Definition sampleDeliveries : list Delivery :=
  [mkDelivery 1000 1000 (Some (lit "m1"));
   mkDelivery 2000 2000 (Some (lit "m2"));
   mkDelivery 61000 61000 (Some (lit "m1"));
   mkDelivery 62000 62000 None;
   mkDelivery 121000 121000 (Some (lit "m1"))].

End Gateway.

(** ** api/token.ts: the token caches *)

Module Token.
Import Runtime Retry.

(** [TOKEN_REFRESH_THRESHOLD = 90 * 60 * 1000]. *)
Definition TOKEN_REFRESH_THRESHOLD : Z := 90 * 60 * 1000.

(** An entry of a token cache; nothing keeps its [expiry] from being
    [NaN]. *)
Record CachedToken := mkCachedToken {
  token : jstring;
  expiry : Num
}.

(** The module state: [tokenCache] and [oapiTokenCache], both keyed by
    the client id. *)
Record TokenCaches := mkTokenCaches {
  tokenCache : gmap jstring CachedToken;
  oapiTokenCache : gmap jstring CachedToken
}.

(** [axios.post('https://api.dingtalk.com/v1.0/oauth2/accessToken', ...)]
    with the key and secret of the configuration.  In the answer [text]
    is [response.data.accessToken] (empty when absent), [size] is the
    number [response.data.expireIn] stands for and [flag] is false when
    it stands for none (an absent field: [expireIn * 1000] is [NaN]). *)
Definition postAccessToken (config : DingTalkConfig) : Call :=
  CallExternal "POST https://api.dingtalk.com/v1.0/oauth2/accessToken"
               [clientId config].

(** [axios.get('https://oapi.dingtalk.com/gettoken', ...)].  In the answer
    [flag] is [response.data.errcode === 0], [text] is
    [response.data.access_token] (empty when absent) and [size] is
    [response.data.expires_in] (0 when absent). *)
Definition getOapiToken (config : DingTalkConfig) : Call :=
  CallExternal "GET https://oapi.dingtalk.com/gettoken" [clientId config].

Definition set_tokenCache (f : gmap jstring CachedToken -> gmap jstring CachedToken)
    (caches : TokenCaches) : TokenCaches :=
  mkTokenCaches (f (tokenCache caches)) (oapiTokenCache caches).

Definition set_oapiTokenCache (f : gmap jstring CachedToken -> gmap jstring CachedToken)
    (caches : TokenCaches) : TokenCaches :=
  mkTokenCaches (tokenCache caches) (f (oapiTokenCache caches)).

(** [now + expireIn * 1000]. *)
Definition expiryOf (now : Z) (a : Answer) : Num :=
  if flag a then Finite (now + size a * 1000) else NaN.

(** An answer that grants a token: the request went through and carries
    a non-empty [accessToken]. *)
Definition grants (a : Answer) : bool :=
  bool_decide (failure a = None) && truthy (text a).

(** The function [getAccessToken] retries: one request, whose token is
    cached with the expiry counted from the reading [now] taken on
    entry. *)
Definition requestAccessToken (config : DingTalkConfig) (now : Z)
    : M TokenCaches jstring :=
  let* a := perform (postAccessToken config) in
  match failure a with
  | Some e => throw e
  | None =>
      let accessToken := text a in
      if negb (truthy accessToken)
      then throw (PlainError (lit "Failed to get access token: empty response"))
      else
        modify (set_tokenCache
                  (insert (clientId config)
                          (mkCachedToken accessToken (expiryOf now a)))) >>
        ret accessToken
  end.

(** [getAccessToken]. *)
Definition getAccessToken (config : DingTalkConfig) : M TokenCaches jstring :=
  let cacheKey := clientId config in
  let* caches := get in
  let cached := tokenCache caches !! cacheKey in
  let* now := Date_now in
  let refresh :=
    retryWithBackoff (requestAccessToken config now)
                     (mkRetryOptions (Some 3) None None) in
  match cached with
  | Some cached =>
      if Num_gt (expiry cached) (now + 60000) then ret (token cached) else refresh
  | None => refresh
  end.

(** [getOapiAccessToken], the [try] block entered on a miss: one
    request, no retry; every failure gives [null]. *)
Definition fetchOapiAccessToken (config : DingTalkConfig) (now : Z)
    : M TokenCaches (option jstring) :=
  try_catch
    (let* a := perform (getOapiToken config) in
     match failure a with
     | Some e => throw e
     | None =>
         if negb (flag a) || negb (truthy (text a)) then ret None
         else
           let token := text a in
           let expiresIn := if size a =? 0 then 7200 else size a in
           modify (set_oapiTokenCache
                     (insert (clientId config)
                             (mkCachedToken token (Finite (now + expiresIn * 1000))))) >>
           ret (Some token)
     end)
    (fun _ => ret None).

(** [getOapiAccessToken]: the token, or [null]. *)
Definition getOapiAccessToken (config : DingTalkConfig)
    : M TokenCaches (option jstring) :=
  let cacheKey := clientId config in
  let* caches := get in
  let cached := oapiTokenCache caches !! cacheKey in
  let* now := Date_now in
  match cached with
  | Some cached =>
      if Num_gt (expiry cached) (now + 60000) then ret (Some (token cached))
      else fetchOapiAccessToken config now
  | None => fetchOapiAccessToken config now
  end.

(** [shouldRefreshToken]; [now] is the reading of [Date.now()], taken
    only when there is an entry. *)
Definition shouldRefreshToken (now : Z) (config : DingTalkConfig)
    (caches : TokenCaches) : bool :=
  match tokenCache caches !! clientId config with
  | None => true
  | Some cached => Num_lt (Num_add (expiry cached) (- TOKEN_REFRESH_THRESHOLD)) now
  end.

(** [clearTokenCache]. *)
Definition clearTokenCache (clientId : option jstring) (caches : TokenCaches)
    : TokenCaches :=
  match clientId with
  | Some clientId =>
      if truthy clientId
      then mkTokenCaches (delete clientId (tokenCache caches))
                         (delete clientId (oapiTokenCache caches))
      else mkTokenCaches ∅ ∅
  | None => mkTokenCaches ∅ ∅
  end.

(** [getTokenExpiry]. *)
Definition getTokenExpiry (config : DingTalkConfig) (caches : TokenCaches)
    : option Num :=
  expiry <$> tokenCache caches !! clientId config.

(** Observations on recorded calls. *)
Definition is_tokenPost (ev : Call * Answer) : bool :=
  match ev.1 with
  | CallExternal name _ =>
      bool_decide (name = "POST https://api.dingtalk.com/v1.0/oauth2/accessToken"%string)
  | _ => false
  end.

Definition is_oapiGet (ev : Call * Answer) : bool :=
  match ev.1 with
  | CallExternal name _ =>
      bool_decide (name = "GET https://oapi.dingtalk.com/gettoken"%string)
  | _ => false
  end.

(** A request to the network of any kind: everything but the clock, the
    random numbers and the sleeps. *)
Definition is_network (ev : Call * Answer) : bool :=
  match ev.1 with
  | CallDateNow | CallMathRandom | CallSleep _ => false
  | _ => true
  end.

(** Sample data for the worked examples. *)
Definition sampleConfig : DingTalkConfig := mkConfig (lit "app") None None.

Definition sampleCaches : TokenCaches :=
  mkTokenCaches {[ lit "app" := mkCachedToken (lit "tok") (Finite 7200000) ]} ∅.

End Token.

(** ** The helpers: allow list, targets, titles, masking *)

Module Helpers.
Import Js.

(** One code unit of the text against one code unit of a pattern under
    the [i] flag, the pattern given in lower case: a letter of the pattern
    matches itself and its capital, any other sign only itself.  (Without
    the [u] flag no code unit outside ASCII is folded onto an ASCII
    letter.) *)
Definition matchesIgnoreCase (p c : N) : bool :=
  ((c =? p) || ((97 <=? p) && (p <=? 122) && (c =? p - 32)))%N.

(** The rest of [s] after a case-insensitive match of [pattern] at its
    start. *)
Fixpoint stripPrefixIgnoreCase (pattern s : jstring) : option jstring :=
  match pattern, s with
  | [], _ => Some s
  | p :: pattern, c :: s =>
      if matchesIgnoreCase p c then stripPrefixIgnoreCase pattern s else None
  | _ :: _, [] => None
  end.

(** [value.replace(/^(dingtalk|dd|ding):/i, '')]: the alternatives are
    tried in the order written, each followed by the colon. *)
Definition stripChannelPrefix (value : jstring) : jstring :=
  match stripPrefixIgnoreCase (lit "dingtalk:") value with
  | Some rest => rest
  | None =>
      match stripPrefixIgnoreCase (lit "dd:") value with
      | Some rest => rest
      | None =>
          match stripPrefixIgnoreCase (lit "ding:") value with
          | Some rest => rest
          | None => value
          end
      end
  end.

(** The texts the pattern [/^(dingtalk|dd|ding):/i] matches entirely. *)
Definition channelPrefix (p : jstring) : Prop :=
  stripPrefixIgnoreCase (lit "dingtalk:") p = Some [] \/
  stripPrefixIgnoreCase (lit "dd:") p = Some [] \/
  stripPrefixIgnoreCase (lit "ding:") p = Some [].

(** [NormalizedAllowFrom]. *)
Record NormalizedAllowFrom := mkAllow {
  entries : list jstring;
  entriesLower : list jstring;
  hasWildcard : bool;
  hasEntries : bool
}.

(** [array.includes(value)] on strings. *)
Definition includesEntry (value : jstring) (array : list jstring) : bool :=
  existsb (fun v => bool_decide (v = value)) array.

(** [parseTarget]'s result type. *)
Inductive TargetType := UserTarget | GroupTarget.

(** [parseTarget]. *)
Definition parseTarget (to : jstring) : TargetType * jstring :=
  let trimmed := trim to in
  let normalized := stripChannelPrefix trimmed in
  if startsWith (lit "user:") normalized then (UserTarget, drop 5 normalized)
  else if startsWith (lit "group:") normalized then (GroupTarget, drop 6 normalized)
  else if startsWith (lit "cid") normalized then (GroupTarget, normalized)
  else (UserTarget, normalized).

(** The class [[#*\s\->]] of [extractTitle]. *)
Definition isTitleMark (c : N) : bool :=
  ((c =? 35) || (c =? 42) || isSpace c || (c =? 45) || (c =? 62))%N.

(** [.replace(/^[#*\s\->]+/, '')]. *)
Fixpoint dropTitleMarks (s : jstring) : jstring :=
  match s with
  | c :: s' => if isTitleMark c then dropTitleMarks s' else s
  | [] => []
  end.

(** [extractTitle]. *)
Definition extractTitle (text defaultTitle : jstring) : jstring :=
  or_else (take 20 (dropTitleMarks (default [] (head (splitLines text)))))
          defaultTitle.

Definition sensitiveKeys : list jstring :=
  [lit "clientSecret"; lit "appSecret"; lit "token"; lit "password"; lit "secret"].

(** [typeof value === 'string' ? `${value.slice(0, 4)}****` : '****']. *)
Definition maskValue (value : JValue) : JValue :=
  match value with
  | JString s => JString (take 4 s ++ lit "****")
  | _ => JString (lit "****")
  end.

Section Case.

(** [String.prototype.toLowerCase]. *)
Variable toLowerCase : jstring -> jstring.

(** [normalizeAllowFrom]. *)
Definition normalizeAllowFrom (list : option (list jstring)) : NormalizedAllowFrom :=
  let entries := List.filter truthy (map trim (default [] list)) in
  let hasWildcard := includesEntry (lit "*") entries in
  let normalized :=
    map stripChannelPrefix
        (List.filter (fun value => negb (bool_decide (value = lit "*"))) entries) in
  let normalizedLower := map toLowerCase normalized in
  mkAllow normalized normalizedLower hasWildcard (0 <? length entries)%nat.

(** [isSenderAllowed]. *)
Definition isSenderAllowed (allow : NormalizedAllowFrom) (senderId : option jstring)
    : bool :=
  if negb (hasEntries allow) then true
  else if hasWildcard allow then true
  else
    match senderId with
    | Some senderId =>
        truthy senderId && includesEntry (toLowerCase senderId) (entriesLower allow)
    | None => false
    end.

(** [sensitiveKeys.some((k) => key.toLowerCase().includes(k.toLowerCase()))]. *)
Definition isSensitiveKey (key : jstring) : bool :=
  existsb (fun k => includes (toLowerCase k) (toLowerCase key)) sensitiveKeys.

(** [maskSensitiveData].  The result is a fresh plain object in either
    case: of an array the entries are its indices, and an entry written
    under the key [__proto__] goes to the prototype setter and is no own
    entry of the result. *)
Fixpoint maskSensitiveData (data : JValue) : JValue :=
  let maskEntry (key : jstring) (value : JValue) : JValue :=
    if isSensitiveKey key then maskValue value
    else
      match value with
      | JArray _ | JObject _ => maskSensitiveData value
      | _ => value
      end in
  match data with
  | JObject members =>
      JObject
        ((fix each (members : list (jstring * JValue)) : list (jstring * JValue) :=
            match members with
            | [] => []
            | (key, value) :: rest =>
                if bool_decide (key = lit "__proto__") then each rest
                else (key, maskEntry key value) :: each rest
            end) members)
  | JArray items =>
      JObject
        ((fix each (i : Z) (items : list JValue) : list (jstring * JValue) :=
            match items with
            | [] => []
            | value :: rest =>
                (Number_toString i, maskEntry (Number_toString i) value)
                  :: each (i + 1) rest
            end) 0 items)
  | _ => data
  end.

(** The entry the loop writes under a key, and the loop over the entries
    of an object and of an array. *)
Definition maskEntry (key : jstring) (value : JValue) : JValue :=
  if isSensitiveKey key then maskValue value
  else
    match value with
    | JArray _ | JObject _ => maskSensitiveData value
    | _ => value
    end.

Fixpoint maskMembers (members : list (jstring * JValue)) : list (jstring * JValue) :=
  match members with
  | [] => []
  | (key, value) :: rest =>
      if bool_decide (key = lit "__proto__") then maskMembers rest
      else (key, maskEntry key value) :: maskMembers rest
  end.

Fixpoint maskItems (i : Z) (items : list JValue) : list (jstring * JValue) :=
  match items with
  | [] => []
  | value :: rest =>
      (Number_toString i, maskEntry (Number_toString i) value) :: maskItems (i + 1) rest
  end.

(** An object is masked when, at any depth, what it holds under a
    sensitive key is a string of at most four code units followed by four
    stars. *)
Fixpoint masked (v : JValue) : Prop :=
  match v with
  | JObject members =>
      (fix each (members : list (jstring * JValue)) : Prop :=
         match members with
         | [] => True
         | (key, value) :: rest =>
             (if isSensitiveKey key
              then exists s, value = JString (s ++ lit "****") /\ (length s <= 4)%nat
              else masked value) /\ each rest
         end) members
  | JArray items =>
      (fix each (items : list JValue) : Prop :=
         match items with
         | [] => True
         | value :: rest => masked value /\ each rest
         end) items
  | _ => True
  end.

(** What [masked] asks of one entry. *)
Definition maskedEntry (m : jstring * JValue) : Prop :=
  if isSensitiveKey m.1
  then exists s, m.2 = JString (s ++ lit "****") /\ (length s <= 4)%nat
  else masked m.2.

End Case.

(** A sample [toLowerCase] for the worked examples: it folds the ASCII
    capitals. *)
Definition sampleLower (s : jstring) : jstring :=
  map (fun c => if ((65 <=? c) && (c <=? 90))%N then (c + 32)%N else c) s.

End Helpers.

(** ** The message handler: the direct-message policy *)

Module Handler.
Import Js Runtime Helpers.

(** The fields of [DingTalkConfig] the policy check reads. *)
Record DmSettings := mkDmSettings {
  dmPolicy : option jstring;
  allowFrom : option (list jstring)
}.

(** The notice a rejected sender gets. *)
Definition rejectionNotice (senderId : jstring) : jstring :=
  [9940; 32; 35775; 38382; 21463; 38480; 10; 10; 24744; 30340; 29992; 25143;
   73; 68; 65306; 96]%N
  ++ senderId ++
  [96; 10; 10; 35831; 32852; 31995; 31649; 29702; 21592; 23558; 27492; 73; 68;
   28155; 21152; 21040; 20801; 35768; 21015; 34920; 20013; 12290]%N.

(** [sendMessage(config, senderId, text, { sessionWebhook, log })]. *)
Definition sendMessage (senderId text sessionWebhook : jstring) : Call :=
  CallExternal "sendMessage" [senderId; text; sessionWebhook].

Section Case.
Variable toLowerCase : jstring -> jstring.

(** [checkDmPolicy]: the notice is started and its outcome ignored
    ([.catch(() => {})]). *)
Definition checkDmPolicy (config : DmSettings) (senderId sessionWebhook : jstring)
    : M unit bool :=
  let dmPolicy := or_else (default [] (dmPolicy config)) (lit "open") in
  if bool_decide (dmPolicy = lit "open") then ret true
  else if bool_decide (dmPolicy = lit "allowlist") then
    let normalized := normalizeAllowFrom toLowerCase (allowFrom config) in
    if negb (isSenderAllowed toLowerCase normalized (Some senderId)) then
      let* _ := perform (sendMessage senderId (rejectionNotice senderId)
                                     sessionWebhook) in
      ret false
    else ret true
  else ret true.

End Case.

Import Markers.

(** [cleanMediaMarkers]: the patterns carry no [s] flag. *)
Definition cleanMediaMarkers (content : jstring) : jstring :=
  trim (stripAll false AUDIO (stripAll false VIDEO (stripAll false FILE content))).

End Handler.

(* ===================================================================== *)
(** * Part II: the properties                                            *)
(* ===================================================================== *)

(** ** Strings *)

Module JsFacts.

Lemma truthy_true (s : jstring) : truthy s = true <-> s <> [].
Proof. destruct s; simpl; split; congruence. Qed.

Lemma truthy_false (s : jstring) : truthy s = false <-> s = [].
Proof. destruct s; simpl; split; congruence. Qed.

Example splitLines_two_lines :
  splitLines (lit "a" ++ [10%N] ++ lit "b") = [lit "a"; lit "b"].
Proof. reflexivity. Qed.

Example splitLines_complete_line :
  splitLines (lit "data: x" ++ [10%N]) = [lit "data: x"; []].
Proof. reflexivity. Qed.

Example trim_both_ends :
  trim ([32%N; 9%N] ++ lit "a b" ++ [32%N; 10%N; 12288%N]) = lit "a b".
Proof. reflexivity. Qed.

Example Number_toString_epoch :
  Number_toString 1730000000123 = lit "1730000000123".
Proof. reflexivity. Qed.

End JsFacts.

Import JsFacts.

(** ** Sessions and de-duplication *)

Module SessionFacts.
Import Session.

Lemma isMessageProcessed_lookup (messageId : jstring) (pm : gmap jstring Z) :
  messageId <> [] ->
  isMessageProcessed messageId pm = true <-> is_Some (pm !! messageId).
Proof.
  intros Hne. unfold isMessageProcessed.
  apply truthy_true in Hne. rewrite Hne. simpl.
  apply bool_decide_eq_true.
Qed.

Lemma cleanup_lookup_Some (now : Z) (pm : gmap jstring Z) (k : jstring) (ts : Z) :
  cleanupProcessedMessages now pm !! k = Some ts <->
  pm !! k = Some ts /\ now - ts <= MESSAGE_DEDUP_TTL.
Proof.
  unfold cleanupProcessedMessages. rewrite map_lookup_filter_Some. simpl.
  split; intros [? ?]; split; auto; lia.
Qed.

Lemma cleanup_lookup_None (now : Z) (pm : gmap jstring Z) (k : jstring) :
  pm !! k = None -> cleanupProcessedMessages now pm !! k = None.
Proof.
  intros H. destruct (cleanupProcessedMessages now pm !! k) eqn:E; [|done].
  apply cleanup_lookup_Some in E. destruct E; congruence.
Qed.

(** Marking another id never makes [k] appear. *)
Lemma mark_other_None (now now' : Z) (id k : jstring) (pm : gmap jstring Z) :
  id <> k -> pm !! k = None -> markMessageProcessed now now' id pm !! k = None.
Proof.
  intros Hne Hk. unfold markMessageProcessed.
  destruct (negb (truthy id)); [done|].
  assert (<[id:=now]> pm !! k = None) by (by rewrite lookup_insert_ne).
  destruct (100 <=? _); [by apply cleanup_lookup_None | done].
Qed.

(** A recorded id whose timestamp is not older than every later reading
    by more than the window survives one operation. *)
Lemma step_keeps (t0 : Z) (k : jstring) (op : dedup_op) (pm : gmap jstring Z) :
  k <> [] ->
  (forall t, In t (op_readings op) -> t0 <= t <= t0 + MESSAGE_DEDUP_TTL) ->
  (exists ts, pm !! k = Some ts /\ t0 <= ts) ->
  exists ts, dedup_step pm op !! k = Some ts /\ t0 <= ts.
Proof.
  intros Hk Hr (ts & Hts & Hle). destruct op as [now now' id | now]; simpl in *.
  - pose proof (Hr now (or_introl eq_refl)) as Hnow.
    pose proof (Hr now' (or_intror (or_introl eq_refl))) as Hnow'.
    unfold markMessageProcessed.
    destruct (negb (truthy id)); [eauto|].
    assert (exists ts', <[id:=now]> pm !! k = Some ts' /\ t0 <= ts') as (ts' & H1 & H2).
    { destruct (decide (id = k)) as [->|Hne].
      - exists now. rewrite lookup_insert_eq. split; [done | lia].
      - exists ts. by rewrite lookup_insert_ne. }
    destruct (100 <=? _); [|eauto].
    exists ts'. split; [|done]. apply cleanup_lookup_Some. split; [done | lia].
  - pose proof (Hr now (or_introl eq_refl)) as Hnow.
    exists ts. split; [|done]. apply cleanup_lookup_Some. split; [done | lia].
Qed.

Lemma run_keeps (t0 : Z) (k : jstring) (ops : list dedup_op) :
  k <> [] ->
  (forall op t, In op ops -> In t (op_readings op) ->
                t0 <= t <= t0 + MESSAGE_DEDUP_TTL) ->
  forall pm : gmap jstring Z,
  (exists ts, pm !! k = Some ts /\ t0 <= ts) ->
  exists ts, dedup_run ops pm !! k = Some ts /\ t0 <= ts.
Proof.
  intros Hk. induction ops as [|op ops IH]; intros Hr pm Hpm; simpl; [done|].
  apply IH.
  - intros op' t Hin. apply Hr. by right.
  - apply step_keeps; [done| |done]. intros t Ht. apply (Hr op t); [by left | done].
Qed.

Lemma run_absent (k : jstring) (ops : list dedup_op) :
  (forall op, In op ops -> ~ op_marks k op) ->
  forall pm : gmap jstring Z, pm !! k = None -> dedup_run ops pm !! k = None.
Proof.
  induction ops as [|op ops IH]; intros Hm pm Hpm; simpl; [done|].
  apply IH; [intros op' Hin; apply Hm; by right|].
  specialize (Hm op (or_introl eq_refl)).
  destruct op as [now now' id | now]; simpl in *.
  - apply mark_other_None; [congruence | done].
  - by apply cleanup_lookup_None.
Qed.

Lemma mark_records (now now' : Z) (k : jstring) (pm : gmap jstring Z) :
  k <> [] -> now <= now' <= now + MESSAGE_DEDUP_TTL ->
  markMessageProcessed now now' k pm !! k = Some now.
Proof.
  intros Hk Hn. unfold markMessageProcessed.
  apply truthy_true in Hk. rewrite Hk. simpl.
  destruct (100 <=? _).
  - apply cleanup_lookup_Some. rewrite lookup_insert_eq. split; [done | lia].
  - by rewrite lookup_insert_eq.
Qed.

Lemma cleanup_purges (now t : Z) (k : jstring) (pm : gmap jstring Z) :
  pm !! k = Some now -> t - now > MESSAGE_DEDUP_TTL ->
  cleanupProcessedMessages t pm !! k = None.
Proof.
  intros Hk Ht. destruct (cleanupProcessedMessages t pm !! k) eqn:E; [|done].
  apply cleanup_lookup_Some in E. destruct E as [E1 E2].
  rewrite Hk in E1. injection E1 as <-. lia.
Qed.

(** C6 (as amended).  For a non-empty message id: [isMessageProcessed] is
    false as long as no [markMessageProcessed] of that id has run; it is
    true right after [markMessageProcessed], and stays true through every
    later marking and sweep whose clock readings lie within the 5-minute
    window that starts at the marking; a sweep at a reading past the
    window purges the entry. *)
Theorem dedup_window (id : jstring) (Hid : id <> []) :
  (forall ops, (forall op, In op ops -> ~ op_marks id op) ->
     isMessageProcessed id (dedup_run ops ∅) = false) /\
  (forall pm now now_sweep ops,
     now <= now_sweep <= now + MESSAGE_DEDUP_TTL ->
     (forall op t, In op ops -> In t (op_readings op) ->
        now <= t <= now + MESSAGE_DEDUP_TTL) ->
     isMessageProcessed id
       (dedup_run ops (markMessageProcessed now now_sweep id pm)) = true) /\
  (forall pm now now_sweep t,
     now <= now_sweep <= now + MESSAGE_DEDUP_TTL ->
     t - now > MESSAGE_DEDUP_TTL ->
     isMessageProcessed id
       (cleanupProcessedMessages t (markMessageProcessed now now_sweep id pm)) = false).
Proof.
  split; [|split].
  - intros ops Hops.
    destruct (isMessageProcessed id (dedup_run ops ∅)) eqn:E; [|done].
    apply isMessageProcessed_lookup in E; [|done].
    rewrite (run_absent id ops Hops ∅) in E by apply lookup_empty.
    by destruct E.
  - intros pm now now' ops Hn Hops.
    apply isMessageProcessed_lookup; [done|].
    destruct (run_keeps now id ops Hid Hops (markMessageProcessed now now' id pm))
      as (ts & Hts & _).
    + exists now. split; [by apply mark_records | lia].
    + by exists ts.
  - intros pm now now' t Hn Ht.
    destruct (isMessageProcessed id _) eqn:E; [|done].
    apply isMessageProcessed_lookup in E; [|done].
    rewrite (cleanup_purges now t) in E; [by destruct E | by apply mark_records | done].
Qed.

Lemma dedup_window_witness :
  isMessageProcessed (lit "msg-1")
    (dedup_run [OpMark 5 5 (lit "msg-2"); OpCleanup 9] ∅) = false /\
  isMessageProcessed (lit "msg-1")
    (dedup_run [OpMark 1200 1200 (lit "msg-2"); OpCleanup 250000]
       (markMessageProcessed 1000 1000 (lit "msg-1") ∅)) = true /\
  isMessageProcessed (lit "msg-1")
    (cleanupProcessedMessages 400000
       (markMessageProcessed 1000 1000 (lit "msg-1") ∅)) = false.
Proof.
  assert (Hid : lit "msg-1" <> []) by discriminate.
  destruct (dedup_window (lit "msg-1") Hid) as (H1 & H2 & H3).
  split; [|split].
  - apply H1. simpl. intros op [<-|[<-|[]]]; simpl; [discriminate | tauto].
  - apply H2.
    + unfold MESSAGE_DEDUP_TTL. lia.
    + unfold MESSAGE_DEDUP_TTL. simpl.
      intros op t [<-|[<-|[]]]; simpl; intros [<-|[<-|[]]] || intros [<-|[]]; lia.
  - apply H3; unfold MESSAGE_DEDUP_TTL; lia.
Defined.

(** C6 as stated fails for the empty id: both functions return at their
    guard, so the id is not reported right after it was marked. *)
Lemma dedup_empty_id_counterexample :
  isMessageProcessed [] (markMessageProcessed 0 0 [] ∅) = false.
Proof. reflexivity. Qed.

Lemma getSessionKey_others (now : Z) (sender : jstring) (force : bool)
    (timeout : Z) (m : gmap jstring UserSession) (other : jstring) :
  other <> sender ->
  (getSessionKey now sender force timeout m).2 !! other = m !! other.
Proof.
  intros Hne. unfold getSessionKey.
  destruct force; [|destruct (m !! sender) as [s|]; [destruct (_ >? _)|]];
    simpl; by rewrite lookup_insert_ne.
Qed.

(** C5 (as amended).  A forced call, or a call after more than
    [sessionTimeout] without activity, mints [dingtalk:sender:epoch],
    stores it with the current reading and reports a new session, forced
    or not as requested.  The first call for a sender stores the key
    [dingtalk:sender], without an epoch, and reports no new session.
    Otherwise the stored key is returned unchanged and the timestamp is
    refreshed.  No other sender's record changes. *)
Theorem getSessionKey_cases (now : Z) (sender : jstring) (force : bool)
    (timeout : Z) (m : gmap jstring UserSession) :
  (forall other, other <> sender ->
     (getSessionKey now sender force timeout m).2 !! other = m !! other) /\
  (force = true \/
   (exists s, m !! sender = Some s /\ now - lastActivity s > timeout) ->
     getSessionKey now sender force timeout m =
       (mkSessionContext (mintedKey sender now) true force,
        <[sender := mkUserSession now (mintedKey sender now)]> m)) /\
  (force = false -> m !! sender = None ->
     getSessionKey now sender force timeout m =
       (mkSessionContext (firstKey sender) false false,
        <[sender := mkUserSession now (firstKey sender)]> m)) /\
  (force = false ->
   forall s, m !! sender = Some s -> now - lastActivity s <= timeout ->
     getSessionKey now sender force timeout m =
       (mkSessionContext (sessionId s) false false,
        <[sender := mkUserSession now (sessionId s)]> m)).
Proof.
  split; [|split; [|split]].
  - intros other Hne. by apply getSessionKey_others.
  - intros [-> | (s & Hs & Hgt)]; unfold getSessionKey; [done|].
    destruct force; [done|]. rewrite Hs.
    destruct (Z.gtb_spec (now - lastActivity s) timeout); [done | lia].
  - intros -> Hnone. unfold getSessionKey. by rewrite Hnone.
  - intros -> s Hs Hle. unfold getSessionKey. rewrite Hs.
    destruct (Z.gtb_spec (now - lastActivity s) timeout); [lia | done].
Qed.

Lemma getSessionKey_cases_witness :
  sessionKey (getSessionKey 5000 (lit "u1") false 3000 sampleSessions).1
    = mintedKey (lit "u1") 5000 /\
  sessionKey (getSessionKey 5000 (lit "u2") false 3000 sampleSessions).1
    = firstKey (lit "u2") /\
  sessionKey (getSessionKey 2000 (lit "u1") false 3000 sampleSessions).1
    = firstKey (lit "u1").
Proof.
  split; [|split].
  - destruct (getSessionKey_cases 5000 (lit "u1") false 3000 sampleSessions)
      as (_ & H & _).
    rewrite H; [reflexivity|].
    right. exists (mkUserSession 1000 (firstKey (lit "u1"))). split.
    + apply lookup_insert_eq.
    + simpl. lia.
  - destruct (getSessionKey_cases 5000 (lit "u2") false 3000 sampleSessions)
      as (_ & _ & H & _).
    rewrite H; [reflexivity | reflexivity |].
    unfold sampleSessions. rewrite lookup_insert_ne; [apply lookup_empty | discriminate].
  - destruct (getSessionKey_cases 2000 (lit "u1") false 3000 sampleSessions)
      as (_ & _ & _ & H).
    rewrite (H eq_refl (mkUserSession 1000 (firstKey (lit "u1")))); [reflexivity | |].
    + apply lookup_insert_eq.
    + simpl. lia.
Defined.

(** C5 as stated fails when no record exists: the key of a first session
    carries no epoch and differs from the minted form. *)
Lemma getSessionKey_first_session_counterexample :
  (∅ : gmap jstring UserSession) !! lit "u1" = None /\
  sessionKey (getSessionKey 42 (lit "u1") false 1000 ∅).1 = lit "dingtalk:u1" /\
  sessionKey (getSessionKey 42 (lit "u1") false 1000 ∅).1
    <> mintedKey (lit "u1") 42.
Proof.
  split; [apply lookup_empty|]. split; [reflexivity|].
  vm_compute. discriminate.
Qed.

End SessionFacts.

(** ** The world *)

Module RuntimeFacts.
Import Runtime.

Lemma grow_nil (w : World) : grow w [] = w.
Proof. destruct w. unfold grow. simpl. by rewrite app_nil_r. Qed.

Lemma grow_grow (w : World) (l1 l2 : list (Call * Answer)) :
  grow (grow w l1) l2 = grow w (l1 ++ l2).
Proof. unfold grow. simpl. by rewrite app_assoc. Qed.

Lemma new_calls_grow (w : World) (l : list (Call * Answer)) :
  new_calls w (grow w l) = l.
Proof. unfold new_calls, grow. simpl. by rewrite drop_app_length. Qed.

Lemma oracle_grow (w : World) (l : list (Call * Answer)) :
  oracle (grow w l) = oracle w.
Proof. reflexivity. Qed.

Lemma perform_eq {X} (c : Call) (x : X) (w : World) :
  perform c (x, w) = (Ok (answer w), (x, grow w [(c, answer w)])).
Proof. reflexivity. Qed.

End RuntimeFacts.

(** ** Retry with back-off *)

Module RetryFacts.
Import Runtime Retry RuntimeFacts.

Ltac exec :=
  repeat (cbv beta iota zeta delta
            [bind try_catch ret throw get modify perform request axios
             getAccessToken Date_now randomUUID Math_random sleep fst snd]).








End RetryFacts.

(** ** The card engine *)

Module CardFacts.
Import Runtime Retry Card RuntimeFacts.

(** Symbolic execution of a computation on a symbolic world. *)
Ltac exec :=
  repeat (cbv beta iota zeta delta
            [bind try_catch ret throw get modify perform request axios
             getAccessToken Date_now randomUUID Math_random sleep fst snd]).

Ltac close_run :=
  rewrite ?grow_grow in *; cbn [app] in *;
  do 3 eexists; split; [reflexivity|].

Lemma refreshIfStale_run (card : AICardInstance) (w : World) :
  exists card' tr,
    refreshIfStale (card, w) = (Ok tt, (card', grow w tr)) /\
    refresh_run card card' tr.
Proof.
  unfold refreshIfStale. exec.
  destruct (_ >? _).
  - exec. destruct (failure (answer (grow w _))) eqn:E.
    + rewrite grow_grow. do 2 eexists. split; [reflexivity|].
      eapply refresh_failed. exact E.
    + rewrite grow_grow. do 2 eexists. split; [reflexivity|].
      apply refresh_done. exact E.
  - do 2 eexists. split; [reflexivity|]. apply refresh_fresh.
Qed.

Lemma ensureInputing_run (card : AICardInstance) (w : World) :
  exists r card' tr,
    ensureInputing (card, w) = (r, (card', grow w tr)) /\
    inputing_run card r card' tr.
Proof.
  unfold ensureInputing. exec.
  destruct (inputingStarted card) eqn:Es; cbn [negb].
  - exists (Ok tt), card, []. rewrite grow_nil. split; [reflexivity|].
    by apply inputing_skipped.
  - exec. destruct (failure (answer w)) eqn:E.
    + do 3 eexists. split; [reflexivity|]. by apply inputing_rejected.
    + do 3 eexists. split; [reflexivity|]. by apply inputing_switched.
Qed.

Lemma markUpdated_eq (finished : bool) (card : AICardInstance) (w : World) :
  markUpdated finished (card, w) =
    (Ok tt, (afterUpdate finished (time (answer w)) card,
             grow w [(CallDateNow, answer w)])).
Proof.
  unfold markUpdated, afterUpdate. exec.
  destruct finished; [reflexivity|].
  destruct (bool_decide _); reflexivity.
Qed.

Lemma pushContent_run (card : AICardInstance) (w : World)
    (content : jstring) (finished : bool) :
  exists r card' tr,
    pushContent content finished (card, w) = (r, (card', grow w tr)) /\
    push_run card content finished r card' tr.
Proof.
  unfold pushContent. exec.
  destruct (failure (answer (grow w _))) eqn:E1.
  - destruct (is401 e) eqn:E401.
    + exec. destruct (failure (answer (grow (grow w _) _))) eqn:E2.
      * close_run. eapply push_refresh_failed; eauto.
      * destruct (failure (answer (grow (grow (grow w _) _) _))) eqn:E3.
        -- close_run. eapply push_retry_failed; eauto.
        -- rewrite markUpdated_eq. close_run.
           eapply push_retry_accepted; eauto.
    + close_run. eapply push_rejected; eauto.
  - rewrite markUpdated_eq. close_run. by apply push_accepted.
Qed.

Lemma streamAICard_run (card : AICardInstance) (w : World)
    (content : jstring) (finished : bool) :
  exists r card' tr,
    streamAICard content finished (card, w) = (r, (card', grow w tr)) /\
    stream_run card content finished r card' tr.
Proof.
  unfold streamAICard.
  destruct (refreshIfStale_run card w) as (card1 & tr1 & E1 & R1).
  destruct (ensureInputing_run card1 (grow w tr1)) as (r2 & card2 & tr2 & E2 & R2).
  unfold bind at 1. rewrite E1. unfold bind at 1. rewrite E2.
  destruct R2 as [Hs | a Hs Ha | a e Hs Ha].
  - destruct (pushContent_run card1 (grow (grow w tr1) []) content finished)
      as (r3 & card3 & tr3 & E3 & R3).
    rewrite E3. repeat rewrite grow_grow.
    do 3 eexists. split; [reflexivity|].
    eapply stream_pushed; eauto. by apply inputing_skipped.
  - match goal with |- context [pushContent _ _ (?c, ?w')] =>
      destruct (pushContent_run c w' content finished)
        as (r3 & card3 & tr3 & E3 & R3) end.
    rewrite E3. repeat rewrite grow_grow.
    do 3 eexists. split; [reflexivity|].
    eapply stream_pushed; eauto. by apply inputing_switched.
  - rewrite grow_grow. do 3 eexists. split; [reflexivity|].
    eapply stream_stopped; eauto. by apply inputing_rejected.
Qed.

(** *** States *)

Lemma terminal_cases (s : jstring) :
  isCardInTerminalState s = true <-> s = FINISHED \/ s = FAILED.
Proof.
  unfold isCardInTerminalState. rewrite orb_true_iff, !bool_decide_eq_true. tauto.
Qed.

Lemma terminal_not_processing (s : jstring) :
  isCardInTerminalState s = true -> s <> PROCESSING.
Proof. intros [-> | ->]%terminal_cases; discriminate. Qed.

Lemma afterUpdate_state (finished : bool) (t : Z) (card : AICardInstance) :
  state (afterUpdate finished t card) =
    if finished then FINISHED
    else if bool_decide (state card = PROCESSING) then INPUTING
    else state card.
Proof.
  unfold afterUpdate. cbn [state set_lastUpdated].
  destruct finished; [reflexivity|]. by destruct (bool_decide _).
Qed.

Lemma afterUpdate_terminal (finished : bool) (t : Z) (card : AICardInstance) :
  isCardInTerminalState (state card) = true ->
  state (afterUpdate finished t card) = (if finished then FINISHED else state card).
Proof.
  intros Ht. rewrite afterUpdate_state. destruct finished; [reflexivity|].
  rewrite bool_decide_eq_false_2; [reflexivity|].
  by apply terminal_not_processing.
Qed.

Lemma refresh_run_fields (card card' : AICardInstance) (tr : list (Call * Answer)) :
  refresh_run card card' tr ->
  state card' = state card /\ lastUpdated card' = lastUpdated card /\
  inputingStarted card' = inputingStarted card /\ config card' = config card /\
  Forall (fun ev => is_inputing ev = false /\ is_update ev = false) tr.
Proof.
  intros []; repeat split; auto; repeat constructor.
Qed.

Lemma inputing_run_fields (card card' : AICardInstance) (r : Outcome unit)
    (tr : list (Call * Answer)) :
  inputing_run card r card' tr ->
  state card' = state card /\ lastUpdated card' = lastUpdated card /\
  config card' = config card /\ accessToken card' = accessToken card.
Proof. intros []; repeat split; auto. Qed.

Lemma push_run_state (card card' : AICardInstance) (content : jstring)
    (finished : bool) (r : Outcome unit) (tr : list (Call * Answer)) :
  push_run card content finished r card' tr ->
  match r with
  | Ok _ => state card' =
              if finished then FINISHED
              else if bool_decide (state card = PROCESSING) then INPUTING
              else state card
  | Throw _ => state card' = FAILED
  end.
Proof.
  intros []; try reflexivity; by rewrite afterUpdate_state.
Qed.

Lemma stream_run_state (card card' : AICardInstance) (content : jstring)
    (finished : bool) (r : Outcome unit) (tr : list (Call * Answer)) :
  stream_run card content finished r card' tr ->
  match r with
  | Ok _ => state card' =
              if finished then FINISHED
              else if bool_decide (state card = PROCESSING) then INPUTING
              else state card
  | Throw _ => state card' = FAILED \/ state card' = state card
  end.
Proof.
  intros [card1 tr1 e tr2 R1 R2 | card1 tr1 card2 tr2 r' card3 tr3 R1 R2 R3].
  - right. by destruct (refresh_run_fields _ _ _ R1) as (-> & _).
  - destruct (refresh_run_fields _ _ _ R1) as (E1 & _).
    destruct (inputing_run_fields _ _ _ _ R2) as (E2 & _).
    pose proof (push_run_state _ _ _ _ _ _ R3) as H.
    rewrite E2, E1 in H. destruct r'; [exact H | by left].
Qed.

Lemma finishAICard_run (card : AICardInstance) (w : World) (content : jstring) :
  exists r card' tr tr',
    finishAICard content (card, w) = (r, (card', grow w (tr ++ tr'))) /\
    stream_run card content true r card' tr /\
    Forall (fun ev => is_inputing ev = false /\ is_update ev = false) tr'.
Proof.
  unfold finishAICard.
  destruct (streamAICard_run card w content true) as (r & card' & tr & E & R).
  unfold bind at 1. rewrite E. destruct r as [[]|e].
  - exec. destruct (failure (answer (grow w tr))).
    + rewrite grow_grow. do 4 eexists. split; [reflexivity|]. split; [exact R|].
      repeat constructor.
    + rewrite grow_grow. do 4 eexists. split; [reflexivity|]. split; [exact R|].
      repeat constructor.
  - exists (Throw e), card', tr, []. rewrite app_nil_r. repeat split; auto.
Qed.

Lemma updateCardState_sets (cache : CardCache.Cache) (id newState : jstring)
    (ref : nat) (card : AICardInstance) (w : World) :
  CardCache.cachedCard cache id = Some (ref, card) ->
  CardCache.heap (data (CardCache.updateCardState id newState (cache, w))) !! ref =
    Some (set_lastUpdated (time (answer w)) (set_state newState card)).
Proof.
  intros Hc. unfold CardCache.updateCardState. exec. rewrite Hc. exec.
  unfold data. cbn [fst snd CardCache.heap].
  apply list_lookup_insert_eq.
  unfold CardCache.cachedCard in Hc.
  destruct (CardCache.cardInstances cache !! id) as [ref'|]; [|done].
  destruct (CardCache.heap cache !! ref') as [card''|] eqn:Hh; [|done].
  injection Hc as -> ->. by apply lookup_lt_Some in Hh.
Qed.

(** C3 (as amended).  A terminal instance stays terminal under
    [streamAICard] and [finishAICard], though not always in the same
    state: an accepted update without [finished] leaves the state alone,
    an accepted update with [finished] (so every accepted [finishAICard])
    sets FINISHED, also from FAILED; a push that throws after it sent a
    content update sets FAILED, also from FINISHED, and this is every push
    that throws on an instance whose switch to INPUTING was made; a push
    that throws without having sent a content update (the switch was
    rejected) leaves the state alone.  [updateCardState] assigns the state
    it is given to the cached instance, whatever the current one. *)
Theorem terminal_state_changes :
  (forall card content finished w,
     isCardInTerminalState (state card) = true ->
     isCardInTerminalState
       (state (data (streamAICard content finished (card, w)))) = true /\
     (outcome (streamAICard content finished (card, w)) = Ok tt ->
      state (data (streamAICard content finished (card, w))) =
        if finished then FINISHED else state card) /\
     (forall e, outcome (streamAICard content finished (card, w)) = Throw e ->
      (List.filter is_update
         (new_calls w (world (streamAICard content finished (card, w)))) <> [] ->
       state (data (streamAICard content finished (card, w))) = FAILED) /\
      (List.filter is_update
         (new_calls w (world (streamAICard content finished (card, w)))) = [] ->
       state (data (streamAICard content finished (card, w))) = state card) /\
      (inputingStarted card = true ->
       state (data (streamAICard content finished (card, w))) = FAILED))) /\
  (forall card content w,
     isCardInTerminalState (state card) = true ->
     isCardInTerminalState (state (data (finishAICard content (card, w)))) = true /\
     (outcome (finishAICard content (card, w)) = Ok tt ->
      state (data (finishAICard content (card, w))) = FINISHED) /\
     (forall e, outcome (finishAICard content (card, w)) = Throw e ->
      (List.filter is_update
         (new_calls w (world (finishAICard content (card, w)))) <> [] ->
       state (data (finishAICard content (card, w))) = FAILED) /\
      (List.filter is_update
         (new_calls w (world (finishAICard content (card, w)))) = [] ->
       state (data (finishAICard content (card, w))) = state card) /\
      (inputingStarted card = true ->
       state (data (finishAICard content (card, w))) = FAILED))) /\
  (forall cache id newState ref card w,
     CardCache.cachedCard cache id = Some (ref, card) ->
     exists card',
       CardCache.heap (data (CardCache.updateCardState id newState (cache, w))) !! ref
         = Some card' /\
       state card' = newState).
Proof.
  assert (Hstream : forall card content finished r card' tr,
            isCardInTerminalState (state card) = true ->
            stream_run card content finished r card' tr ->
            isCardInTerminalState (state card') = true /\
            (r = Ok tt -> state card' = if finished then FINISHED else state card) /\
            (forall e, r = Throw e ->
               (List.filter is_update tr <> [] -> state card' = FAILED) /\
               (List.filter is_update tr = [] -> state card' = state card) /\
               (inputingStarted card = true -> state card' = FAILED))).
  { intros card content finished r card' tr Ht R.
    pose proof (stream_run_state _ _ _ _ _ _ R) as H.
    rewrite (bool_decide_eq_false_2 (state card = PROCESSING)) in H
      by (by apply terminal_not_processing).
    destruct r as [[]|e].
    - split; [|split; [done | discriminate]].
      rewrite H. destruct finished; [reflexivity | exact Ht].
    - split; [destruct H as [-> | ->]; [reflexivity | exact Ht]|].
      split; [discriminate|]. intros e' _. clear H.
      inversion R as [card1 tr1 e1 tr2 R1 R2 | card1 tr1 card2 tr2 r' card3 tr3 R1 R2 R3];
        subst.
      + destruct (refresh_run_fields _ _ _ R1) as (Hs & _ & Hi & _ & Hf).
        assert (Hno : List.filter is_update (tr1 ++ tr2) = []).
        { rewrite List.filter_app.
          replace (List.filter is_update tr1) with (@nil (Call * Answer)).
          - inversion R2; reflexivity.
          - symmetry. clear -Hf. induction Hf as [|ev l [_ Hu] _ IH]; [done|].
            cbn [List.filter]. by rewrite Hu. }
        split; [by rewrite Hno|]. split; [done|].
        intros Hflag. inversion R2; congruence.
      + pose proof (push_run_state _ _ _ _ _ _ R3) as Hf. cbn in Hf.
        assert (Hup : List.filter is_update (tr1 ++ tr2 ++ tr3) <> []).
        { rewrite !List.filter_app. intros Hnil.
          apply app_eq_nil in Hnil as [_ Hnil]. apply app_eq_nil in Hnil as [_ Hnil].
          revert Hnil. inversion R3; cbn; discriminate. }
        split; [done|]. split; [done | done]. }
  split; [|split].
  - intros card content finished w Ht.
    destruct (streamAICard_run card w content finished) as (r & card' & tr & E & R).
    rewrite E. unfold data, outcome, world. cbn [fst snd]. rewrite new_calls_grow. eauto.
  - intros card content w Ht.
    destruct (finishAICard_run card w content) as (r & card' & tr & tr' & E & R & Hq).
    rewrite E. unfold data, outcome, world. cbn [fst snd]. rewrite new_calls_grow.
    destruct (Hstream _ _ _ _ _ _ Ht R) as (H1 & H2 & H3). split; [exact H1|].
    split; [intros ->; by apply H2|].
    intros e ->.
    assert (Hsame : List.filter is_update (tr ++ tr') = List.filter is_update tr).
    { rewrite List.filter_app.
      replace (List.filter is_update tr') with (@nil (Call * Answer));
        [by rewrite app_nil_r|].
      symmetry. clear -Hq. induction Hq as [|ev l [_ Hu] _ IH]; [done|].
      cbn [List.filter]. by rewrite Hu. }
    rewrite Hsame. exact (H3 e eq_refl).
  - intros cache id newState ref card w Hc.
    eexists. split; [by apply updateCardState_sets | reflexivity].
Qed.

Lemma terminal_state_changes_witness :
  state (data (streamAICard (lit "done") true
                 (sampleCard FAILED true, scripted []))) = FINISHED /\
  state (data (streamAICard (lit "more") false
                 (sampleCard FINISHED true, scripted [fine; fine; failing 500])))
    = FAILED /\
  state (data (finishAICard (lit "done")
                 (sampleCard FAILED true, scripted []))) = FINISHED /\
  exists card',
    CardCache.heap (data (CardCache.updateCardState (lit "card_1") PROCESSING
                            (CardCache.sampleCache FINISHED, scripted []))) !! 0%nat
      = Some card' /\
    state card' = PROCESSING.
Proof.
  destruct terminal_state_changes as (Hstream & Hfinish & Hupdate).
  split; [|split; [|split]].
  - destruct (Hstream (sampleCard FAILED true) (lit "done") true (scripted []))
      as (_ & H2 & _); [reflexivity|].
    exact (H2 eq_refl).
  - destruct (Hstream (sampleCard FINISHED true) (lit "more") false
                (scripted [fine; fine; failing 500]))
      as (_ & _ & H3); [reflexivity|].
    destruct (H3 (AxiosError (Some 500) (lit "rejected")) eq_refl) as (_ & _ & H).
    exact (H eq_refl).
  - destruct (Hfinish (sampleCard FAILED true) (lit "done") (scripted []))
      as (_ & H2 & _); [reflexivity|].
    exact (H2 eq_refl).
  - apply (Hupdate (CardCache.sampleCache FINISHED) (lit "card_1") PROCESSING 0%nat
             (sampleCard FINISHED true) (scripted [])).
    reflexivity.
Defined.

(** C3 as stated fails: an accepted finalizing push moves an instance
    from FAILED to FINISHED. *)
Lemma failed_card_finishes_counterexample :
  isCardInTerminalState (state (sampleCard FAILED true)) = true /\
  outcome (streamAICard (lit "done") true (sampleCard FAILED true, scripted []))
    = Ok tt /\
  state (data (streamAICard (lit "done") true (sampleCard FAILED true, scripted [])))
    = FINISHED /\
  FINISHED <> state (sampleCard FAILED true).
Proof. repeat split. discriminate. Qed.

(** *** The order of calls on one instance *)


















(** *** Failures of a push *)











End CardFacts.

(** ** The card cache *)

Module CardCacheFacts.
Import Runtime Retry Card CardCache RuntimeFacts CardFacts.

(** [createAICard] never throws; a card it returns is a fresh one: its id
    is [card_] followed by the uuid drawn, its state PROCESSING, its flag
    unset, its target the one asked for. *)
Lemma createAICard_result (cfg : DingTalkConfig) (target : AICardTarget) (w : World) :
  exists res w',
    createAICard cfg target (tt, w) = (Ok res, (tt, w')) /\
    match res with
    | Some card =>
        (exists uuid, cardInstanceId card = lit "card_" ++ uuid) /\
        state card = PROCESSING /\ inputingStarted card = false /\
        accountId card = t_accountId target /\
        conversationId card = t_conversationId target /\
        config card = cfg
    | None => True
    end.
Proof.
  unfold createAICard, try_catch.
  unfold bind at 1. unfold getAccessToken, request. exec.
  destruct (failure (answer w)).
  { do 2 eexists. split; [reflexivity | done]. }
  match goal with
  | |- context [retryWithBackoff ?fn ?o ?s] =>
      destruct (retryWithBackoff fn o s) as [[r|e] [[] w']]
  end.
  - do 2 eexists. split; [reflexivity|]. cbn. eauto 10.
  - do 2 eexists. split; [reflexivity | done].
Qed.

Lemma cachedCard_install_new (key : jstring) (newCard : AICardInstance) (cache : Cache) :
  cachedCard (install key newCard cache) (cardInstanceId newCard)
    = Some (length (heap cache), newCard).
Proof.
  unfold cachedCard, install. cbn [cardInstances heap].
  rewrite lookup_insert_eq.
  rewrite lookup_app_r by lia. by rewrite Nat.sub_diag.
Qed.

Lemma getOrCreateCard_reuse (cfg : DingTalkConfig) (target : AICardTarget)
    (cache : Cache) (w : World) (id : jstring) (ref : nat) (card : AICardInstance) :
  activeCardsByTarget cache
    !! getTargetKey (t_accountId target) (t_conversationId target) = Some id ->
  id <> [] ->
  cachedCard cache id = Some (ref, card) ->
  isCardInTerminalState (state card) = false ->
  getOrCreateCard cfg target (cache, w) = (Ok (Some ref), (cache, w)).
Proof.
  intros Hk Hid Hc Ht. unfold getOrCreateCard. exec.
  rewrite Hk. apply truthy_true in Hid. rewrite Hid, Hc, Ht. reflexivity.
Qed.

Lemma getOrCreateCard_stale (cfg : DingTalkConfig) (target : AICardTarget)
    (cache : Cache) (w : World) (res : option AICardInstance) (w' : World) :
  (activeCardsByTarget cache
     !! getTargetKey (t_accountId target) (t_conversationId target) = None \/
   exists id,
     activeCardsByTarget cache
       !! getTargetKey (t_accountId target) (t_conversationId target) = Some id /\
     id <> [] /\
     (cachedCard cache id = None \/
      exists ref card, cachedCard cache id = Some (ref, card) /\
                       isCardInTerminalState (state card) = true)) ->
  createAICard cfg target (tt, w) = (Ok res, (tt, w')) ->
  getOrCreateCard cfg target (cache, w) =
    match res with
    | Some newCard =>
        (Ok (Some (length (heap cache))),
         (install (getTargetKey (t_accountId target) (t_conversationId target))
            newCard
            (deleteActive
               (getTargetKey (t_accountId target) (t_conversationId target)) cache),
          w'))
    | None =>
        (Ok None,
         (deleteActive
            (getTargetKey (t_accountId target) (t_conversationId target)) cache,
          w'))
    end.
Proof.
  set (key := getTargetKey (t_accountId target) (t_conversationId target)).
  intros Hstale E. unfold getOrCreateCard. fold key. exec.
  destruct Hstale as [Hk | (id & Hk & Hid & Hc)]; rewrite Hk.
  - exec. unfold worldOnly. cbn [fst snd]. rewrite E.
    unfold deleteActive. rewrite delete_id by done.
    destruct cache. by destruct res.
  - apply truthy_true in Hid. rewrite Hid.
    destruct Hc as [Hc | (ref & card & Hc & Ht)]; rewrite Hc.
    + exec. unfold worldOnly. cbn [fst snd]. rewrite E. by destruct res.
    + rewrite Ht. cbn [negb]. exec. unfold worldOnly. cbn [fst snd]. rewrite E.
      by destruct res.
Qed.

(** The hypothesis on ids below holds of every cache the program builds:
    the empty cache has it and [getOrCreateCard] keeps it. *)
Lemma getOrCreateCard_ids (cfg : DingTalkConfig) (target : AICardTarget)
    (cache : Cache) (w : World) :
  idsNonEmpty cache ->
  idsNonEmpty (data (getOrCreateCard cfg target (cache, w))).
Proof.
  intros Hids.
  set (key := getTargetKey (t_accountId target) (t_conversationId target)).
  destruct (createAICard_result cfg target w) as (res & w' & E & Hres).
  assert (Hstale_ids :
    idsNonEmpty (data (
      match res with
      | Some newCard =>
          (@Ok (option nat) (Some (length (heap cache))),
           (install key newCard (deleteActive key cache), w'))
      | None => (Ok None, (deleteActive key cache, w'))
      end))).
  { destruct res as [newCard|]; unfold data; cbn [fst snd];
      intros k id; unfold install, deleteActive; cbn [activeCardsByTarget].
    - destruct Hres as ((uuid & Hid) & _).
      destruct (decide (key = k)) as [<-|Hne].
      + rewrite lookup_insert_eq. intros [= <-]. rewrite Hid. discriminate.
      + rewrite lookup_insert_ne by done.
        destruct (decide (key = k)) as [<-|_]; [done|].
        rewrite lookup_delete_ne by done. apply Hids.
    - destruct (decide (key = k)) as [<-|Hne].
      + by rewrite lookup_delete_eq.
      + rewrite lookup_delete_ne by done. apply Hids. }
  destruct (activeCardsByTarget cache !! key) as [id|] eqn:Hk.
  - pose proof (Hids key id Hk) as Hid.
    destruct (cachedCard cache id) as [[ref card]|] eqn:Hc.
    + destruct (isCardInTerminalState (state card)) eqn:Ht.
      * rewrite (getOrCreateCard_stale cfg target cache w res w'); [exact Hstale_ids| |exact E].
        right. exists id. fold key. repeat split; eauto.
      * by rewrite (getOrCreateCard_reuse cfg target cache w id ref card).
    + rewrite (getOrCreateCard_stale cfg target cache w res w'); [exact Hstale_ids| |exact E].
      right. exists id. fold key. repeat split; eauto.
  - rewrite (getOrCreateCard_stale cfg target cache w res w'); [exact Hstale_ids| |exact E].
    by left.
Qed.

(** C4.  With [key] the target key: when the cache maps [key] to an id
    whose instance is not terminal, [getOrCreateCard] returns that very
    instance and calls nothing, the cache staying as it is.  When [key] is
    unmapped, or mapped to an id with a terminal or missing instance, the
    mapping is deleted and [createAICard] runs; only when it returns a card
    are the instance and the mapping of [key] to its id installed, and
    otherwise [null] is returned with nothing installed. *)
Theorem getOrCreateCard_cases (cfg : DingTalkConfig) (target : AICardTarget)
    (cache : Cache) (w : World) :
  (forall id ref card,
     activeCardsByTarget cache
       !! getTargetKey (t_accountId target) (t_conversationId target) = Some id ->
     id <> [] ->
     cachedCard cache id = Some (ref, card) ->
     isCardInTerminalState (state card) = false ->
     getOrCreateCard cfg target (cache, w) = (Ok (Some ref), (cache, w))) /\
  ((activeCardsByTarget cache
      !! getTargetKey (t_accountId target) (t_conversationId target) = None \/
    exists id,
      activeCardsByTarget cache
        !! getTargetKey (t_accountId target) (t_conversationId target) = Some id /\
      id <> [] /\
      (cachedCard cache id = None \/
       exists ref card, cachedCard cache id = Some (ref, card) /\
                        isCardInTerminalState (state card) = true)) ->
   match outcome (createAICard cfg target (tt, w)) with
   | Ok (Some newCard) =>
       getOrCreateCard cfg target (cache, w) =
         (Ok (Some (length (heap cache))),
          (install (getTargetKey (t_accountId target) (t_conversationId target))
             newCard
             (deleteActive
                (getTargetKey (t_accountId target) (t_conversationId target)) cache),
           world (createAICard cfg target (tt, w)))) /\
       cachedCard (data (getOrCreateCard cfg target (cache, w)))
         (cardInstanceId newCard) = Some (length (heap cache), newCard) /\
       activeCardsByTarget (data (getOrCreateCard cfg target (cache, w)))
         !! getTargetKey (t_accountId target) (t_conversationId target)
         = Some (cardInstanceId newCard)
   | Ok None =>
       getOrCreateCard cfg target (cache, w) =
         (Ok None,
          (deleteActive
             (getTargetKey (t_accountId target) (t_conversationId target)) cache,
           world (createAICard cfg target (tt, w)))) /\
       activeCardsByTarget (data (getOrCreateCard cfg target (cache, w)))
         !! getTargetKey (t_accountId target) (t_conversationId target) = None /\
       cardInstances (data (getOrCreateCard cfg target (cache, w)))
         = cardInstances cache /\
       heap (data (getOrCreateCard cfg target (cache, w))) = heap cache
   | Throw _ => False
   end).
Proof.
  set (key := getTargetKey (t_accountId target) (t_conversationId target)).
  split.
  - intros id ref card. apply getOrCreateCard_reuse.
  - intros Hstale.
    destruct (createAICard_result cfg target w) as (res & w' & E & _).
    pose proof (getOrCreateCard_stale cfg target cache w res w' Hstale E) as Hrun.
    fold key in Hrun.
    rewrite E. unfold outcome, world. cbn [fst snd]. rewrite Hrun.
    unfold data. destruct res as [newCard|]; cbn [fst snd].
    + split; [reflexivity|].
      split; [exact (cachedCard_install_new key newCard (deleteActive key cache))|].
      unfold install. cbn [activeCardsByTarget]. apply lookup_insert_eq.
    + split; [reflexivity|]. unfold deleteActive.
      cbn [activeCardsByTarget cardInstances heap].
      split; [apply lookup_delete_eq | by split].
Qed.

Lemma getOrCreateCard_cases_witness :
  getOrCreateCard (mkConfig (lit "app") None None) sampleTarget
    (sampleCache INPUTING, scripted [])
  = (Ok (Some 0%nat), (sampleCache INPUTING, scripted [])) /\
  activeCardsByTarget
    (data (getOrCreateCard (mkConfig (lit "app") None None) sampleTarget
             (sampleCache FINISHED, scripted [])))
    !! getTargetKey (t_accountId sampleTarget) (t_conversationId sampleTarget)
  = Some (lit "card_ok").
Proof.
  split.
  - destruct (getOrCreateCard_cases (mkConfig (lit "app") None None) sampleTarget
                (sampleCache INPUTING) (scripted [])) as [H _].
    apply (H (lit "card_1") 0%nat (sampleCard INPUTING true));
      [reflexivity | discriminate | reflexivity | reflexivity].
  - destruct (getOrCreateCard_cases (mkConfig (lit "app") None None) sampleTarget
                (sampleCache FINISHED) (scripted [])) as [_ H].
    assert (Hstale :
      activeCardsByTarget (sampleCache FINISHED)
        !! getTargetKey (t_accountId sampleTarget) (t_conversationId sampleTarget)
        = None \/
      exists id,
        activeCardsByTarget (sampleCache FINISHED)
          !! getTargetKey (t_accountId sampleTarget) (t_conversationId sampleTarget)
          = Some id /\
        id <> [] /\
        (cachedCard (sampleCache FINISHED) id = None \/
         exists ref card, cachedCard (sampleCache FINISHED) id = Some (ref, card) /\
                          isCardInTerminalState (state card) = true)).
    { right. exists (lit "card_1"). split; [reflexivity|]. split; [discriminate|].
      right. exists 0%nat, (sampleCard FINISHED true). by split. }
    specialize (H Hstale).
    change (outcome (createAICard (mkConfig (lit "app") None None) sampleTarget
                       (tt, scripted [])))
      with (Ok (Some (mkCard (lit "card_ok") (lit "ok") (lit "cid") (lit "acc") 7 7
                        PROCESSING (mkConfig (lit "app") None None) false)))
      in H.
    cbv iota in H. destruct H as (_ & _ & H). exact H.
Defined.

End CardCacheFacts.

(** ** The stream consumer *)

Module StreamingFacts.
Import Streaming.

Section Consumer.
Variable deltaContent : jstring -> option (option JValue).
Variable logInfo : bool.




End Consumer.




End StreamingFacts.

(** ** Media markers *)

Module MarkersFacts.
Import Runtime Card Markers RuntimeFacts.

(** *** The scan *)

Lemma stripPrefix_app (p s : jstring) : stripPrefix p (p ++ s) = Some s.
Proof.
  induction p as [|c p IH]; cbn [stripPrefix app]; [done|].
  by rewrite N.eqb_refl.
Qed.

Lemma stripPrefix_length (p s rest : jstring) :
  stripPrefix p s = Some rest -> length s = (length p + length rest)%nat.
Proof.
  revert s. induction p as [|c p IH]; intros s; cbn [stripPrefix].
  - by intros [= ->].
  - destruct s as [|d s]; [done|]. destruct (c =? d)%N; [|done].
    intros H%IH. cbn [length]. lia.
Qed.

Lemma stripPrefix_head (c d : N) (p s : jstring) :
  c <> d -> stripPrefix (c :: p) (d :: s) = None.
Proof. intros H. cbn [stripPrefix]. by apply N.eqb_neq in H as ->. Qed.

Lemma closeTag_bracket (kind : MarkerKind) :
  exists close, closeTag kind = LBRACKET :: close.
Proof. destruct kind; eexists; reflexivity. Qed.

Lemma openTag_bracket (kind : MarkerKind) :
  exists open, openTag kind = LBRACKET :: open.
Proof. destruct kind; eexists; reflexivity. Qed.

Lemma lazyBody_length (close s body rest : jstring) :
  lazyBody close s = Some (body, rest) -> (length rest < length s)%nat.
Proof.
  revert body. induction s as [|c s IH]; intros body; cbn [lazyBody].
  - cbn [stripPrefix]. done.
  - destruct (stripPrefix (RBRACE :: close) (c :: s)) as [r|] eqn:E.
    + intros [= <- <-]. apply stripPrefix_length in E. cbn [length] in *. lia.
    + destruct (isLineTerminator c); [done|].
      destruct (lazyBody close s) as [[b r]|]; [|done].
      intros [= <- <-]. specialize (IH b eq_refl). cbn [length]. lia.
Qed.

Lemma matchHere_length (kind : MarkerKind) (s capture rest : jstring) :
  matchHere kind s = Some (capture, rest) -> (length rest < length s)%nat.
Proof.
  unfold matchHere.
  destruct (stripPrefix (openTag kind ++ [LBRACE]) s) as [s1|] eqn:E; [|done].
  destruct (lazyBody (closeTag kind) s1) as [[b r]|] eqn:E2; [|done].
  intros [= <- <-]. apply stripPrefix_length in E. apply lazyBody_length in E2. lia.
Qed.

(** More fuel than the length of the text changes nothing. *)
Lemma scan_enough (kind : MarkerKind) (fuel : nat) :
  forall s, (length s <= fuel)%nat -> scan kind fuel s = tokenize kind s.
Proof.
  unfold tokenize. induction fuel as [fuel IH] using lt_wf_ind. intros s Hs.
  destruct s as [|c s]; [by destruct fuel|].
  destruct fuel as [|fuel]; [cbn [length] in Hs; lia|].
  cbn [scan length].
  destruct (matchHere kind (c :: s)) as [[capture rest]|] eqn:E.
  - apply matchHere_length in E. cbn [length] in E, Hs.
    rewrite (IH fuel (Nat.lt_succ_diag_r fuel) rest) by lia.
    rewrite (IH (length s)) by lia. reflexivity.
  - cbn [length] in Hs. rewrite (IH fuel (Nat.lt_succ_diag_r fuel) s) by lia.
    reflexivity.
Qed.

Lemma tokenize_nil (kind : MarkerKind) : tokenize kind [] = [].
Proof. reflexivity. Qed.

Lemma tokenize_cons (kind : MarkerKind) (c : N) (s : jstring) :
  tokenize kind (c :: s) =
    match matchHere kind (c :: s) with
    | Some (capture, rest) => TMarker capture :: tokenize kind rest
    | None => TChar c :: tokenize kind s
    end.
Proof.
  unfold tokenize at 1. cbn [length scan].
  destruct (matchHere kind (c :: s)) as [[capture rest]|] eqn:E; [|reflexivity].
  apply matchHere_length in E. cbn [length] in E. by rewrite scan_enough by lia.
Qed.

Lemma matchHere_no_bracket (kind : MarkerKind) (c : N) (s : jstring) :
  c <> LBRACKET -> matchHere kind (c :: s) = None.
Proof.
  intros Hc. unfold matchHere. destruct (openTag_bracket kind) as (open & ->).
  cbn [app]. by rewrite stripPrefix_head.
Qed.

(** Plain text in front of anything is passed through unit by unit. *)
Lemma tokenize_plain_app (kind : MarkerKind) (gap s : jstring) :
  plain gap -> tokenize kind (gap ++ s) = map TChar gap ++ tokenize kind s.
Proof.
  induction 1 as [|c gap Hc _ IH]; cbn [app map]; [done|].
  by rewrite tokenize_cons, matchHere_no_bracket, IH.
Qed.

Lemma lazyBody_plain (kind : MarkerKind) (body rest : jstring) :
  plainBody body ->
  lazyBody (closeTag kind) (body ++ RBRACE :: closeTag kind ++ rest)
    = Some (body, rest).
Proof.
  destruct (closeTag_bracket kind) as (close & Hclose).
  induction 1 as [|c body [Hc Ht] Hbody IH]; cbn [app].
  - cbn [lazyBody stripPrefix]. by rewrite N.eqb_refl, stripPrefix_app.
  - cbn [lazyBody].
    assert (Hno : stripPrefix (RBRACE :: closeTag kind)
                    (c :: body ++ RBRACE :: closeTag kind ++ rest) = None).
    { cbn [stripPrefix]. destruct (RBRACE =? c)%N; [|done].
      rewrite Hclose. destruct Hbody as [|d body [Hd _] _]; cbn [app];
        apply stripPrefix_head; [discriminate | congruence]. }
    rewrite Hno, Ht. by rewrite IH.
Qed.

(** A marker with a plain body in front of anything is taken whole. *)
Lemma matchHere_marker (kind : MarkerKind) (body rest : jstring) :
  plainBody body ->
  matchHere kind (marker kind body ++ rest) = Some (payloadOf body, rest).
Proof.
  intros Hb. unfold matchHere, marker.
  replace ((openTag kind ++ [LBRACE] ++ body ++ [RBRACE] ++ closeTag kind) ++ rest)
    with ((openTag kind ++ [LBRACE]) ++ body ++ RBRACE :: closeTag kind ++ rest)
    by (by rewrite <- !app_assoc).
  by rewrite stripPrefix_app, lazyBody_plain.
Qed.

Lemma tokenize_marker_app (kind : MarkerKind) (body rest : jstring) :
  plainBody body ->
  tokenize kind (marker kind body ++ rest)
    = TMarker (payloadOf body) :: tokenize kind rest.
Proof.
  intros Hb. pose proof (matchHere_marker kind body rest Hb) as Hm.
  destruct (openTag_bracket kind) as (open & Hopen).
  unfold marker in *. rewrite Hopen in *. cbn [app] in *.
  by rewrite tokenize_cons, Hm.
Qed.

(** The scan on small texts: the lazy quantifier stops at the first
    closing tag, a line terminator inside the braces prevents the match,
    and a marker of another kind is plain text. *)
Example matchAll_two_markers :
  matchAll FILE
    (lit "[DINGTALK_FILE]{a}[/DINGTALK_FILE]x[DINGTALK_FILE]{b}[/DINGTALK_FILE]")
  = [lit "{a}"; lit "{b}"].
Proof. vm_compute. reflexivity. Qed.

Example replaceAll_two_markers :
  replaceAll FILE
    (lit "[DINGTALK_FILE]{a}[/DINGTALK_FILE]x[DINGTALK_FILE]{b}[/DINGTALK_FILE]")
  = lit "x".
Proof. vm_compute. reflexivity. Qed.

Example matchAll_line_terminator :
  matchAll FILE (lit "[DINGTALK_FILE]{a" ++ [10%N] ++ lit "}[/DINGTALK_FILE]") = [].
Proof. vm_compute. reflexivity. Qed.

Example matchAll_other_kind :
  matchAll AUDIO (lit "[DINGTALK_FILE]{a}[/DINGTALK_FILE]") = [].
Proof. vm_compute. reflexivity. Qed.

Lemma tokenize_assemble (kind : MarkerKind) (pieces : list (jstring * jstring))
    (rest : jstring) :
  wellFormed pieces ->
  tokenize kind (assemble kind pieces rest) =
    flat_map (fun piece => map TChar piece.1 ++ [TMarker (payloadOf piece.2)]) pieces
    ++ tokenize kind rest.
Proof.
  induction 1 as [|[gap body] pieces [Hg Hb] _ IH]; cbn [assemble flat_map]; [done|].
  cbn [fst snd] in *.
  rewrite tokenize_plain_app by done. rewrite tokenize_marker_app by done.
  rewrite IH. by rewrite <- !app_assoc.
Qed.

Lemma flat_map_captureOf_chars (s : jstring) : flat_map captureOf (map TChar s) = [].
Proof. induction s as [|c s IH]; cbn; [done | exact IH]. Qed.

Lemma flat_map_charOf_chars (s : jstring) : flat_map charOf (map TChar s) = s.
Proof. induction s as [|c s IH]; cbn; [done | by rewrite IH]. Qed.

Lemma matchAll_assemble (kind : MarkerKind) (pieces : list (jstring * jstring))
    (rest : jstring) :
  wellFormed pieces ->
  matchAll kind (assemble kind pieces rest) =
    map (fun piece => payloadOf piece.2) pieces ++ matchAll kind rest.
Proof.
  intros Hw. unfold matchAll. rewrite tokenize_assemble by done.
  rewrite flat_map_app. f_equal.
  clear Hw. induction pieces as [|[gap body] pieces IH]; cbn [flat_map map]; [done|].
  rewrite !flat_map_app, flat_map_captureOf_chars. cbn [flat_map captureOf app fst snd].
  by rewrite IH.
Qed.

Lemma replaceAll_assemble (kind : MarkerKind) (pieces : list (jstring * jstring))
    (rest : jstring) :
  wellFormed pieces ->
  replaceAll kind (assemble kind pieces rest) =
    flat_map fst pieces ++ replaceAll kind rest.
Proof.
  intros Hw. unfold replaceAll. rewrite tokenize_assemble by done.
  rewrite flat_map_app. f_equal.
  clear Hw. induction pieces as [|[gap body] pieces IH]; cbn [flat_map map]; [done|].
  rewrite !flat_map_app, flat_map_charOf_chars. cbn [flat_map charOf app fst snd].
  by rewrite IH, app_nil_r.
Qed.

Lemma tokenize_plain (kind : MarkerKind) (s : jstring) :
  plain s -> tokenize kind s = map TChar s.
Proof.
  intros Hs. rewrite <- (app_nil_r s) at 1.
  rewrite tokenize_plain_app by done. by rewrite tokenize_nil, app_nil_r.
Qed.

Lemma matchAll_plain (kind : MarkerKind) (s : jstring) :
  plain s -> matchAll kind s = [].
Proof.
  intros Hs. unfold matchAll. rewrite tokenize_plain by done.
  apply flat_map_captureOf_chars.
Qed.

Lemma replaceAll_plain (kind : MarkerKind) (s : jstring) :
  plain s -> replaceAll kind s = s.
Proof.
  intros Hs. unfold replaceAll. rewrite tokenize_plain by done.
  apply flat_map_charOf_chars.
Qed.

Lemma trimStart_Forall (P : N -> Prop) (s : jstring) :
  Forall P s -> Forall P (trimStart s).
Proof.
  induction 1 as [|c s Hc Hs IH]; cbn [trimStart]; [constructor|].
  destruct (_ || _); [exact IH | by constructor].
Qed.

Lemma trim_Forall (P : N -> Prop) (s : jstring) :
  Forall P s -> Forall P (trim s).
Proof.
  intros Hs. unfold trim, trimEnd.
  apply Forall_rev, trimStart_Forall, Forall_rev. by apply trimStart_Forall.
Qed.

Lemma plain_flat_map (pieces : list (jstring * jstring)) (tail : jstring) :
  wellFormed pieces -> plain tail -> plain (flat_map fst pieces ++ tail).
Proof.
  intros Hw Ht. unfold plain. apply Forall_app. split; [|exact Ht].
  induction Hw as [|[gap body] pieces [Hg _] _ IH]; cbn [flat_map]; [constructor|].
  apply Forall_app. by split.
Qed.

(** *** Texts without stray tags *)

Lemma trimStart_pad (s : jstring) :
  exists pad, s = pad ++ trimStart s /\ Forall (fun c => isSpace c = true) pad.
Proof.
  induction s as [|c s (pad & IH & Hpad)]; [by exists []|].
  cbn [trimStart]. destruct (_ || _) eqn:E; [|by exists []].
  exists (c :: pad). cbn [app]. rewrite <- IH. split; [done | by constructor].
Qed.

Lemma trimEnd_pad (s : jstring) :
  exists pad, s = trimEnd s ++ pad /\ Forall (fun c => isSpace c = true) pad.
Proof.
  destruct (trimStart_pad (rev s)) as (pad & E & Hpad).
  exists (rev pad). split; [|by apply Forall_rev].
  unfold trimEnd. by rewrite <- rev_app_distr, <- E, rev_involutive.
Qed.

Lemma stripPrefix_startsWith (p s rest : jstring) :
  stripPrefix p s = Some rest -> startsWith p s = true.
Proof.
  revert s. induction p as [|c p IH]; intros [|d s]; cbn [stripPrefix startsWith];
    try done.
  destruct (c =? d)%N; [apply IH | done].
Qed.

Lemma stripPrefix_app_inv (p q s rest : jstring) :
  stripPrefix (p ++ q) s = Some rest -> exists rest', stripPrefix p s = Some rest'.
Proof.
  revert s. induction p as [|c p IH]; intros s; cbn [app stripPrefix]; [eauto|].
  destruct s as [|d s]; [done|]. destruct (c =? d)%N; [apply IH | done].
Qed.

Lemma startsWith_app (p a b : jstring) :
  startsWith p a = true -> startsWith p (a ++ b) = true.
Proof.
  revert a. induction p as [|c p IH]; intros [|d a]; cbn [startsWith app]; try done.
  intros [-> H]%andb_true_iff. by rewrite IH.
Qed.

Lemma includes_startsWith (p s : jstring) :
  startsWith p s = true -> includes p s = true.
Proof. intros H. destruct s; cbn [includes]; by rewrite H. Qed.

Lemma includes_app_l (p a b : jstring) :
  includes p a = true -> includes p (a ++ b) = true.
Proof.
  induction a as [|c a IH]; cbn [includes app].
  - rewrite orb_false_r. intros H. apply includes_startsWith.
    by apply (startsWith_app p [] b).
  - intros [H | H]%orb_true_iff.
    + pose proof (startsWith_app p (c :: a) b H) as H'. cbn [app] in H'.
      by rewrite H'.
    + by rewrite IH, orb_true_r.
Qed.

Lemma includes_app_r (p a b : jstring) :
  includes p b = true -> includes p (a ++ b) = true.
Proof.
  intros H. induction a as [|c a IH]; cbn [includes app]; [exact H|].
  by rewrite IH, orb_true_r.
Qed.

Lemma includes_cons (p : jstring) (c : N) (s : jstring) :
  includes p (c :: s) = false -> startsWith p (c :: s) = false /\ includes p s = false.
Proof. cbn [includes]. by intros ?%orb_false_iff. Qed.

Lemma tagFree_app (kind : MarkerKind) (a b : jstring) :
  tagFree kind (a ++ b) -> tagFree kind a /\ tagFree kind b.
Proof.
  unfold tagFree. intros H. split.
  - destruct (includes (openTag kind) a) eqn:E; [|done].
    by rewrite (includes_app_l _ a b E) in H.
  - destruct (includes (openTag kind) b) eqn:E; [|done].
    by rewrite (includes_app_r _ a b E) in H.
Qed.

(** A prefix found in front of a code unit it does not hold ends before
    that code unit. *)
Lemma stripPrefix_before (p a s rest : jstring) (d : N) :
  Forall (fun c => c <> d) p ->
  stripPrefix p (a ++ d :: s) = Some rest -> startsWith p a = true.
Proof.
  intros Hp. revert a. induction Hp as [|c p Hc Hp IH]; intros a; [by destruct a|].
  destruct a as [|x a]; cbn [app stripPrefix startsWith].
  - by apply N.eqb_neq in Hc as ->.
  - destruct (c =? x)%N; [apply IH | done].
Qed.

Lemma openTag_parts (kind : MarkerKind) :
  exists open, openTag kind = LBRACKET :: open /\ Forall (fun c => c <> LBRACKET) open.
Proof.
  destruct kind; eexists; (split; [reflexivity|]); repeat constructor; discriminate.
Qed.

Lemma closeTag_no_brace (kind : MarkerKind) :
  Forall (fun c => c <> RBRACE) (closeTag kind).
Proof. destruct kind; repeat constructor; discriminate. Qed.

(** Inside a text without the opening tag, in front of a marker or of the
    end of the text, nothing matches. *)
Lemma matchHere_tagFree (kind : MarkerKind) (c : N) (gap s : jstring) :
  tagFree kind (c :: gap) ->
  s = [] \/ (exists s', s = LBRACKET :: s') ->
  matchHere kind (c :: gap ++ s) = None.
Proof.
  intros [Hfree _]%includes_cons Hs. unfold matchHere.
  destruct (stripPrefix (openTag kind ++ [LBRACE]) (c :: gap ++ s)) as [s1|] eqn:E;
    [exfalso | reflexivity].
  apply stripPrefix_app_inv in E as (rest & E).
  destruct (openTag_parts kind) as (open & Hopen & Hno). rewrite Hopen in *.
  destruct Hs as [-> | (s' & ->)].
  - rewrite app_nil_r in E. apply stripPrefix_startsWith in E. congruence.
  - cbn [stripPrefix startsWith] in *. destruct (LBRACKET =? c)%N; [|done].
    apply stripPrefix_before in E; [|exact Hno]. cbn [andb] in Hfree. congruence.
Qed.

Lemma tokenize_tagFree_app (kind : MarkerKind) (gap s : jstring) :
  tagFree kind gap ->
  s = [] \/ (exists s', s = LBRACKET :: s') ->
  tokenize kind (gap ++ s) = map TChar gap ++ tokenize kind s.
Proof.
  intros Hfree Hs. induction gap as [|c gap IH]; cbn [app map]; [done|].
  rewrite tokenize_cons, matchHere_tagFree by done.
  rewrite IH; [done|]. by apply includes_cons in Hfree as [_ ?].
Qed.

Lemma tokenize_tagFree (kind : MarkerKind) (s : jstring) :
  tagFree kind s -> tokenize kind s = map TChar s.
Proof.
  intros Hs. rewrite <- (app_nil_r s) at 1.
  rewrite tokenize_tagFree_app by auto. by rewrite tokenize_nil, app_nil_r.
Qed.

(** The lazy quantifier runs over a body without line terminator and
    closing tag up to the brace that closes the marker. *)
Lemma lazyBody_closed (kind : MarkerKind) (body rest : jstring) :
  closedBody kind body ->
  lazyBody (closeTag kind) (body ++ RBRACE :: closeTag kind ++ rest)
    = Some (body, rest).
Proof.
  intros [Hline Hclose]. induction Hline as [|c body Hc _ IH]; cbn [app].
  - cbn [lazyBody stripPrefix]. by rewrite N.eqb_refl, stripPrefix_app.
  - apply includes_cons in Hclose as [Hhere Hclose]. cbn [lazyBody].
    assert (Hno : stripPrefix (RBRACE :: closeTag kind)
                    (c :: body ++ RBRACE :: closeTag kind ++ rest) = None).
    { cbn [stripPrefix]. destruct (RBRACE =? c)%N; [|done].
      destruct (stripPrefix (closeTag kind) (body ++ RBRACE :: closeTag kind ++ rest))
        as [r|] eqn:E; [exfalso | reflexivity].
      apply stripPrefix_before in E; [|apply closeTag_no_brace].
      apply includes_startsWith in E. congruence. }
    rewrite Hno, Hc. by rewrite IH.
Qed.

Lemma tokenize_closed_marker (kind : MarkerKind) (body rest : jstring) :
  closedBody kind body ->
  tokenize kind (marker kind body ++ rest)
    = TMarker (payloadOf body) :: tokenize kind rest.
Proof.
  intros Hb.
  assert (Hm : matchHere kind (marker kind body ++ rest) = Some (payloadOf body, rest)).
  { unfold matchHere, marker.
    replace ((openTag kind ++ [LBRACE] ++ body ++ [RBRACE] ++ closeTag kind) ++ rest)
      with ((openTag kind ++ [LBRACE]) ++ body ++ RBRACE :: closeTag kind ++ rest)
      by (by rewrite <- !app_assoc).
    by rewrite stripPrefix_app, lazyBody_closed. }
  destruct (openTag_bracket kind) as (open & Hopen).
  unfold marker in *. rewrite Hopen in *. cbn [app] in *.
  by rewrite tokenize_cons, Hm.
Qed.

Lemma marker_bracket (kind : MarkerKind) (body rest : jstring) :
  exists s', marker kind body ++ rest = LBRACKET :: s'.
Proof.
  destruct (openTag_bracket kind) as (open & Hopen). unfold marker. rewrite Hopen.
  cbn [app]. eauto.
Qed.

(** The scan of a text of gaps and markers without stray tags, after any
    text [pre] that joins the first gap. *)
Lemma tokenize_tagged (kind : MarkerKind) (pieces : list (jstring * jstring)) :
  forall pre tail,
  tagFree kind (pre ++ flat_map fst pieces ++ tail) ->
  Forall (fun piece => closedBody kind piece.2) pieces ->
  tokenize kind (pre ++ assemble kind pieces tail) =
    map TChar pre
    ++ flat_map (fun piece => map TChar piece.1 ++ [TMarker (payloadOf piece.2)]) pieces
    ++ map TChar tail.
Proof.
  induction pieces as [|[gap body] pieces IH]; intros pre tail Hfree Hclosed;
    cbn [assemble flat_map fst snd app] in *.
  - rewrite tokenize_tagFree by done. by rewrite map_app.
  - apply Forall_cons in Hclosed as [Hbody Hclosed]. cbn [snd] in Hbody.
    rewrite <- app_assoc in Hfree. rewrite app_assoc in Hfree.
    apply tagFree_app in Hfree as [Hpre Hrest].
    rewrite app_assoc.
    rewrite tokenize_tagFree_app; [|exact Hpre | right; apply marker_bracket].
    rewrite tokenize_closed_marker by done.
    rewrite <- (app_nil_l (assemble kind pieces tail)), IH by done.
    cbn [map app]. by rewrite map_app, <- !app_assoc.
Qed.

Lemma matchAll_tagged (kind : MarkerKind) (pieces : list (jstring * jstring))
    (pre tail : jstring) :
  tagFree kind (pre ++ flat_map fst pieces ++ tail) ->
  Forall (fun piece => closedBody kind piece.2) pieces ->
  matchAll kind (pre ++ assemble kind pieces tail)
    = map (fun piece => payloadOf piece.2) pieces.
Proof.
  intros Hfree Hclosed. unfold matchAll. rewrite tokenize_tagged by done.
  rewrite !flat_map_app, !flat_map_captureOf_chars, app_nil_r. cbn [app].
  clear. induction pieces as [|[gap body] pieces IH]; cbn [flat_map map]; [done|].
  rewrite !flat_map_app, flat_map_captureOf_chars. cbn [flat_map captureOf app fst snd].
  by rewrite IH.
Qed.

Lemma replaceAll_tagged (kind : MarkerKind) (pieces : list (jstring * jstring))
    (pre tail : jstring) :
  tagFree kind (pre ++ flat_map fst pieces ++ tail) ->
  Forall (fun piece => closedBody kind piece.2) pieces ->
  replaceAll kind (pre ++ assemble kind pieces tail)
    = pre ++ flat_map fst pieces ++ tail.
Proof.
  intros Hfree Hclosed. unfold replaceAll. rewrite tokenize_tagged by done.
  rewrite !flat_map_app, !flat_map_charOf_chars. do 2 f_equal.
  clear. induction pieces as [|[gap body] pieces IH]; cbn [flat_map map]; [done|].
  rewrite !flat_map_app, flat_map_charOf_chars. cbn [flat_map charOf app fst snd].
  by rewrite IH, app_nil_r.
Qed.

Lemma matchAll_tagFree (kind : MarkerKind) (s : jstring) :
  tagFree kind s -> matchAll kind s = [].
Proof.
  intros Hs. unfold matchAll. rewrite tokenize_tagFree by done.
  apply flat_map_captureOf_chars.
Qed.

Lemma tagFree_trim (kind : MarkerKind) (s : jstring) :
  tagFree kind s -> tagFree kind (trim s).
Proof.
  intros Hs. destruct (trimStart_pad s) as (pad & E & _).
  destruct (trimEnd_pad (trimStart s)) as (pad' & E' & _). fold (trim s) in E'.
  rewrite E, E' in Hs. apply tagFree_app in Hs as [_ Hs].
  by apply tagFree_app in Hs as [Hs _].
Qed.

Lemma assemble_app (kind : MarkerKind) (pieces1 pieces2 : list (jstring * jstring))
    (tail : jstring) :
  assemble kind (pieces1 ++ pieces2) tail
    = assemble kind pieces1 (assemble kind pieces2 tail).
Proof.
  induction pieces1 as [|[gap body] pieces1 IH]; cbn [app assemble]; [done|].
  by rewrite IH.
Qed.

(** The gaps and markers in front of any text are scanned one by one. *)
Lemma tokenize_assemble_tagged (kind : MarkerKind) (pieces : list (jstring * jstring))
    (rest : jstring) :
  Forall (fun piece => tagFree kind piece.1 /\ closedBody kind piece.2) pieces ->
  tokenize kind (assemble kind pieces rest) =
    flat_map (fun piece => map TChar piece.1 ++ [TMarker (payloadOf piece.2)]) pieces
    ++ tokenize kind rest.
Proof.
  induction 1 as [|[gap body] pieces [Hg Hb] _ IH]; cbn [assemble flat_map]; [done|].
  cbn [fst snd] in *.
  rewrite tokenize_tagFree_app; [|exact Hg | right; apply marker_bracket].
  rewrite tokenize_closed_marker by done.
  rewrite IH. by rewrite <- !app_assoc.
Qed.

Lemma wellTagged_pieces (kind : MarkerKind) (pieces : list (jstring * jstring))
    (tail : jstring) :
  wellTagged kind pieces tail ->
  Forall (fun piece => tagFree kind piece.1 /\ closedBody kind piece.2) pieces.
Proof.
  intros [Hfree Hclosed]. induction Hclosed as [|[gap body] pieces Hb _ IH];
    [constructor|].
  cbn [flat_map fst] in Hfree. rewrite <- app_assoc in Hfree.
  apply tagFree_app in Hfree as [Hg Hrest]. constructor; [by split | by apply IH].
Qed.

(** *** The passes *)

Ltac run :=
  repeat (cbv beta iota zeta delta
            [bind try_catch ret throw get modify perform request Date_now
             fst snd existsSync statSync unlinkSync uploadMediaToDingTalk
             sendFileMessage sendAudioMessage sendVideoMessage
             extractVideoMetadata extractVideoThumbnail tmpdirJoin pushStatus]).

Ltac branch :=
  match goal with
  | |- context [match failure ?a with _ => _ end] => destruct (failure a)
  | |- context [if negb (flag ?a) then _ else _] => destruct (flag a); cbn [negb]
  | |- context [if flag ?a then _ else _] => destruct (flag a)
  | |- context [if negb (truthy ?a) then _ else _] => destruct (truthy a); cbn [negb]
  | |- context [if truthy ?a then _ else _] => destruct (truthy a)
  | |- context [if ?a >? ?b then _ else _] => destruct (a >? b)
  end.

Section Passes.
Variable JSON_parse : jstring -> option MarkerPayload.
Variable basename : jstring -> jstring.
Variable String_of : JValue -> option jstring.

(** An iteration of the processing loop of the file pass adds exactly one
    status line when the file name has a string form, and throws
    otherwise: the [catch] block builds its line from the same name. *)
Lemma fileBody_named (context : ProcessContext) (oapiToken : jstring)
    (fileInfo : MarkerPayload) (name : jstring)
    (u : unit) (l : list StatusLine) (w : World) :
  templateOf String_of (default JNull (p_fileName fileInfo)) = Some name ->
  exists line u' w',
    fileBody String_of context oapiToken fileInfo ((u, l), w)
      = (Ok tt, ((u', l ++ [line]), w')).
Proof.
  intros Hname. unfold fileBody, pushNamed. rewrite Hname.
  destruct (default JNull (p_path fileInfo)); run; repeat (branch; run); eauto.
Qed.

Lemma fileBody_unnamed (context : ProcessContext) (oapiToken : jstring)
    (fileInfo : MarkerPayload) (u : unit) (l : list StatusLine) (w : World) :
  templateOf String_of (default JNull (p_fileName fileInfo)) = None ->
  exists st, fileBody String_of context oapiToken fileInfo ((u, l), w)
             = (Throw TypeError, st).
Proof.
  intros Hname. unfold fileBody, pushNamed. rewrite Hname.
  destruct (default JNull (p_path fileInfo)); run; repeat (branch; run); eauto.
Qed.

(** Every iteration of the processing loops of the audio and video passes
    ends normally and adds exactly one status line. *)
Lemma audioBody_one (context : ProcessContext) (oapiToken path : jstring)
    (u : unit) (l : list StatusLine) (w : World) :
  exists line u' w',
    audioBody basename context oapiToken path ((u, l), w)
      = (Ok tt, ((u', l ++ [line]), w')).
Proof.
  unfold audioBody. run. repeat (branch; run); eauto.
Qed.

Lemma videoBody_one (context : ProcessContext) (oapiToken path : jstring)
    (t : jstring) (l : list StatusLine) (w : World) :
  exists line t' w',
    videoBody basename context oapiToken path ((t, l), w)
      = (Ok tt, ((t', l ++ [line]), w')).
Proof.
  unfold videoBody. run. repeat (branch; run); eauto.
Qed.

Lemma forEach_one {A Y} (body : A -> M (Y * list StatusLine) unit) (items : list A) :
  (forall item y l w, exists line y' w',
     body item ((y, l), w) = (Ok tt, ((y', l ++ [line]), w'))) ->
  forall y l w, exists lines y' w',
    forEach items body ((y, l), w) = (Ok tt, ((y', l ++ lines), w')) /\
    length lines = length items.
Proof.
  intros Hbody. induction items as [|item items IH]; intros y l w; cbn [forEach].
  - exists [], y, w. by rewrite app_nil_r.
  - destruct (Hbody item y l w) as (line & y1 & w1 & E1).
    destruct (IH y1 (l ++ [line]) w1) as (lines & y2 & w2 & E2 & Hlen).
    exists (line :: lines), y2, w2. unfold bind. rewrite E1, E2.
    rewrite <- app_assoc. split; [reflexivity | cbn [length]; lia].
Qed.

(** A loop whose body adds one line for a good item and throws for any
    other: it adds one line per item when all are good, and throws at the
    first that is not. *)
Lemma forEach_good {A Y} (body : A -> M (Y * list StatusLine) unit)
    (good : A -> bool) (items : list A) :
  (forall item y l w, good item = true ->
     exists line y' w', body item ((y, l), w) = (Ok tt, ((y', l ++ [line]), w'))) ->
  (forall item y l w, good item = false ->
     exists st, body item ((y, l), w) = (Throw TypeError, st)) ->
  forall y l w,
    (forallb good items = true ->
     exists lines y' w',
       forEach items body ((y, l), w) = (Ok tt, ((y', l ++ lines), w')) /\
       length lines = length items) /\
    (forallb good items = false ->
     exists st, forEach items body ((y, l), w) = (Throw TypeError, st)).
Proof.
  intros Hgood Hbad. induction items as [|item items IH]; intros y l w;
    cbn [forEach forallb].
  - split; [|done]. intros _. exists [], y, w. by rewrite app_nil_r.
  - unfold bind. destruct (good item) eqn:Eg; cbn [andb].
    + destruct (Hgood item y l w Eg) as (line & y1 & w1 & E1). rewrite E1.
      destruct (IH y1 (l ++ [line]) w1) as [Hok Hthrow]. split.
      * intros Hall. destruct (Hok Hall) as (lines & y2 & w2 & E2 & Hlen).
        exists (line :: lines), y2, w2. rewrite E2, <- app_assoc.
        split; [reflexivity | cbn [length]; lia].
      * exact Hthrow.
    + destruct (Hbad item y l w Eg) as (st & E1). rewrite E1.
      split; [done | eauto].
Qed.

(** The parsing loop of the audio and video passes ends normally; each
    payload that parses adds one entry, a path found or what stands for one
    that was not, the others nothing; the entries not found are all
    strings exactly when every payload is nameable. *)
Lemma mediaParse_loop (matches : list jstring) :
  forall (found : list jstring) (invalid : list JValue) (w : World),
  exists found' invalid' w',
    forEach matches (mediaParseBody JSON_parse) ((found, invalid), w)
      = (Ok tt, ((found ++ found', invalid ++ invalid'), w')) /\
    (length found' + length invalid')%nat
      = length (List.filter (reported JSON_parse AUDIO) matches) /\
    forallb isString invalid'
      = forallb (nameable JSON_parse String_of AUDIO) matches.
Proof.
  induction matches as [|capture matches IH]; intros found invalid w;
    cbn [forEach List.filter forallb].
  - exists [], [], w. by rewrite !app_nil_r.
  - unfold bind, mediaParseBody at 1, reported at 1, nameable at 1.
    destruct (JSON_parse capture) as [info|].
    + destruct (p_path info) as [[|b|n|path|items|members]|]; run;
        try (destruct (truthy path); run; [destruct (flag (answer w))|]);
        match goal with
        | |- context [forEach _ _ ((?f, ?i), ?w1)] =>
            destruct (IH f i w1) as (found' & invalid' & w' & E & Hlen & Hstr)
        end; rewrite E;
        first
          [ eexists (_ :: found'), invalid', w'; rewrite <- app_assoc;
            split; [reflexivity|]; split; [cbn [length]; lia | exact Hstr]
          | eexists found', (_ :: invalid'), w'; rewrite <- app_assoc;
            split; [reflexivity|]; split; [cbn [length]; lia|];
            cbn [forallb truthyValue]; rewrite Hstr;
            repeat match goal with
                   | |- context [if ?c then _ else _] => destruct c
                   end; reflexivity ].
    + run. destruct (IH found invalid w) as (found' & invalid' & w' & E & Hlen & Hstr).
      rewrite E. exists found', invalid', w'. cbn [andb]. by repeat split.
Qed.

(** The loop over what was not found adds one line per entry when all are
    strings and throws otherwise, without a call. *)
Lemma notFound_loop (line : jstring -> StatusLine) (invalid : list JValue)
    (l : list StatusLine) (w : World) :
  (forallb isString invalid = true ->
   exists lines,
     forEach invalid (notFoundBody basename line) ((tt, l), w)
       = (Ok tt, ((tt, l ++ lines), w)) /\
     length lines = length invalid) /\
  (forallb isString invalid = false ->
   exists l',
     forEach invalid (notFoundBody basename line) ((tt, l), w)
       = (Throw TypeError, ((tt, l'), w))).
Proof.
  revert l. induction invalid as [|value invalid IH]; intros l; cbn [forEach forallb].
  - split; [|done]. intros _. exists []. by rewrite app_nil_r.
  - unfold bind, notFoundBody at 1 3.
    destruct value as [|b|n|path|items|members]; cbn [isString andb]; run;
      try (split; [done | eauto]).
    destruct (IH (l ++ [line (basename path)])) as [Hok Hthrow]. split.
    + intros Hall. destruct (Hok Hall) as (lines & E & Hlen).
      exists (line (basename path) :: lines). rewrite E, <- app_assoc.
      split; [reflexivity | cbn [length]; lia].
    + exact Hthrow.
Qed.

Lemma fileInfos_length (matches : list jstring) :
  length (flat_map (fileInfoOf JSON_parse) matches)
    = length (List.filter (reported JSON_parse FILE) matches).
Proof.
  induction matches as [|capture matches IH]; cbn [flat_map List.filter]; [done|].
  rewrite length_app, IH. unfold fileInfoOf, reported.
  destruct (JSON_parse capture) as [info|]; [|done].
  by destruct (truthyJson (p_path info) && truthyJson (p_fileName info)).
Qed.

Lemma fileInfos_nameable (matches : list jstring) :
  forallb (fun fileInfo =>
             bool_decide (is_Some (templateOf String_of
                                     (default JNull (p_fileName fileInfo)))))
          (flat_map (fileInfoOf JSON_parse) matches)
    = forallb (nameable JSON_parse String_of FILE) matches.
Proof.
  induction matches as [|capture matches IH]; cbn [flat_map forallb]; [done|].
  rewrite forallb_app, IH. f_equal. unfold fileInfoOf, nameable.
  destruct (JSON_parse capture) as [info|]; [|done].
  destruct (truthyJson (p_path info) && truthyJson (p_fileName info)); [|done].
  cbn [forallb]. rewrite andb_true_r.
  by destruct (templateOf String_of (default JNull (p_fileName info))).
Qed.

(** With a credential, a pass whose status lines can all be built ends
    normally; its text is the input with every match removed, trimmed; it
    writes one status line per capture it reports.  A pass with a status
    line that cannot be built throws. *)
Lemma processMarkers_run (kind : MarkerKind) (text : jstring)
    (context : ProcessContext) (w : World) :
  truthyField (ctx_oapiToken context) = true ->
  (forallb (nameable JSON_parse String_of kind) (matchAll kind text) = true ->
   exists result w',
     processMarkers JSON_parse basename String_of kind text context (tt, w)
       = (Ok result, (tt, w')) /\
     content result = trim (replaceAll kind text) /\
     mediaMessages result = [] /\
     length (statusMessages result)
       = length (List.filter (reported JSON_parse kind) (matchAll kind text))) /\
  (forallb (nameable JSON_parse String_of kind) (matchAll kind text) = false ->
   exists w',
     processMarkers JSON_parse basename String_of kind text context (tt, w)
       = (Throw TypeError, (tt, w'))).
Proof.
  intros Htok. destruct kind; cbn [processMarkers].
  - unfold processFileMarkers. rewrite Htok. cbn [negb].
    pose proof (fileInfos_length (matchAll FILE text)) as Hlen.
    rewrite <- (fileInfos_nameable (matchAll FILE text)).
    destruct (flat_map (fileInfoOf JSON_parse) (matchAll FILE text))
      as [|fileInfo fileInfos] eqn:Einfos.
    + split; [|done]. intros _. do 2 eexists. split; [reflexivity|]. by repeat split.
    + destruct (forEach_good
                  (fileBody String_of context (default [] (ctx_oapiToken context)))
                  (fun fileInfo =>
                     bool_decide (is_Some (templateOf String_of
                                             (default JNull (p_fileName fileInfo)))))
                  (fileInfo :: fileInfos)) with (y := tt) (l := @nil StatusLine) (w := w)
        as [Hok Hthrow].
      * intros item y l w0 [name Hname]%bool_decide_eq_true.
        by apply (fileBody_named _ _ _ name).
      * intros item y l w0 Hnone%bool_decide_eq_false.
        apply fileBody_unnamed.
        destruct (templateOf String_of (default JNull (p_fileName item))) eqn:E;
          [|done]. exfalso. apply Hnone. eauto.
      * split.
        -- intros Hall. destruct (Hok Hall) as (lines & u' & w' & E & Hl).
           unfold bind, runLocal. cbn [fst snd]. rewrite E.
           do 2 eexists. split; [reflexivity|]. split; [reflexivity|].
           split; [reflexivity|].
           cbn [statusMessages fst snd app]. by rewrite Hl, Hlen.
        -- intros Hall. destruct (Hthrow Hall) as ([[u' l'] w'] & E).
           unfold bind, runLocal. cbn [fst snd]. rewrite E. eauto.
  - unfold processVideoMarkers. rewrite Htok. cbn [negb].
    destruct (mediaParse_loop (matchAll VIDEO text) [] [] w)
      as (found & invalid & w1 & E1 & Hlen & Hstr).
    change (reported JSON_parse AUDIO) with (reported JSON_parse VIDEO) in Hlen.
    change (nameable JSON_parse String_of AUDIO)
      with (nameable JSON_parse String_of VIDEO) in Hstr.
    rewrite <- Hstr.
    destruct (notFound_loop VideoNotFound invalid [] w1) as [Hok Hthrow]. split.
    + intros Hall. destruct (Hok Hall) as (lines & E2 & Hl2).
      unfold bind at 1, runLocal at 1. cbn [fst snd]. rewrite E1. cbn [fst snd app].
      unfold bind at 1, runLocal at 1. cbn [fst snd]. rewrite E2. cbn [fst snd app].
      destruct found as [|path found].
      * do 2 eexists. split; [reflexivity|]. split; [reflexivity|].
        split; [reflexivity|].
        cbn [statusMessages]. cbn [length] in Hlen. by rewrite Hl2.
      * destruct (forEach_one
                    (videoBody basename context (default [] (ctx_oapiToken context)))
                    (path :: found)
                    (videoBody_one context (default [] (ctx_oapiToken context)))
                    [] lines w1)
          as (lines' & t' & w' & E & Hl).
        unfold bind, runLocal. cbn [fst snd]. rewrite E.
        do 2 eexists. split; [reflexivity|]. split; [reflexivity|].
        split; [reflexivity|].
        cbn [statusMessages fst snd]. rewrite length_app, Hl2, Hl.
        rewrite <- Hlen. lia.
    + intros Hall. destruct (Hthrow Hall) as (l' & E2).
      unfold bind at 1, runLocal at 1. cbn [fst snd]. rewrite E1. cbn [fst snd app].
      unfold bind at 1, runLocal at 1. cbn [fst snd]. rewrite E2. eauto.
  - unfold processAudioMarkers. rewrite Htok. cbn [negb].
    destruct (mediaParse_loop (matchAll AUDIO text) [] [] w)
      as (found & invalid & w1 & E1 & Hlen & Hstr).
    rewrite <- Hstr.
    destruct (notFound_loop AudioNotFound invalid [] w1) as [Hok Hthrow]. split.
    + intros Hall. destruct (Hok Hall) as (lines & E2 & Hl2).
      unfold bind at 1, runLocal at 1. cbn [fst snd]. rewrite E1. cbn [fst snd app].
      unfold bind at 1, runLocal at 1. cbn [fst snd]. rewrite E2. cbn [fst snd app].
      destruct found as [|path found].
      * do 2 eexists. split; [reflexivity|]. split; [reflexivity|].
        split; [reflexivity|].
        cbn [statusMessages]. cbn [length] in Hlen. by rewrite Hl2.
      * destruct (forEach_one
                    (audioBody basename context (default [] (ctx_oapiToken context)))
                    (path :: found)
                    (audioBody_one context (default [] (ctx_oapiToken context)))
                    tt lines w1)
          as (lines' & u' & w' & E & Hl).
        unfold bind, runLocal. cbn [fst snd]. rewrite E.
        do 2 eexists. split; [reflexivity|]. split; [reflexivity|].
        split; [reflexivity|].
        cbn [statusMessages fst snd]. rewrite length_app, Hl2, Hl.
        rewrite <- Hlen. lia.
    + intros Hall. destruct (Hthrow Hall) as (l' & E2).
      unfold bind at 1, runLocal at 1. cbn [fst snd]. rewrite E1. cbn [fst snd app].
      unfold bind at 1, runLocal at 1. cbn [fst snd]. rewrite E2. eauto.
Qed.

Lemma forEach_skip {X A} (body : A -> M X unit) (l1 l2 : list A) (c : A) :
  (forall s, body c s = (Ok tt, s)) ->
  forall s, forEach (l1 ++ c :: l2) body s = forEach (l1 ++ l2) body s.
Proof.
  intros Hc. induction l1 as [|a l1 IH]; intros s; cbn [app forEach]; unfold bind.
  - by rewrite Hc.
  - destruct (body a s) as [[[]|e] s']; [apply IH | reflexivity].
Qed.

(** A pass looks at its text only through the captures and the text left
    by the scan, and a capture that does not parse leaves no trace in it. *)
Lemma processMarkers_skip (kind : MarkerKind) (text1 text2 : jstring)
    (l1 l2 : list jstring) (capture : jstring) (context : ProcessContext)
    (w : World) :
  matchAll kind text1 = l1 ++ capture :: l2 ->
  matchAll kind text2 = l1 ++ l2 ->
  replaceAll kind text1 = replaceAll kind text2 ->
  JSON_parse capture = None ->
  processMarkers JSON_parse basename String_of kind text1 context (tt, w)
    = processMarkers JSON_parse basename String_of kind text2 context (tt, w).
Proof.
  intros H1 H2 Hr Hp.
  assert (Hskip : forall s, mediaParseBody JSON_parse capture s = (Ok tt, s)).
  { intros s. unfold mediaParseBody. by rewrite Hp. }
  destruct kind; cbn [processMarkers].
  - unfold processFileMarkers. rewrite H1, H2, Hr.
    assert (Hf : fileInfoOf JSON_parse capture = [])
      by (unfold fileInfoOf; by rewrite Hp).
    rewrite !flat_map_app. cbn [flat_map]. by rewrite !Hf.
  - unfold processVideoMarkers. rewrite H1, H2, Hr.
    destruct (negb _); [reflexivity|].
    unfold bind at 1 4, runLocal at 1 4. cbn [fst snd].
    by rewrite (forEach_skip _ l1 l2 capture Hskip).
  - unfold processAudioMarkers. rewrite H1, H2, Hr.
    destruct (negb _); [reflexivity|].
    unfold bind at 1 4, runLocal at 1 4. cbn [fst snd].
    by rewrite (forEach_skip _ l1 l2 capture Hskip).
Qed.

End Passes.

(** C7 (as amended).  With a credential, the pass of a kind looks at its
    text through one left-to-right scan: when the status line of every
    marker found can be built (in the file pass a reported payload has a
    file name with a string form, in the other two a truthy path is a
    string) the pass ends normally, its text is the input without the
    markers found, trimmed, it adds no media message and it writes exactly
    one status line per marker found that it reports (whose payload parses
    and, in the file pass, has a truthy path and file name); otherwise the
    pass throws a [TypeError].  When the text is made of gaps and markers,
    where the gaps and the tail joined hold no opening tag of the kind and
    no payload holds a line terminator or the closing tag of the kind, the
    markers found are exactly the markers written, the text left is the
    gaps and the tail joined, and once trimmed it holds no marker of the
    kind. *)
Theorem marker_pass_round_trip
    (JSON_parse : jstring -> option MarkerPayload) (basename : jstring -> jstring)
    (String_of : JValue -> option jstring)
    (kind : MarkerKind) (text : jstring) (context : ProcessContext) (w : World) :
  truthyField (ctx_oapiToken context) = true ->
  (forallb (nameable JSON_parse String_of kind) (matchAll kind text) = true ->
   exists result w',
     processMarkers JSON_parse basename String_of kind text context (tt, w)
       = (Ok result, (tt, w')) /\
     content result = trim (replaceAll kind text) /\
     mediaMessages result = [] /\
     length (statusMessages result)
       = length (List.filter (reported JSON_parse kind) (matchAll kind text))) /\
  (forallb (nameable JSON_parse String_of kind) (matchAll kind text) = false ->
   exists w',
     processMarkers JSON_parse basename String_of kind text context (tt, w)
       = (Throw TypeError, (tt, w'))) /\
  forall pieces tail,
    text = assemble kind pieces tail ->
    wellTagged kind pieces tail ->
    matchAll kind text = map (fun piece => payloadOf piece.2) pieces /\
    replaceAll kind text = flat_map fst pieces ++ tail /\
    matchAll kind (trim (flat_map fst pieces ++ tail)) = [].
Proof.
  intros Htok.
  destruct (processMarkers_run JSON_parse basename String_of kind text context w Htok)
    as [Hok Hthrow].
  split; [exact Hok|]. split; [exact Hthrow|].
  intros pieces tail -> [Hfree Hclosed].
  split; [|split].
  - by apply (matchAll_tagged kind pieces []).
  - by apply (replaceAll_tagged kind pieces []).
  - by apply matchAll_tagFree, tagFree_trim.
Qed.

Lemma marker_pass_round_trip_witness :
  (exists result w',
     processMarkers sampleParse sampleBasename sampleString AUDIO
       (lit "see [doc](http://x) " ++ marker AUDIO (litq "'path':'/tmp/a.ogg'")
          ++ lit " - [ ] done")
       sampleContext (tt, scripted [])
       = (Ok result, (tt, w')) /\
     content result = lit "see [doc](http://x)  - [ ] done" /\
     length (statusMessages result) = 1%nat) /\
  matchAll AUDIO (lit "see [doc](http://x)  - [ ] done") = [] /\
  exists w',
    processMarkers sampleParse sampleBasename sampleString AUDIO
      (marker AUDIO (litq "'path':5")) sampleContext (tt, scripted [])
      = (Throw TypeError, (tt, w')).
Proof.
  destruct (marker_pass_round_trip sampleParse sampleBasename sampleString AUDIO
              (lit "see [doc](http://x) " ++ marker AUDIO (litq "'path':'/tmp/a.ogg'")
                 ++ lit " - [ ] done")
              sampleContext (scripted []) eq_refl)
    as (Hok & _ & Htext).
  destruct (Hok eq_refl) as (result & w' & E & Hc & _ & Hl).
  destruct (Htext [(lit "see [doc](http://x) ", litq "'path':'/tmp/a.ogg'")]
                  (lit " - [ ] done") eq_refl)
    as (_ & Hr & Hnone).
  { split; [reflexivity|]. repeat constructor. }
  split; [|split].
  - exists result, w'. split; [exact E|]. rewrite Hc, Hr, Hl. by split.
  - exact Hnone.
  - apply (marker_pass_round_trip sampleParse sampleBasename sampleString AUDIO
             (marker AUDIO (litq "'path':5")) sampleContext (scripted []) eq_refl).
    reflexivity.
Defined.

(** C7 as stated fails: removing the markers found by the scan can join
    the text around them into a new marker.  The text below holds one
    marker of the audio kind; the output of the audio pass, with a
    credential, still holds one. *)
Lemma marker_left_after_pass_counterexample :
  matchAll AUDIO
    (lit "[DINGTALK_AUDIO][DINGTALK_AUDIO]{}[/DINGTALK_AUDIO]{}[/DINGTALK_AUDIO]")
    = [lit "{}"] /\
  exists result,
    outcome (processMarkers sampleParse sampleBasename sampleString AUDIO
      (lit "[DINGTALK_AUDIO][DINGTALK_AUDIO]{}[/DINGTALK_AUDIO]{}[/DINGTALK_AUDIO]")
      sampleContext (tt, scripted [])) = Ok result /\
    content result = lit "[DINGTALK_AUDIO]{}[/DINGTALK_AUDIO]" /\
    matchAll AUDIO (content result) = [lit "{}"].
Proof.
  split; [vm_compute; reflexivity|].
  eexists. split; [vm_compute; reflexivity|]. split; vm_compute; reflexivity.
Qed.

(** C8 (as amended).  In a text made of gaps and markers, where the gaps
    and the tail joined hold no opening tag of the kind and no payload
    holds a line terminator or the closing tag of the kind, a marker whose
    payload does not parse is found by the scan and removed from the text,
    and that is all: the pass returns the same text and status lines,
    makes the same calls and ends the same way as on the text without that
    marker, so no status line stands for it and the other markers are
    processed as usual. *)
Theorem malformed_marker_dropped
    (JSON_parse : jstring -> option MarkerPayload) (basename : jstring -> jstring)
    (String_of : JValue -> option jstring)
    (kind : MarkerKind) (pieces1 pieces2 : list (jstring * jstring))
    (gap body tail : jstring) (context : ProcessContext) (w : World) :
  wellTagged kind (pieces1 ++ (gap, body) :: pieces2) tail ->
  JSON_parse (payloadOf body) = None ->
  matchAll kind (assemble kind (pieces1 ++ (gap, body) :: pieces2) tail)
    = map (fun piece => payloadOf piece.2) pieces1
      ++ payloadOf body :: map (fun piece => payloadOf piece.2) pieces2 /\
  matchAll kind (assemble kind pieces1 (gap ++ assemble kind pieces2 tail))
    = map (fun piece => payloadOf piece.2) pieces1
      ++ map (fun piece => payloadOf piece.2) pieces2 /\
  replaceAll kind (assemble kind (pieces1 ++ (gap, body) :: pieces2) tail)
    = replaceAll kind (assemble kind pieces1 (gap ++ assemble kind pieces2 tail)) /\
  processMarkers JSON_parse basename String_of kind
      (assemble kind (pieces1 ++ (gap, body) :: pieces2) tail) context (tt, w)
    = processMarkers JSON_parse basename String_of kind
        (assemble kind pieces1 (gap ++ assemble kind pieces2 tail)) context (tt, w).
Proof.
  intros Hw Hp. pose proof Hw as [Hfree Hclosed].
  assert (Hm1 : matchAll kind (assemble kind (pieces1 ++ (gap, body) :: pieces2) tail)
                = map (fun piece => payloadOf piece.2) pieces1
                  ++ payloadOf body :: map (fun piece => payloadOf piece.2) pieces2).
  { pose proof (matchAll_tagged kind _ [] tail Hfree Hclosed) as H.
    cbn [app] in H. rewrite H. by rewrite map_app. }
  assert (Hr1 : replaceAll kind (assemble kind (pieces1 ++ (gap, body) :: pieces2) tail)
                = flat_map fst pieces1 ++ gap ++ flat_map fst pieces2 ++ tail).
  { pose proof (replaceAll_tagged kind _ [] tail Hfree Hclosed) as H.
    cbn [app] in H. rewrite H.
    rewrite flat_map_app. cbn [flat_map fst app]. by rewrite <- !app_assoc. }
  apply wellTagged_pieces in Hw.
  apply Forall_app in Hw as [Hw1 _].
  apply Forall_app in Hclosed as [_ [_ Hclosed2]%Forall_cons].
  rewrite flat_map_app in Hfree. cbn [flat_map fst] in Hfree.
  rewrite <- !app_assoc in Hfree. apply tagFree_app in Hfree as [_ Hfree].
  assert (Ht2 : tokenize kind (assemble kind pieces1 (gap ++ assemble kind pieces2 tail))
                = flat_map (fun piece => map TChar piece.1
                                         ++ [TMarker (payloadOf piece.2)]) pieces1
                  ++ map TChar gap
                  ++ flat_map (fun piece => map TChar piece.1
                                            ++ [TMarker (payloadOf piece.2)]) pieces2
                  ++ map TChar tail).
  { rewrite tokenize_assemble_tagged by done. by rewrite tokenize_tagged. }
  assert (Hm2 : matchAll kind (assemble kind pieces1 (gap ++ assemble kind pieces2 tail))
                = map (fun piece => payloadOf piece.2) pieces1
                  ++ map (fun piece => payloadOf piece.2) pieces2).
  { rewrite <- (matchAll_tagged kind pieces2 gap tail Hfree Hclosed2).
    unfold matchAll. rewrite Ht2, tokenize_tagged by done.
    rewrite flat_map_app. f_equal.
    clear. induction pieces1 as [|[g b] pieces1 IH]; cbn [flat_map map]; [done|].
    rewrite !flat_map_app, flat_map_captureOf_chars.
    cbn [flat_map captureOf app fst snd]. by rewrite IH. }
  assert (Hr2 : replaceAll kind (assemble kind pieces1 (gap ++ assemble kind pieces2 tail))
                = flat_map fst pieces1 ++ gap ++ flat_map fst pieces2 ++ tail).
  { rewrite <- (replaceAll_tagged kind pieces2 gap tail Hfree Hclosed2).
    unfold replaceAll. rewrite Ht2, tokenize_tagged by done.
    rewrite flat_map_app. f_equal.
    clear. induction pieces1 as [|[g b] pieces1 IH]; cbn [flat_map map]; [done|].
    rewrite !flat_map_app, flat_map_charOf_chars.
    cbn [flat_map charOf app fst snd]. by rewrite IH, app_nil_r. }
  split; [exact Hm1|]. split; [exact Hm2|]. split; [by rewrite Hr1, Hr2|].
  eapply processMarkers_skip; [exact Hm1 | exact Hm2 | by rewrite Hr1, Hr2 | exact Hp].
Qed.

Lemma malformed_marker_dropped_witness :
  processMarkers sampleParse sampleBasename sampleString AUDIO
    (lit "see [1] " ++ marker AUDIO (lit "oops") ++ lit " and "
       ++ marker AUDIO (litq "'path':'/tmp/a.ogg'") ++ lit " done")
    sampleContext (tt, scripted [])
  = processMarkers sampleParse sampleBasename sampleString AUDIO
      (lit "see [1] " ++ lit " and " ++ marker AUDIO (litq "'path':'/tmp/a.ogg'")
         ++ lit " done")
      sampleContext (tt, scripted []).
Proof.
  apply (malformed_marker_dropped sampleParse sampleBasename sampleString AUDIO []
           [(lit " and ", litq "'path':'/tmp/a.ogg'")]
           (lit "see [1] ") (lit "oops") (lit " done") sampleContext (scripted [])).
  - split; [reflexivity|]. repeat constructor.
  - reflexivity.
Defined.

(** C8 as stated fails: no status line is substituted for a marker whose
    payload does not parse; the parse error is only logged. *)
Lemma malformed_marker_silent_counterexample :
  sampleParse (lit "{oops}") = None /\
  outcome (processMarkers sampleParse sampleBasename sampleString AUDIO
             (lit "see [DINGTALK_AUDIO]{oops}[/DINGTALK_AUDIO] done")
             sampleContext (tt, scripted []))
    = Ok (mkResult (lit "see  done") [] []).
Proof. split; vm_compute; reflexivity. Qed.

End MarkersFacts.

(** ** Sessions: the other operations of the manager *)

Module SessionOpsFacts.
Import Session SessionFacts.

(** *** Strings *)

Lemma lit_inj (s1 s2 : string) : lit s1 = lit s2 -> s1 = s2.
Proof.
  unfold lit. intros H.
  rewrite <- (string_of_list_ascii_of_string s1), <- (string_of_list_ascii_of_string s2).
  f_equal. revert H.
  generalize (list_ascii_of_string s1) (list_ascii_of_string s2).
  induction l as [|a l IH]; intros [|b l']; cbn [map]; try discriminate; [done|].
  intros [= Hab Hl]. f_equal; [|by apply IH].
  by rewrite <- (ascii_N_embedding a), <- (ascii_N_embedding b), Hab.
Qed.

Lemma Number_toString_inj (z1 z2 : Z) :
  Number_toString z1 = Number_toString z2 -> z1 = z2.
Proof.
  unfold Number_toString. intros H%lit_inj.
  assert (Hnn : forall z, NilZero.int_of_string (NilZero.string_of_int (Z.to_int z))
                          = Some (Z.to_int z)).
  { intros z. apply NilZero.isi; intros E.
    - pose proof (DecimalZ.of_to z) as Hz. rewrite E in Hz. cbn in Hz. subst z.
      discriminate E.
    - pose proof (DecimalZ.of_to z) as Hz. rewrite E in Hz. cbn in Hz. subst z.
      discriminate E. }
  apply DecimalZ.to_int_inj.
  pose proof (Hnn z1) as H1. rewrite H, Hnn in H1. congruence.
Qed.

Lemma mintedKey_inj (sender : jstring) (t1 t2 : Z) :
  mintedKey sender t1 = mintedKey sender t2 -> t1 = t2.
Proof.
  unfold mintedKey. intros H.
  apply app_inv_head in H. apply app_inv_head in H. apply app_inv_head in H.
  by apply Number_toString_inj.
Qed.

Lemma mintedKey_not_first (sender : jstring) (t : Z) :
  mintedKey sender t <> firstKey sender.
Proof.
  unfold mintedKey, firstKey. intros H.
  rewrite <- (app_nil_r (lit "dingtalk:" ++ sender)) in H.
  rewrite <- app_assoc in H.
  apply app_inv_head in H. apply app_inv_head in H. discriminate H.
Qed.

Lemma isSpace_trimStart (pad s : jstring) :
  Forall (fun c => isSpace c = true) pad -> trimStart (pad ++ s) = trimStart s.
Proof.
  induction 1 as [|c pad Hc _ IH]; [done|].
  cbn [app trimStart]. unfold isSpace in Hc. by rewrite Hc.
Qed.

Lemma trimStart_app (s t : jstring) :
  trimStart (s ++ t) = match trimStart s with
                       | [] => trimStart t
                       | _ :: _ => trimStart s ++ t
                       end.
Proof.
  induction s as [|c s IH]; [done|].
  cbn [app trimStart]. destruct (isWhiteSpace c || isLineTerminator c); [exact IH | done].
Qed.

Lemma trim_padded (pre s post : jstring) :
  Forall (fun c => isSpace c = true) pre ->
  Forall (fun c => isSpace c = true) post ->
  trim (pre ++ s ++ post) = trim s.
Proof.
  intros Hpre Hpost. unfold trim. rewrite (isSpace_trimStart pre) by done.
  assert (Hend : forall x, trimEnd (x ++ post) = trimEnd x).
  { intros x. unfold trimEnd. rewrite rev_app_distr.
    rewrite isSpace_trimStart; [done|]. by apply Forall_rev. }
  rewrite trimStart_app.
  destruct (trimStart s) as [|c r] eqn:E.
  - rewrite <- (app_nil_r post), isSpace_trimStart by done. done.
  - apply Hend.
Qed.

(** *** Session records *)

Lemma getSessionKey_stored (now : Z) (sender : jstring) (force : bool)
    (timeout : Z) (m : gmap jstring UserSession) :
  (getSessionKey now sender force timeout m).2 !! sender =
    Some (mkUserSession now (sessionKey (getSessionKey now sender force timeout m).1)).
Proof.
  unfold getSessionKey.
  destruct force; [|destruct (m !! sender) as [s|]; [destruct (_ >? _)|]];
    cbn [fst snd sessionKey]; apply lookup_insert_eq.
Qed.

Lemma getSessionKey_continue (now : Z) (sender : jstring) (timeout : Z)
    (m : gmap jstring UserSession) (s : UserSession) :
  m !! sender = Some s -> now - lastActivity s <= timeout ->
  getSessionKey now sender false timeout m =
    (mkSessionContext (sessionId s) false false,
     <[sender := mkUserSession now (sessionId s)]> m).
Proof.
  intros Hs Hle. unfold getSessionKey. rewrite Hs.
  destruct (Z.gtb_spec (now - lastActivity s) timeout); [lia | done].
Qed.

(** X1.  [cleanupExpiredSessions] returns the number of records it removed;
    a record survives exactly when its last activity is at most [maxAge]
    old, and survivors are left as they were. *)
Theorem cleanupExpiredSessions_accounting (now maxAge : Z)
    (m : gmap jstring UserSession) :
  ((cleanupExpiredSessions now maxAge m).1
     + getActiveSessionCount (cleanupExpiredSessions now maxAge m).2
   = getActiveSessionCount m)%nat /\
  (forall sender s,
     getSession sender (cleanupExpiredSessions now maxAge m).2 = Some s <->
     getSession sender m = Some s /\ now - lastActivity s <= maxAge).
Proof.
  unfold cleanupExpiredSessions, getActiveSessionCount, getSession. cbn [fst snd].
  split.
  - rewrite <- (map_filter_union_complement
                  (fun kv : jstring * UserSession => now - lastActivity kv.2 > maxAge) m)
      at 3.
    rewrite map_size_disj_union; [done|].
    apply map_disjoint_filter_complement.
  - intros sender s. rewrite map_lookup_filter_Some. cbn [snd].
    split; intros [? ?]; split; auto; lia.
Qed.

Lemma cleanupExpiredSessions_accounting_witness :
  (cleanupExpiredSessions 5000 3000 sampleSessions).1 = 1%nat /\
  getSession (lit "u1") (cleanupExpiredSessions 5000 3500 sampleSessions).2 = None.
Proof.
  destruct (cleanupExpiredSessions_accounting 5000 3000 sampleSessions) as [Hn _].
  destruct (cleanupExpiredSessions_accounting 5000 3500 sampleSessions) as [_ Hs].
  split.
  - vm_compute in Hn. vm_compute. reflexivity.
  - destruct (getSession (lit "u1") (cleanupExpiredSessions 5000 3500 sampleSessions).2)
      as [s|] eqn:E; [|reflexivity].
    apply Hs in E as [E Hage]. vm_compute in E. injection E as <-.
    vm_compute in Hage. exfalso. apply Hage. reflexivity.
Defined.

(** X2.  Two messages of one sender that are at most [sessionTimeout] apart
    share a session: whatever the first call did (forced, rolled over,
    first or continued), the next unforced call returns the key the first
    one returned and reports no new session. *)
Theorem session_continues (now1 now2 : Z) (sender : jstring) (force : bool)
    (timeout : Z) (m : gmap jstring UserSession) :
  now2 - now1 <= timeout ->
  getSessionKey now2 sender false timeout
    (getSessionKey now1 sender force timeout m).2 =
  (mkSessionContext (sessionKey (getSessionKey now1 sender force timeout m).1)
     false false,
   <[sender := mkUserSession now2
                 (sessionKey (getSessionKey now1 sender force timeout m).1)]>
     (getSessionKey now1 sender force timeout m).2).
Proof.
  intros Hle.
  apply (getSessionKey_continue now2 sender timeout _
           (mkUserSession now1
              (sessionKey (getSessionKey now1 sender force timeout m).1))).
  - apply getSessionKey_stored.
  - exact Hle.
Qed.

Lemma session_continues_witness :
  sessionKey
    (getSessionKey 2500 (lit "u1") false 1000
       (getSessionKey 2000 (lit "u1") true 1000 sampleSessions).2).1
  = mintedKey (lit "u1") 2000.
Proof.
  rewrite (session_continues 2000 2500 (lit "u1") true 1000 sampleSessions); [|lia].
  reflexivity.
Defined.

(** X3.  [touchSession] does nothing for an unknown sender and never
    creates a record; for a known sender it keeps the key and restarts the
    time-out, so that an unforced call at most [sessionTimeout] after the
    touch continues the session however old the activity before the touch
    was.  No other sender's record changes. *)
Theorem touchSession_keeps_alive (t : Z) (sender : jstring)
    (m : gmap jstring UserSession) :
  (getSession sender m = None -> touchSession t sender m = m) /\
  (forall s now timeout,
     getSession sender m = Some s -> now - t <= timeout ->
     (getSessionKey now sender false timeout (touchSession t sender m)).1 =
       mkSessionContext (sessionId s) false false) /\
  (forall other, other <> sender ->
     getSession other (touchSession t sender m) = getSession other m).
Proof.
  unfold getSession, touchSession. split; [|split].
  - by intros ->.
  - intros s now timeout Hs Hle. rewrite Hs.
    by rewrite (getSessionKey_continue now sender timeout _
                  (mkUserSession t (sessionId s)))
      by (by rewrite ?lookup_insert_eq).
  - intros other Hne. destruct (m !! sender); [by rewrite lookup_insert_ne | done].
Qed.

Lemma touchSession_keeps_alive_witness :
  touchSession 9000 (lit "u2") sampleSessions = sampleSessions /\
  sessionKey (getSessionKey 9500 (lit "u1") false 1000
                (touchSession 9000 (lit "u1") sampleSessions)).1
  = firstKey (lit "u1").
Proof.
  destruct (touchSession_keeps_alive 9000 (lit "u2") sampleSessions) as (H1 & _).
  destruct (touchSession_keeps_alive 9000 (lit "u1") sampleSessions) as (_ & H2 & _).
  split.
  - apply H1. reflexivity.
  - rewrite (H2 (mkUserSession 1000 (firstKey (lit "u1"))) 9500 1000);
      [reflexivity | reflexivity | lia].
Defined.

(** X4.  After [deleteSession] the sender has no record, the count drops by
    one when there was a record, no other sender is touched, and the next
    unforced [getSessionKey] treats the sender as a first-time one: it
    returns the key [dingtalk:sender] without an epoch and reports no new
    session. *)
Theorem deleteSession_restarts (sender : jstring) (m : gmap jstring UserSession) :
  getSession sender (deleteSession sender m) = None /\
  (forall other, other <> sender ->
     getSession other (deleteSession sender m) = getSession other m) /\
  (forall s, getSession sender m = Some s ->
     S (getActiveSessionCount (deleteSession sender m)) = getActiveSessionCount m) /\
  (forall now timeout,
     (getSessionKey now sender false timeout (deleteSession sender m)).1 =
       mkSessionContext (firstKey sender) false false).
Proof.
  unfold getSession, deleteSession, getActiveSessionCount. split; [|split; [|split]].
  - apply lookup_delete_eq.
  - intros other Hne. by apply lookup_delete_ne.
  - intros s Hs. rewrite map_size_delete, Hs.
    assert (size m <> 0%nat) by (intros ->%map_size_empty_inv; by rewrite lookup_empty in Hs).
    lia.
  - intros now timeout. unfold getSessionKey. by rewrite lookup_delete_eq.
Qed.

Lemma deleteSession_restarts_witness :
  getActiveSessionCount (deleteSession (lit "u1") sampleSessions) = 0%nat /\
  getSession (lit "u2") (deleteSession (lit "u1") sampleSessions)
    = getSession (lit "u2") sampleSessions.
Proof.
  destruct (deleteSession_restarts (lit "u1") sampleSessions) as (_ & H2 & H3 & _).
  split.
  - specialize (H3 (mkUserSession 1000 (firstKey (lit "u1"))) eq_refl).
    apply eq_add_S. rewrite H3. vm_compute. reflexivity.
  - apply H2. discriminate.
Defined.

(** X5.  The keys the manager stores are [dingtalk:sender] or
    [dingtalk:sender:t] for a reading [t] not later than the record's last
    activity; this holds of the empty map and is kept by [getSessionKey]
    and [touchSession] as long as the clock does not run backwards.  On
    such a map a roll-over (forced, or after the time-out) at a reading
    later than the last activity returns a key different from the one it
    replaces. *)
Theorem rollover_changes_key :
  wellKeyed ∅ /\
  (forall now sender force timeout m,
     wellKeyed m ->
     (forall s, m !! sender = Some s -> lastActivity s <= now) ->
     wellKeyed (getSessionKey now sender force timeout m).2) /\
  (forall t sender m,
     wellKeyed m ->
     (forall s, m !! sender = Some s -> lastActivity s <= t) ->
     wellKeyed (touchSession t sender m)) /\
  (forall now sender force timeout m s,
     wellKeyed m ->
     m !! sender = Some s ->
     lastActivity s < now ->
     force = true \/ now - lastActivity s > timeout ->
     isNew (getSessionKey now sender force timeout m).1 = true /\
     sessionKey (getSessionKey now sender force timeout m).1 <> sessionId s).
Proof.
  split; [|split; [|split]].
  - intros sender s. by rewrite lookup_empty.
  - intros now sender force timeout m Hm Hclock k s.
    destruct (decide (k = sender)) as [->|Hne].
    + rewrite getSessionKey_stored. intros [= <-]. cbn [sessionId lastActivity].
      unfold getSessionKey.
      destruct force; [right; exists now; split; [lia | done]|].
      destruct (m !! sender) as [s|] eqn:Hs; [|by left].
      destruct (_ >? _); [right; exists now; split; [lia | done]|].
      cbn [fst sessionKey].
      destruct (Hm sender s Hs) as [? | (t & Ht & ?)]; [by left|].
      right. exists t. split; [|done]. specialize (Hclock s eq_refl). lia.
    + rewrite getSessionKey_others by done. apply Hm.
  - intros t sender m Hm Hclock k s. unfold touchSession.
    destruct (m !! sender) as [s0|] eqn:Hs; [|apply Hm].
    destruct (decide (k = sender)) as [->|Hne].
    + rewrite lookup_insert_eq. intros [= <-]. cbn [sessionId lastActivity].
      destruct (Hm sender s0 Hs) as [? | (t' & Ht' & ?)]; [by left|].
      right. exists t'. split; [|done]. specialize (Hclock s0 eq_refl). lia.
    + rewrite lookup_insert_ne by done. apply Hm.
  - intros now sender force timeout m s Hm Hs Hlt Hroll.
    assert (E : (getSessionKey now sender force timeout m).1 =
                mkSessionContext (mintedKey sender now) true force).
    { unfold getSessionKey. destruct force; [done|]. rewrite Hs.
      destruct Hroll as [? | Hgt]; [done|].
      destruct (Z.gtb_spec (now - lastActivity s) timeout); [done | lia]. }
    rewrite E. cbn [isNew sessionKey]. split; [done|].
    destruct (Hm sender s Hs) as [-> | (t & Ht & ->)].
    + apply mintedKey_not_first.
    + intros Heq%mintedKey_inj. lia.
Qed.

Lemma rollover_changes_key_witness :
  sessionKey (getSessionKey 5000 (lit "u1") true 3000 sampleSessions).1
    <> firstKey (lit "u1").
Proof.
  destruct rollover_changes_key as (Hempty & Hget & _ & Hroll).
  assert (Hwk : wellKeyed sampleSessions).
  { change sampleSessions
      with (getSessionKey 1000 (lit "u1") false 0 ∅).2.
    apply Hget; [exact Hempty|]. intros s. by rewrite lookup_empty. }
  apply (Hroll 5000 (lit "u1") true 3000 sampleSessions
           (mkUserSession 1000 (firstKey (lit "u1"))) Hwk eq_refl).
  - simpl. lia.
  - by left.
Defined.

Section Commands.
Variable toLowerCase : jstring -> jstring.

(** X6.  [isNewSessionCommand] looks at the trimmed text only: white space
    and line terminators around the text never change its answer, and each
    of the six listed commands is recognised with any such padding,
    whatever the case mapping does. *)
Theorem isNewSessionCommand_padding (pre text post : jstring) :
  Forall (fun c => isSpace c = true) pre ->
  Forall (fun c => isSpace c = true) post ->
  isNewSessionCommand toLowerCase (pre ++ text ++ post)
    = isNewSessionCommand toLowerCase text /\
  (In text NEW_SESSION_COMMANDS ->
   isNewSessionCommand toLowerCase (pre ++ text ++ post) = true).
Proof.
  intros Hpre Hpost. unfold isNewSessionCommand.
  rewrite trim_padded by done. split; [done|].
  intros Hin. apply existsb_exists. exists text. split; [done|].
  apply bool_decide_eq_true. f_equal.
  cbn in Hin. destruct Hin as [<-|[<-|[<-|[<-|[<-|[<-|[]]]]]]]; reflexivity.
Qed.

End Commands.

Lemma isNewSessionCommand_padding_witness :
  isNewSessionCommand (fun s => s) ([32; 10]%N ++ lit "/reset" ++ [9]%N) = true.
Proof.
  apply (isNewSessionCommand_padding (fun s => s) [32; 10]%N (lit "/reset") [9]%N).
  - repeat constructor.
  - repeat constructor.
  - right. left. reflexivity.
Defined.

End SessionOpsFacts.

(** ** The stream callback *)

Module GatewayFacts.
Import Session SessionFacts.
Import Gateway.

Lemma accept_as_step (d : Delivery) (pm : gmap jstring Z) :
  (acceptDelivery d pm).2 = pm \/
  exists id, d_messageId d = Some id /\
    (acceptDelivery d pm).2 = dedup_step pm (OpMark (d_now d) (d_now_sweep d) id).
Proof.
  unfold acceptDelivery. destruct (d_messageId d) as [id|]; [|by left].
  destruct (truthy id && isMessageProcessed id pm); [by left|].
  cbn [snd]. destruct (truthy id); [right; eauto | by left].
Qed.

Lemma accept_keeps (t0 : Z) (k : jstring) (d : Delivery) (pm : gmap jstring Z) :
  k <> [] -> inWindow t0 d ->
  (exists ts, pm !! k = Some ts /\ t0 <= ts) ->
  exists ts, (acceptDelivery d pm).2 !! k = Some ts /\ t0 <= ts.
Proof.
  intros Hk [Hn Hs] Hpm.
  destruct (accept_as_step d pm) as [-> | (id & _ & ->)]; [done|].
  apply step_keeps; [done| |done].
  cbn [op_readings]. intros t [<-|[<-|[]]]; done.
Qed.

Lemma accept_present (k : jstring) (d : Delivery) (pm : gmap jstring Z) :
  k <> [] -> d_messageId d = Some k -> is_Some (pm !! k) ->
  acceptDelivery d pm = (false, pm).
Proof.
  intros Hk Hd Hpm. unfold acceptDelivery. rewrite Hd.
  apply (isMessageProcessed_lookup k pm Hk) in Hpm. rewrite Hpm.
  apply truthy_true in Hk. by rewrite Hk.
Qed.

Lemma accept_absent (t0 : Z) (k : jstring) (d : Delivery) (pm : gmap jstring Z) :
  k <> [] -> inWindow t0 d -> d_messageId d = Some k -> pm !! k = None ->
  (acceptDelivery d pm).1 = true /\
  exists ts, (acceptDelivery d pm).2 !! k = Some ts /\ t0 <= ts.
Proof.
  intros Hk [Hn Hs] Hd Hpm. unfold acceptDelivery. rewrite Hd.
  assert (Hp : isMessageProcessed k pm = false).
  { destruct (isMessageProcessed k pm) eqn:E; [|done].
    apply isMessageProcessed_lookup in E; [|done]. rewrite Hpm in E. by destruct E. }
  pose proof Hk as Hk'. apply truthy_true in Hk'.
  rewrite Hp, Hk'. cbn [andb fst snd]. split; [done|].
  exists (d_now d). split; [|lia].
  unfold markMessageProcessed. rewrite Hk'. cbn [negb].
  unfold MESSAGE_DEDUP_TTL in *.
  destruct (100 <=? _).
  - apply cleanup_lookup_Some. rewrite lookup_insert_eq.
    unfold MESSAGE_DEDUP_TTL. split; [done | lia].
  - by rewrite lookup_insert_eq.
Qed.

Lemma accept_other (k : jstring) (d : Delivery) (pm : gmap jstring Z) :
  d_messageId d <> Some k -> pm !! k = None -> (acceptDelivery d pm).2 !! k = None.
Proof.
  intros Hd Hpm.
  destruct (accept_as_step d pm) as [-> | (id & Hid & ->)]; [done|].
  cbn [dedup_step]. apply mark_other_None; [congruence | done].
Qed.

Lemma deliveries_cons (d : Delivery) (ds : list Delivery) (pm : gmap jstring Z) :
  (deliveries (d :: ds) pm).1 =
    (acceptDelivery d pm).1 :: (deliveries ds (acceptDelivery d pm).2).1.
Proof.
  cbn [deliveries]. destruct (acceptDelivery d pm) as [h pm1]. cbn [fst snd].
  by destruct (deliveries ds pm1).
Qed.

Lemma redelivered_skipped (t0 : Z) (k : jstring) (ds : list Delivery) :
  k <> [] -> Forall (inWindow t0) ds ->
  forall pm : gmap jstring Z,
  (exists ts, pm !! k = Some ts /\ t0 <= ts) ->
  Forall (fun h => h = false) (handledOf k ds (deliveries ds pm).1).
Proof.
  intros Hk. induction 1 as [|d ds Hd _ IH]; intros pm Hpm; [constructor|].
  rewrite deliveries_cons. cbn [handledOf].
  pose proof (accept_keeps t0 k d pm Hk Hd Hpm) as Hkeep.
  destruct (bool_decide_reflect (d_messageId d = Some k)) as [E|E]; [|by apply IH].
  constructor; [|by apply IH].
  destruct Hpm as (ts & Hts & _).
  by rewrite (accept_present k d pm Hk E) by (by rewrite Hts).
Qed.

(** X7.  Within one five-minute window, of all the deliveries that carry
    the same non-empty message id only the first goes on to the handler,
    however many other deliveries (with other ids, or none) come in
    between.  A delivery without an id always goes on. *)
Theorem redelivery_handled_once (t0 : Z) (id : jstring) (ds : list Delivery)
    (pm : gmap jstring Z) :
  id <> [] ->
  Forall (inWindow t0) ds ->
  pm !! id = None ->
  match handledOf id ds (deliveries ds pm).1 with
  | [] => Forall (fun d => d_messageId d <> Some id) ds
  | first :: later => first = true /\ Forall (fun h => h = false) later
  end /\
  (forall d pm', d_messageId d = None -> acceptDelivery d pm' = (true, pm')).
Proof.
  intros Hid Hds Hpm. split; [|intros d pm' Hd; unfold acceptDelivery; by rewrite Hd].
  revert pm Hpm. induction Hds as [|d ds Hd Hds IH]; intros pm Hpm; [constructor|].
  rewrite deliveries_cons. cbn [handledOf].
  destruct (bool_decide_reflect (d_messageId d = Some id)) as [E|E].
  - destruct (accept_absent t0 id d pm Hid Hd E Hpm) as (-> & Hkeep).
    split; [done|]. by apply (redelivered_skipped t0).
  - specialize (IH (acceptDelivery d pm).2 (accept_other id d pm E Hpm)).
    destruct (handledOf id ds _); [by constructor | done].
Qed.

Lemma redelivery_handled_once_witness :
  handledOf (lit "m1") sampleDeliveries (deliveries sampleDeliveries ∅).1
    = [true; false; false] /\
  (deliveries sampleDeliveries ∅).1 = [true; true; false; true; false].
Proof.
  assert (Hw : Forall (inWindow 1000) sampleDeliveries).
  { repeat constructor; cbn; unfold MESSAGE_DEDUP_TTL; lia. }
  destruct (redelivery_handled_once 1000 (lit "m1") sampleDeliveries ∅) as [H _];
    [discriminate | exact Hw | apply lookup_empty |].
  split; [|vm_compute; reflexivity].
  destruct (handledOf (lit "m1") sampleDeliveries (deliveries sampleDeliveries ∅).1)
    as [|first later] eqn:E; [vm_compute in E; discriminate E|].
  vm_compute in E. injection E as <- <-. reflexivity.
Defined.

End GatewayFacts.

(** ** The stream consumer: lines and pieces *)

Module StreamChunkFacts.
Import Streaming StreamingFacts.

Lemma splitLines_cons (s : jstring) : exists piece pieces, splitLines s = piece :: pieces.
Proof.
  induction s as [|c s (p & ps & IH)]; cbn [splitLines]; [eauto|].
  destruct (c =? 10)%N; [eauto|]. rewrite IH. eauto.
Qed.

Lemma splitLines_app (a b : jstring) :
  splitLines (a ++ b) =
    removelast (splitLines a) ++ splitLines (default [] (last (splitLines a)) ++ b).
Proof.
  induction a as [|c a IH]; [done|].
  cbn [app splitLines]. destruct (c =? 10)%N eqn:Ec.
  - destruct (splitLines_cons a) as (p & ps & E). rewrite IH, E. reflexivity.
  - rewrite IH. destruct (splitLines a) as [|p [|p' ps]] eqn:E.
    + destruct (splitLines_cons a) as (? & ? & ?). congruence.
    + cbn [removelast last default from_option id app]. cbn [splitLines]. by rewrite Ec.
    + reflexivity.
Qed.

Lemma splitLines_noLineFeed (s : jstring) : noLineFeed s -> splitLines s = [s].
Proof.
  induction 1 as [|c s Hc _ IH]; [done|].
  cbn [splitLines]. apply N.eqb_neq in Hc. by rewrite Hc, IH.
Qed.

Lemma splitLines_last (s : jstring) : noLineFeed (default [] (last (splitLines s))).
Proof.
  induction s as [|c s IH]; [constructor|].
  cbn [splitLines]. destruct (N.eqb_spec c 10) as [->|Hc].
  - destruct (splitLines_cons s) as (p & ps & E). rewrite E in *. exact IH.
  - destruct (splitLines s) as [|p [|p' ps]]; [repeat constructor; done| |exact IH].
    cbn in *. by constructor.
Qed.

Section Consumer.
Variable deltaContent : jstring -> option (option JValue).
Variable logInfo : bool.

Lemma processLines_app (l1 l2 : list jstring) :
  forall chunkCount,
  processLines deltaContent logInfo chunkCount (l1 ++ l2) =
    let r1 := processLines deltaContent logInfo chunkCount l1 in
    if r1.1.2 then r1
    else
      let r2 := processLines deltaContent logInfo r1.2 l2 in
      (r1.1.1 ++ r2.1.1, r2.1.2, r2.2).
Proof.
  induction l1 as [|line l1 IH]; intros chunkCount; cbn [app processLines].
  - cbn zeta. cbn [fst snd app].
    by destruct (processLines deltaContent logInfo chunkCount l2) as [[? ?] ?].
  - destruct (processLine deltaContent logInfo chunkCount line) as [[content| |] n];
      [|exact (IH n)|done].
    rewrite IH. cbn zeta.
    destruct (processLines deltaContent logInfo n l1) as [[f1 []] n1]; [done|].
    cbn [fst snd].
    by destruct (processLines deltaContent logInfo n1 l2) as [[? ?] ?].
Qed.

(** The fragments depend on the text received only: they are those of the
    complete lines of the buffer followed by all pieces. *)
Lemma readLoop_lines (pieces : list jstring) :
  forall chunkCount buffer, noLineFeed buffer ->
  readLoop deltaContent logInfo chunkCount buffer pieces =
    (processLines deltaContent logInfo chunkCount
       (removelast (splitLines (buffer ++ concat pieces)))).1.1.
Proof.
  induction pieces as [|value pieces IH]; intros chunkCount buffer Hb.
  - cbn [concat readLoop]. rewrite app_nil_r, splitLines_noLineFeed by done. done.
  - cbn [concat readLoop].
    rewrite (app_assoc buffer value), (splitLines_app (buffer ++ value)).
    destruct (splitLines_cons (default [] (last (splitLines (buffer ++ value)))
                               ++ concat pieces)) as (p & ps & E).
    rewrite E, removelast_app by done. rewrite <- E.
    rewrite processLines_app. cbn zeta.
    assert (Hor : forall x : jstring, or_else x [] = x) by (by intros []).
    rewrite Hor.
    destruct (processLines deltaContent logInfo chunkCount
                (removelast (splitLines (buffer ++ value))))
      as [[fragments done] n]. cbn [fst snd].
    destruct done; [done|]. cbn [fst]. f_equal.
    apply IH, splitLines_last.
Qed.

End Consumer.

(** X8.  The fragments yielded do not depend on how the transport cuts the
    response into pieces: two sequences of pieces with the same
    concatenation yield the same fragments. *)
Theorem stream_chunking_invariant
    (deltaContent : jstring -> option (option JValue)) (logInfo : bool)
    (response_ok : bool) (pieces pieces' : list jstring) :
  concat pieces = concat pieces' ->
  streamFromGateway deltaContent logInfo response_ok (Some pieces) =
  streamFromGateway deltaContent logInfo response_ok (Some pieces').
Proof.
  intros Heq. unfold streamFromGateway. destruct response_ok; [|done].
  rewrite !readLoop_lines by constructor. cbn [app]. by rewrite Heq.
Qed.

Lemma stream_chunking_invariant_witness :
  streamFromGateway sampleDelta true true (Some [concat sampleWire])
  = Some [JString (lit "hello ")].
Proof.
  rewrite (stream_chunking_invariant sampleDelta true true
             [concat sampleWire] sampleWire).
  - vm_compute. reflexivity.
  - cbn [concat]. by rewrite app_nil_r.
Defined.

(** X9.  An event is delivered only once its line feed has arrived: text
    after the last line feed of the response is never parsed, so a last
    piece without a line feed yields nothing, whatever it holds. *)
Theorem stream_unterminated_tail
    (deltaContent : jstring -> option (option JValue)) (logInfo : bool)
    (response_ok : bool) (pieces : list jstring) (tail : jstring) :
  noLineFeed tail ->
  streamFromGateway deltaContent logInfo response_ok (Some (pieces ++ [tail])) =
  streamFromGateway deltaContent logInfo response_ok (Some pieces).
Proof.
  intros Ht. unfold streamFromGateway. destruct response_ok; [|done].
  rewrite !readLoop_lines by constructor. cbn [app].
  rewrite concat_app. cbn [concat]. rewrite app_nil_r.
  rewrite (splitLines_app (concat pieces) tail).
  rewrite (splitLines_noLineFeed (_ ++ tail)).
  - rewrite removelast_app by done. cbn [removelast]. by rewrite app_nil_r.
  - apply Forall_app. split; [apply splitLines_last | exact Ht].
Qed.

Lemma stream_unterminated_tail_witness :
  streamFromGateway sampleDelta true true
    (Some ([] ++ [litq "data: {'choices':[{'delta':{'content':'hello '}}]}"]))
  = Some [].
Proof.
  rewrite stream_unterminated_tail; [reflexivity|].
  vm_compute. repeat constructor; discriminate.
Defined.

(** X10.  The sentinel ends the generator: when the text received so far
    ends a line, a [data: [DONE]] line stops the stream, and nothing that
    follows it is delivered. *)
Theorem stream_sentinel_ends
    (deltaContent : jstring -> option (option JValue)) (logInfo : bool)
    (response_ok : bool) (pieces more : list jstring) :
  default [] (last (splitLines (concat pieces))) = [] ->
  streamFromGateway deltaContent logInfo response_ok
    (Some (pieces ++ [lit "data: [DONE]" ++ [10%N]] ++ more)) =
  streamFromGateway deltaContent logInfo response_ok (Some pieces).
Proof.
  intros Hend. unfold streamFromGateway. destruct response_ok; [|done].
  rewrite !readLoop_lines by constructor. cbn [app].
  rewrite !concat_app. cbn [concat].
  rewrite (splitLines_app (concat pieces)), Hend. cbn [app].
  rewrite (splitLines_app (lit "data: [DONE]" ++ [10%N])).
  change (removelast (splitLines (lit "data: [DONE]" ++ [10%N])))
    with [lit "data: [DONE]"].
  destruct (splitLines_cons
              (default [] (last (splitLines (lit "data: [DONE]" ++ [10%N])))
               ++ concat more)) as (p & ps & E).
  rewrite E. rewrite removelast_app by done.
  rewrite processLines_app. cbn zeta.
  destruct (processLines deltaContent logInfo 0
              (removelast (splitLines (concat pieces))))
    as [[fragments done] n]. cbn [fst snd]. destruct done; [done|].
  cbn [app removelast fst]. f_equal.
  rewrite <- (app_nil_r fragments) at 2. f_equal.
Qed.

Lemma stream_sentinel_ends_witness :
  streamFromGateway sampleDelta true true
    (Some ([] ++ [lit "data: [DONE]" ++ [10%N]]
              ++ [litq "data: {'choices':[{'delta':{'content':'hello '}}]}" ++ [10%N]]))
  = Some [].
Proof.
  rewrite stream_sentinel_ends; reflexivity.
Defined.

End StreamChunkFacts.

(** ** The token caches *)

Module TokenFacts.
Import Runtime Retry RuntimeFacts.
Import Token.

Ltac exec :=
  repeat (cbv beta iota zeta delta
            [bind try_catch ret throw get modify perform request
             Date_now Math_random sleep fst snd]).

(** One request: it either fails and leaves the caches alone, or caches
    the non-empty token it returns. *)
Lemma requestAccessToken_run (config : DingTalkConfig) (now : Z)
    (caches : TokenCaches) (w : World) :
  requestAccessToken config now (caches, w) =
    if grants (answer w)
    then (Ok (text (answer w)),
          (set_tokenCache
             (insert (clientId config)
                (mkCachedToken (text (answer w)) (expiryOf now (answer w)))) caches,
           grow w [(postAccessToken config, answer w)]))
    else (Throw (default (PlainError (lit "Failed to get access token: empty response"))
                         (failure (answer w))),
          (caches, grow w [(postAccessToken config, answer w)])).
Proof.
  unfold requestAccessToken, grants. exec.
  destruct (failure (answer w)); [by rewrite bool_decide_eq_false_2|].
  rewrite bool_decide_eq_true_2 by done. cbn [andb].
  by destruct (truthy (text (answer w))).
Qed.

Lemma filter_tokenPost_cons (config : DingTalkConfig) (a : Answer)
    (tr : list (Call * Answer)) :
  List.filter is_tokenPost ((postAccessToken config, a) :: tr)
    = (postAccessToken config, a) :: List.filter is_tokenPost tr /\
  List.filter is_network ((postAccessToken config, a) :: tr)
    = (postAccessToken config, a) :: List.filter is_network tr.
Proof. split; reflexivity. Qed.

(** The retried requests: the answers to all but the last grant nothing;
    the last decides the result. *)
Lemma requestAccessToken_loop (config : DingTalkConfig) (now mr bd md : Z) :
  forall (fuel : nat) (attempt : Z) (lastError : option Error)
         (caches : TokenCaches) (w : World),
  0 <= attempt <= mr ->
  fuel = Z.to_nat (mr + 1 - attempt) ->
  exists r caches' tr answers,
    retryLoop (requestAccessToken config now) mr bd md fuel attempt lastError
      (caches, w) = (r, (caches', grow w tr)) /\
    List.filter is_tokenPost tr = map (fun a => (postAccessToken config, a)) answers /\
    List.filter is_network tr = List.filter is_tokenPost tr /\
    (1 <= length answers <= fuel)%nat /\
    Forall (fun a => grants a = false) (removelast answers) /\
    exists a,
      last answers = Some a /\
      if grants a
      then r = Ok (text a) /\
           caches' = set_tokenCache
                       (insert (clientId config)
                          (mkCachedToken (text a) (expiryOf now a))) caches
      else length answers = fuel /\ caches' = caches /\
           r = Throw (default
                        (PlainError (lit "Failed to get access token: empty response"))
                        (failure a)).
Proof.
  induction fuel as [|fuel IH]; intros attempt lastError caches w Ha Hfuel; [lia|].
  cbn [retryLoop]. destruct (Z.leb_spec attempt mr); [|lia].
  unfold try_catch. rewrite requestAccessToken_run.
  destruct (grants (answer w)) eqn:Eg.
  - eexists (Ok _), _, [(postAccessToken config, answer w)], [answer w].
    split; [reflexivity|].
    destruct (filter_tokenPost_cons config (answer w) []) as [-> ->].
    cbn [List.filter length last map removelast]. split; [done|]. split; [done|].
    split; [lia|]. split; [constructor|]. exists (answer w). by rewrite Eg.
  - set (e := default _ (failure (answer w))).
    destruct (Z.eqb_spec attempt mr) as [->|Hne].
    + assert (fuel = 0%nat) by lia. subst fuel.
      exists (Throw e), caches, [(postAccessToken config, answer w)], [answer w].
      split; [reflexivity|].
      destruct (filter_tokenPost_cons config (answer w) []) as [-> ->].
      cbn [List.filter length last map removelast]. split; [done|]. split; [done|].
      split; [lia|]. split; [constructor|]. exists (answer w). by rewrite Eg.
    + exec.
      match goal with
      | |- context [retryLoop _ _ _ _ _ _ _ (caches, ?w')] =>
          destruct (IH (attempt + 1) (Some e) caches w')
            as (r & caches' & tr & answers & E & Hposts & Hnet & Hn & Hall
                & a & Hlast & Hcase); [lia | lia |]
      end.
      rewrite E. rewrite !grow_grow. cbn [app].
      eexists r, caches', _, (answer w :: answers). split; [reflexivity|].
      destruct (filter_tokenPost_cons config (answer w)
                  ((CallMathRandom, answer (grow w [(postAccessToken config, answer w)]))
                   :: (CallSleep
                         (backoffDelay bd md attempt
                            (number (answer (grow w [(postAccessToken config, answer w)])))),
                       answer (grow w [(postAccessToken config, answer w);
                                       (CallMathRandom,
                                        answer (grow w [(postAccessToken config, answer w)]))]))
                   :: tr)) as [-> ->].
      cbn [List.filter is_tokenPost is_network fst]. rewrite Hnet, Hposts.
      split; [reflexivity|]. split; [reflexivity|].
      destruct answers as [|a1 answers]; [cbn [length] in Hn; lia|].
      split; [cbn [length] in *; lia|].
      split; [constructor; [exact Eg | exact Hall]|].
      exists a. split; [exact Hlast|].
      destruct (grants a); [exact Hcase|].
      destruct Hcase as (Hlen & Hc & Hr). cbn [length] in *. by rewrite Hlen.
Qed.

Lemma getAccessToken_hit (config : DingTalkConfig) (caches : TokenCaches)
    (w : World) (cached : CachedToken) :
  tokenCache caches !! clientId config = Some cached ->
  Num_gt (expiry cached) (time (answer w) + 60000) = true ->
  getAccessToken config (caches, w) =
    (Ok (token cached), (caches, grow w [(CallDateNow, answer w)])).
Proof.
  intros Hc He. unfold getAccessToken. exec. by rewrite Hc, He.
Qed.

Lemma getAccessToken_miss (config : DingTalkConfig) (caches : TokenCaches)
    (w : World) :
  (forall cached, tokenCache caches !! clientId config = Some cached ->
                  Num_gt (expiry cached) (time (answer w) + 60000) = false) ->
  exists r caches' tr answers,
    getAccessToken config (caches, w) =
      (r, (caches', grow w ((CallDateNow, answer w) :: tr))) /\
    List.filter is_tokenPost tr = map (fun a => (postAccessToken config, a)) answers /\
    List.filter is_network tr = List.filter is_tokenPost tr /\
    (1 <= length answers <= 4)%nat /\
    Forall (fun a => grants a = false) (removelast answers) /\
    exists a,
      last answers = Some a /\
      if grants a
      then r = Ok (text a) /\
           caches' = set_tokenCache
                       (insert (clientId config)
                          (mkCachedToken (text a) (expiryOf (time (answer w)) a)))
                       caches
      else length answers = 4%nat /\ caches' = caches /\
           r = Throw (default
                        (PlainError (lit "Failed to get access token: empty response"))
                        (failure a)).
Proof.
  intros Hmiss. unfold getAccessToken. exec.
  destruct (requestAccessToken_loop config (time (answer w)) 3 1000 10000
              4%nat 0 None caches (grow w [(CallDateNow, answer w)]))
    as (r & caches' & tr & answers & E & Hrest); [lia | reflexivity |].
  assert (Erun : retryWithBackoff (requestAccessToken config (time (answer w)))
                   (mkRetryOptions (Some 3) None None)
                   (caches, grow w [(CallDateNow, answer w)])
                 = (r, (caches', grow w ((CallDateNow, answer w) :: tr)))).
  { unfold retryWithBackoff. rewrite grow_grow in E. exact E. }
  exists r, caches', tr, answers. split; [|exact Hrest].
  destruct (tokenCache caches !! clientId config) as [cached|] eqn:Hc; [|exact Erun].
  by rewrite (Hmiss cached eq_refl).
Qed.

(** X11.  A cached access token whose expiry lies more than 60 seconds
    ahead is returned as it is: [getAccessToken] reads the clock, sends
    nothing and leaves the caches alone.  In particular this is so
    whenever [shouldRefreshToken] answers no at the same reading and the
    expiry stored is a number.  An expiry that is [NaN] (stored when the
    token came without [expireIn]) makes [shouldRefreshToken] answer no as
    well, but [getAccessToken] then goes to the network. *)
Theorem getAccessToken_cached (config : DingTalkConfig) (caches : TokenCaches)
    (w : World) :
  (forall cached,
     tokenCache caches !! clientId config = Some cached ->
     Num_gt (expiry cached) (time (answer w) + 60000) = true ->
     getAccessToken config (caches, w) =
       (Ok (token cached), (caches, grow w [(CallDateNow, answer w)]))) /\
  (shouldRefreshToken (time (answer w)) config caches = false ->
   exists cached,
     tokenCache caches !! clientId config = Some cached /\
     ((exists e, expiry cached = Finite e) ->
      getAccessToken config (caches, w) =
        (Ok (token cached), (caches, grow w [(CallDateNow, answer w)])))) /\
  (forall cached,
     tokenCache caches !! clientId config = Some cached ->
     expiry cached = NaN ->
     shouldRefreshToken (time (answer w)) config caches = false /\
     exists tr,
       world (getAccessToken config (caches, w)) =
         grow w ((CallDateNow, answer w) :: tr) /\
       (1 <= length (List.filter is_tokenPost tr))%nat).
Proof.
  split; [intros cached; apply getAccessToken_hit|]. split.
  - unfold shouldRefreshToken.
    destruct (tokenCache caches !! clientId config) as [cached|] eqn:Hc; [|done].
    intros Hno. exists cached. split; [done|]. intros (e & He).
    apply getAccessToken_hit; [done|]. rewrite He in *. cbn [Num_lt Num_add Num_gt] in *.
    destruct (Z.gtb_spec (time (answer w)) (e + - TOKEN_REFRESH_THRESHOLD)); [done|].
    destruct (Z.gtb_spec e (time (answer w) + 60000)); [done|].
    unfold TOKEN_REFRESH_THRESHOLD in *. lia.
  - intros cached Hc He. split.
    + unfold shouldRefreshToken. by rewrite Hc, He.
    + destruct (getAccessToken_miss config caches w)
        as (r & caches' & tr & answers & E & Hposts & _ & Hn & _).
      * intros c Hc'. rewrite Hc in Hc'. injection Hc' as <-. by rewrite He.
      * exists tr. rewrite E. split; [reflexivity|].
        rewrite Hposts, length_map. lia.
Qed.

Lemma getAccessToken_cached_witness :
  getAccessToken sampleConfig (sampleCaches, scripted []) =
    (Ok (lit "tok"), (sampleCaches, grow (scripted []) [(CallDateNow, fine)])).
Proof.
  destruct (getAccessToken_cached sampleConfig sampleCaches (scripted [])) as [H _].
  apply (H (mkCachedToken (lit "tok") (Finite 7200000))); [reflexivity|].
  vm_compute. reflexivity.
Defined.

(** X12.  When there is no usable cached token, [getAccessToken] sends
    between one and four token requests and nothing else to the network;
    every request but the last was answered without a token (it failed,
    or its answer held none).  When the last answer grants a token,
    [getAccessToken] returns it and caches it with the expiry
    [now + expireIn * 1000], [now] being the reading taken on entry, and
    the next call made before 60 seconds to that expiry returns the same
    token without a request.  When the last answer grants none, it was
    the fourth: [getAccessToken] throws the error of that request and
    leaves the caches as they were. *)
Theorem getAccessToken_refresh (config : DingTalkConfig) (caches : TokenCaches)
    (w : World) :
  (forall cached, tokenCache caches !! clientId config = Some cached ->
                  Num_gt (expiry cached) (time (answer w) + 60000) = false) ->
  exists tr answers,
    world (getAccessToken config (caches, w)) =
      grow w ((CallDateNow, answer w) :: tr) /\
    List.filter is_network tr = map (fun a => (postAccessToken config, a)) answers /\
    List.filter is_tokenPost tr = map (fun a => (postAccessToken config, a)) answers /\
    (1 <= length answers <= 4)%nat /\
    Forall (fun a => grants a = false) (removelast answers) /\
    exists a,
      last answers = Some a /\
      if grants a
      then outcome (getAccessToken config (caches, w)) = Ok (text a) /\
           text a <> [] /\
           data (getAccessToken config (caches, w)) =
             set_tokenCache
               (insert (clientId config)
                  (mkCachedToken (text a) (expiryOf (time (answer w)) a))) caches /\
           forall w',
             Num_gt (expiryOf (time (answer w)) a) (time (answer w') + 60000) = true ->
             getAccessToken config (data (getAccessToken config (caches, w)), w') =
               (Ok (text a), (data (getAccessToken config (caches, w)),
                              grow w' [(CallDateNow, answer w')]))
      else length answers = 4%nat /\
           data (getAccessToken config (caches, w)) = caches /\
           outcome (getAccessToken config (caches, w)) =
             Throw (default
                      (PlainError (lit "Failed to get access token: empty response"))
                      (failure a)).
Proof.
  intros Hmiss.
  destruct (getAccessToken_miss config caches w Hmiss)
    as (r & caches' & tr & answers & E & Hposts & Hnet & Hn & Hall & a & Hlast & Hcase).
  exists tr, answers. rewrite E. unfold world, outcome, data. cbn [fst snd].
  split; [reflexivity|]. split; [by rewrite Hnet|]. split; [exact Hposts|].
  split; [exact Hn|]. split; [exact Hall|]. exists a. split; [exact Hlast|].
  destruct (grants a) eqn:Eg; [|exact Hcase].
  destruct Hcase as [-> ->]. split; [reflexivity|].
  split; [apply truthy_true; by apply andb_true_iff in Eg as [_ ?]|].
  split; [reflexivity|]. intros w' Hw'.
  apply (getAccessToken_hit config _ w'
           (mkCachedToken (text a) (expiryOf (time (answer w)) a))); [|done].
  unfold set_tokenCache. cbn [tokenCache]. apply lookup_insert_eq.
Qed.

Lemma getAccessToken_refresh_witness :
  outcome (getAccessToken sampleConfig
             (mkTokenCaches ∅ ∅, scripted [fine; failing 500]))
    = Ok (lit "ok") /\
  data (getAccessToken sampleConfig
          (mkTokenCaches ∅ ∅, scripted [fine; failing 500]))
    = mkTokenCaches {[ lit "app" := mkCachedToken (lit "ok") (Finite 7) ]} ∅.
Proof.
  destruct (getAccessToken_refresh sampleConfig (mkTokenCaches ∅ ∅)
              (scripted [fine; failing 500]))
    as (tr & answers & Hw & _ & Hposts & _ & _ & a & Hlast & Hcase).
  - intros cached. cbn [tokenCache]. rewrite lookup_empty. discriminate.
  - assert (Htr : tr = [(postAccessToken sampleConfig, failing 500);
                        (CallMathRandom, fine);
                        (CallSleep (backoffDelay 1000 10000 0 0), fine);
                        (postAccessToken sampleConfig, fine)]).
    { vm_compute in Hw. injection Hw as <-. vm_compute. reflexivity. }
    subst tr.
    assert (Ha : a = fine).
    { destruct answers as [|a1 [|a2 [|a3 answers]]]; try discriminate Hposts.
      injection Hposts as _ <-. by injection Hlast as <-. }
    subst a. destruct Hcase as (Hout & _ & Hdata & _). split; [exact Hout|].
    rewrite Hdata. reflexivity.
Defined.

Lemma fetchOapiAccessToken_run (config : DingTalkConfig) (now : Z)
    (caches : TokenCaches) (w : World) :
  fetchOapiAccessToken config now (caches, w) =
    if bool_decide (failure (answer w) = None) && flag (answer w)
       && truthy (text (answer w))
    then (Ok (Some (text (answer w))),
          (set_oapiTokenCache
             (insert (clientId config)
                (mkCachedToken (text (answer w))
                   (Finite
                      (now + (if size (answer w) =? 0 then 7200 else size (answer w))
                             * 1000)))) caches,
           grow w [(getOapiToken config, answer w)]))
    else (Ok None, (caches, grow w [(getOapiToken config, answer w)])).
Proof.
  unfold fetchOapiAccessToken. exec.
  destruct (failure (answer w)); [by rewrite bool_decide_eq_false_2|].
  rewrite bool_decide_eq_true_2 by done. cbn [andb].
  destruct (flag (answer w)); [|done]. by destruct (truthy (text (answer w))).
Qed.

(** X13.  [getOapiAccessToken] never throws and never retries: it reads the
    clock and sends at most one request.  It answers from the cache, with
    no request, when the cached token expires more than 60 seconds ahead.
    It returns [null], leaving both caches alone, when the request fails,
    reports an error code or carries no token; otherwise it caches the
    token, for 7200 seconds when the answer gives no life time.  The
    cache of the new-style tokens is never touched. *)
Theorem getOapiAccessToken_total (config : DingTalkConfig) (caches : TokenCaches)
    (w : World) :
  exists res caches' tr,
    getOapiAccessToken config (caches, w) =
      (Ok res, (caches', grow w ((CallDateNow, answer w) :: tr))) /\
    tokenCache caches' = tokenCache caches /\
    ((tr = [] /\ caches' = caches /\
      exists cached, oapiTokenCache caches !! clientId config = Some cached /\
                     Num_gt (expiry cached) (time (answer w) + 60000) = true /\
                     res = Some (token cached)) \/
     (exists a,
        tr = [(getOapiToken config, a)] /\
        (forall cached, oapiTokenCache caches !! clientId config = Some cached ->
                        Num_gt (expiry cached) (time (answer w) + 60000) = false) /\
        if bool_decide (failure a = None) && flag a && truthy (text a)
        then res = Some (text a) /\
             caches' = set_oapiTokenCache
                         (insert (clientId config)
                            (mkCachedToken (text a)
                               (Finite
                                  (time (answer w)
                                   + (if size a =? 0 then 7200 else size a) * 1000))))
                         caches
        else res = None /\ caches' = caches)).
Proof.
  unfold getOapiAccessToken. exec.
  pose proof (fetchOapiAccessToken_run config (time (answer w)) caches
                (grow w [(CallDateNow, answer w)])) as E.
  rewrite !grow_grow in E. cbn [app] in E.
  set (w1 := grow w [(CallDateNow, answer w)]) in *.
  assert (Hfetch :
    (forall cached, oapiTokenCache caches !! clientId config = Some cached ->
                    Num_gt (expiry cached) (time (answer w) + 60000) = false) ->
    exists res caches' tr,
      fetchOapiAccessToken config (time (answer w)) (caches, w1) =
        (Ok res, (caches', grow w ((CallDateNow, answer w) :: tr))) /\
      tokenCache caches' = tokenCache caches /\
      ((tr = [] /\ caches' = caches /\
        exists cached, oapiTokenCache caches !! clientId config = Some cached /\
                       Num_gt (expiry cached) (time (answer w) + 60000) = true /\
                       res = Some (token cached)) \/
       (exists a,
          tr = [(getOapiToken config, a)] /\
          (forall cached, oapiTokenCache caches !! clientId config = Some cached ->
                          Num_gt (expiry cached) (time (answer w) + 60000) = false) /\
          if bool_decide (failure a = None) && flag a && truthy (text a)
          then res = Some (text a) /\
               caches' = set_oapiTokenCache
                           (insert (clientId config)
                              (mkCachedToken (text a)
                                 (Finite
                                    (time (answer w)
                                     + (if size a =? 0 then 7200 else size a) * 1000))))
                           caches
          else res = None /\ caches' = caches))).
  { intros Hold. rewrite E.
    destruct (bool_decide (failure (answer w1) = None) && flag (answer w1)
              && truthy (text (answer w1))) eqn:Eok.
    - eexists _, _, [(getOapiToken config, answer w1)].
      split; [reflexivity|]. split; [done|]. right. exists (answer w1).
      by rewrite Eok.
    - exists None, caches, [(getOapiToken config, answer w1)].
      split; [reflexivity|]. split; [done|]. right. exists (answer w1).
      by rewrite Eok. }
  destruct (oapiTokenCache caches !! clientId config) as [cached|] eqn:Hc.
  - destruct (Num_gt (expiry cached) (time (answer w) + 60000)) eqn:Egt.
    + exists (Some (token cached)), caches, []. split; [done|]. split; [done|].
      left. split; [done|]. split; [done|]. by exists cached.
    + apply Hfetch. by intros c [= <-].
  - apply Hfetch. intros c [=].
Qed.

Lemma getOapiAccessToken_total_witness :
  exists res caches' tr,
    getOapiAccessToken sampleConfig (sampleCaches, scripted [fine; failing 500]) =
      (Ok res, (caches', grow (scripted [fine; failing 500])
                           ((CallDateNow, fine) :: tr))) /\
    tokenCache caches' = tokenCache sampleCaches.
Proof.
  destruct (getOapiAccessToken_total sampleConfig sampleCaches
              (scripted [fine; failing 500]))
    as (res & caches' & tr & E & Ht & _).
  exists res, caches', tr. split; [exact E | exact Ht].
Defined.

(** X14.  [clearTokenCache] with a non-empty client id forgets both tokens
    of that client and nothing else; the client then needs a refresh, has
    no expiry, and its next [getAccessToken] goes to the network.  With
    no id, or with the empty string, it empties both caches. *)
Theorem clearTokenCache_forgets (caches : TokenCaches) :
  (forall config,
     clientId config <> [] ->
     tokenCache (clearTokenCache (Some (clientId config)) caches)
       !! clientId config = None /\
     oapiTokenCache (clearTokenCache (Some (clientId config)) caches)
       !! clientId config = None /\
     (forall other, other <> clientId config ->
        tokenCache (clearTokenCache (Some (clientId config)) caches) !! other
          = tokenCache caches !! other /\
        oapiTokenCache (clearTokenCache (Some (clientId config)) caches) !! other
          = oapiTokenCache caches !! other) /\
     (forall now,
        shouldRefreshToken now config
          (clearTokenCache (Some (clientId config)) caches) = true) /\
     getTokenExpiry config (clearTokenCache (Some (clientId config)) caches) = None /\
     (forall w,
        exists tr,
          world (getAccessToken config
                   (clearTokenCache (Some (clientId config)) caches, w))
            = grow w ((CallDateNow, answer w) :: tr) /\
          (1 <= length (List.filter is_tokenPost tr))%nat)) /\
  clearTokenCache None caches = mkTokenCaches ∅ ∅ /\
  clearTokenCache (Some []) caches = mkTokenCaches ∅ ∅.
Proof.
  split; [|by split].
  intros config Hid. unfold clearTokenCache.
  apply truthy_true in Hid. rewrite Hid. cbn [tokenCache oapiTokenCache].
  split; [apply lookup_delete_eq|]. split; [apply lookup_delete_eq|].
  split; [intros other Hne; by rewrite !lookup_delete_ne|].
  split; [intros now; unfold shouldRefreshToken; cbn [tokenCache];
          by rewrite lookup_delete_eq|].
  split; [unfold getTokenExpiry; cbn [tokenCache]; by rewrite lookup_delete_eq|].
  intros w.
  destruct (getAccessToken_miss config
              (mkTokenCaches (delete (clientId config) (tokenCache caches))
                             (delete (clientId config) (oapiTokenCache caches))) w)
    as (r & caches' & tr & answers & E & Hposts & _ & Hn & _).
  - intros cached. cbn [tokenCache]. by rewrite lookup_delete_eq.
  - exists tr. rewrite E. split; [done|]. rewrite Hposts, length_map. lia.
Qed.

Lemma clearTokenCache_forgets_witness :
  tokenCache (clearTokenCache (Some (lit "app")) sampleCaches) !! lit "app" = None.
Proof.
  destruct (clearTokenCache_forgets sampleCaches) as [H _].
  destruct (H sampleConfig) as [H1 _]; [discriminate | exact H1].
Defined.

End TokenFacts.

(** ** Retry: the degenerate bound *)

Module RetryEdgeFacts.
Import Runtime Retry.

(** X15.  With a negative [maxRetries] the loop body never runs: the
    operation is not invoked once, nothing is asked of the world, and the
    call throws [Error('Retry failed')]. *)
Theorem retryWithBackoff_negative {X T} (fn : M X T) (options : RetryOptions)
    (x : X) (w : World) :
  optMaxRetries options < 0 ->
  retryWithBackoff fn options (x, w) =
    (Throw (PlainError (lit "Retry failed")), (x, w)).
Proof.
  intros Hneg. unfold retryWithBackoff.
  replace (Z.to_nat (optMaxRetries options + 1)) with 0%nat by lia.
  reflexivity.
Qed.

Lemma retryWithBackoff_negative_witness :
  retryWithBackoff (@axios unit (PutInstances (lit "card_1") (lit "2") []) (lit "tok"))
    (mkRetryOptions (Some (-1)) None None) (tt, scripted [])
  = (Throw (PlainError (lit "Retry failed")), (tt, scripted [])).
Proof.
  apply retryWithBackoff_negative. vm_compute. reflexivity.
Defined.

End RetryEdgeFacts.

(** ** The card engine: creation, finishing, the token age *)

Module CardMoreFacts.
Import Runtime Retry Card RuntimeFacts CardFacts.

Lemma request_eq {X} (c : Call) (x : X) (w : World) :
  @request X c (x, w) =
    match failure (answer w) with
    | Some e => (Throw e, (x, grow w [(c, answer w)]))
    | None => (Ok (text (answer w)), (x, grow w [(c, answer w)]))
    end.
Proof. unfold request. exec. by destruct (failure (answer w)). Qed.

(** The retry loop around one request [c]: the calls that are not part of
    the back-off are the attempts, all alike; every attempt but the last
    failed, and the loop returns what the last attempt returned. *)
Lemma request_loop {X} (c : Call) (mr bd md : Z) :
  (forall a, is_backoff (c, a) = false) ->
  forall (fuel : nat) (attempt : Z) (lastError : option Error) (x : X) (w : World),
  0 <= attempt <= mr ->
  fuel = Z.to_nat (mr + 1 - attempt) ->
  exists r tr answers a,
    retryLoop (@request X c) mr bd md fuel attempt lastError (x, w)
      = (r, (x, grow w tr)) /\
    List.filter (fun ev => negb (is_backoff ev)) tr = map (pair c) (answers ++ [a]) /\
    (length answers < fuel)%nat /\
    Forall (fun a' => failure a' <> None) answers /\
    match failure a with
    | Some e => r = Throw e /\ S (length answers) = fuel
    | None => r = Ok (text a)
    end.
Proof.
  intros Hc. induction fuel as [|fuel IH]; intros attempt lastError x w Ha Hfuel; [lia|].
  cbn [retryLoop]. destruct (Z.leb_spec attempt mr); [|lia].
  unfold try_catch. rewrite request_eq.
  destruct (failure (answer w)) as [e|] eqn:Ef.
  - destruct (Z.eqb_spec attempt mr) as [->|Hne].
    + assert (fuel = 0%nat) by lia. subst fuel.
      exists (Throw e), [(c, answer w)], [], (answer w).
      split; [reflexivity|]. cbn [List.filter negb app map]. rewrite Hc. cbn [negb].
      split; [done|]. split; [cbn; lia|]. split; [constructor|]. by rewrite Ef.
    + cbv beta iota zeta delta [bind Math_random sleep perform ret fst snd].
      match goal with
      | |- context [retryLoop _ _ _ _ _ _ _ (x, ?w')] =>
          destruct (IH (attempt + 1) (Some e) x w')
            as (r & tr & answers & a & E & Hf & Hlen & Hall & Hr); [lia | lia |]
      end.
      rewrite E. rewrite !grow_grow. cbn [app].
      eexists r, _, (answer w :: answers), a. split; [reflexivity|].
      cbn [List.filter is_backoff fst negb]. rewrite Hc. cbn [negb app map].
      rewrite Hf. split; [done|]. split; [cbn [length]; lia|].
      split; [constructor; [by rewrite Ef | done]|].
      destruct (failure a); [|done]. destruct Hr as [-> Hr]. split; [done|].
      cbn [length]. lia.
  - exists (Ok (text (answer w))), [(c, answer w)], [], (answer w).
    split; [reflexivity|]. cbn [List.filter negb app map]. rewrite Hc. cbn [negb].
    split; [done|]. split; [cbn; lia|]. split; [constructor|]. by rewrite Ef.
Qed.

Lemma filter_create_loop (c : Call) (tr : list (Call * Answer))
    (answers : list Answer) :
  (forall a, is_create (c, a) = true) ->
  List.filter (fun ev => negb (is_backoff ev)) tr = map (pair c) answers ->
  List.filter is_create tr = map (pair c) answers.
Proof.
  intros Hc Hf.
  assert (Hsub : List.filter is_create tr
                 = List.filter is_create (List.filter (fun ev => negb (is_backoff ev)) tr)).
  { clear Hf. induction tr as [|[[] a] tr IH]; cbn; try done; by rewrite IH. }
  rewrite Hsub, Hf. clear Hsub Hf. induction answers as [|a answers IH]; [done|].
  cbn [map List.filter]. by rewrite Hc, IH.
Qed.

(** X16.  [createAICard] never throws.  It first asks for an access token;
    when that fails it sends nothing else and returns [null].  Otherwise
    it sends between one and three createAndDeliver requests, all with the
    same body and the token obtained: each but the last failed, and the
    result is a card exactly when the last one was accepted ([null] means
    all three failed).  The card returned carries the id of the request
    and the token, is in state PROCESSING and has its flag unset. *)
Theorem createAICard_requests (cfg : DingTalkConfig) (target : AICardTarget)
    (w : World) :
  exists res tr,
    createAICard cfg target (tt, w) =
      (Ok res, (tt, grow w ((CallGetAccessToken cfg, answer w) :: tr))) /\
    match failure (answer w) with
    | Some _ => tr = [] /\ res = None
    | None =>
        exists uuid failed a,
          List.filter is_create tr =
            map (pair (CallHttp (createRequest cfg target uuid) (text (answer w))))
                (failed ++ [a]) /\
          (length failed <= 2)%nat /\
          Forall (fun a' => failure a' <> None) failed /\
          match failure a with
          | Some _ => res = None /\ length failed = 2%nat
          | None =>
              exists card,
                res = Some card /\
                cardInstanceId card = lit "card_" ++ uuid /\
                accessToken card = text (answer w) /\
                state card = PROCESSING /\
                inputingStarted card = false
          end
    end.
Proof.
  unfold createAICard, try_catch.
  unfold bind at 1. unfold getAccessToken. rewrite request_eq.
  destruct (failure (answer w)) as [e|] eqn:Ef.
  { exists None, []. by repeat split. }
  unfold bind at 1, randomUUID at 1.
  cbv beta iota zeta delta [bind perform ret fst snd].
  set (w1 := grow w [(CallGetAccessToken cfg, answer w)]).
  set (uuid := text (answer w1)).
  set (w2 := grow w1 [(CallRandomUUID, answer w1)]).
  unfold retryWithBackoff, axios.
  destruct (@request_loop unit
              (CallHttp (createRequest cfg target uuid) (text (answer w)))
              2 1000 10000 (fun a => eq_refl) 3%nat 0 None tt w2)
    as (r & tr & failed & a & E & Hf & Hlen & Hall & Hr); [lia | reflexivity |].
  change (optMaxRetries (mkRetryOptions (Some 2) None None)) with 2.
  change (optBaseDelay (mkRetryOptions (Some 2) None None)) with 1000.
  change (optMaxDelay (mkRetryOptions (Some 2) None None)) with 10000.
  change (Z.to_nat (2 + 1)) with 3%nat.
  unfold createRequest in E. rewrite E.
  apply (filter_create_loop
           (CallHttp (createRequest cfg target uuid) (text (answer w))) _ _
           (fun a => eq_refl)) in Hf.
  destruct (failure a) as [e|] eqn:Efa.
  - destruct Hr as [-> Hr]. unfold w2, w1. rewrite !grow_grow. cbn [app].
    eexists None, _. split; [reflexivity|].
    exists uuid, failed, a. cbn [List.filter is_create fst].
    split; [exact Hf|]. split; [lia|]. split; [done|]. rewrite Efa. split; [done | lia].
  - subst r. unfold Date_now.
    cbv beta iota zeta delta [bind perform ret fst snd].
    unfold w2, w1. rewrite !grow_grow. cbn [app].
    eexists (Some _), _. split; [reflexivity|].
    exists uuid, failed, a. cbn [List.filter is_create fst].
    rewrite !List.filter_app. cbn [List.filter is_create fst]. rewrite !app_nil_r.
    split; [exact Hf|]. split; [lia|]. split; [done|]. rewrite Efa.
    eexists. by repeat split.
Qed.

Lemma createAICard_requests_witness :
  exists res tr,
    createAICard (mkConfig (lit "app") None None) CardCache.sampleTarget
      (tt, scripted [fine; fine; failing 500]) =
      (Ok res, (tt, grow (scripted [fine; fine; failing 500])
                      ((CallGetAccessToken (mkConfig (lit "app") None None), fine)
                       :: tr))) /\
    (1 <= length (List.filter is_create tr) <= 3)%nat.
Proof.
  destruct (createAICard_requests (mkConfig (lit "app") None None)
              CardCache.sampleTarget (scripted [fine; fine; failing 500]))
    as (res & tr & E & H).
  exists res, tr. split; [exact E|].
  change (failure (answer (scripted [fine; fine; failing 500]))) with (@None Error) in H.
  destruct H as (uuid & failed & a & -> & Hlen & _).
  rewrite length_map, length_app. cbn [length]. lia.
Defined.

(** *** What a push never changes *)

Lemma afterUpdate_ids (finished : bool) (t : Z) (card : AICardInstance) :
  cardInstanceId (afterUpdate finished t card) = cardInstanceId card /\
  createdAt (afterUpdate finished t card) = createdAt card /\
  config (afterUpdate finished t card) = config card.
Proof.
  unfold afterUpdate. destruct finished; [done|].
  by destruct (bool_decide _).
Qed.

Lemma refresh_run_ids (card card' : AICardInstance) (tr : list (Call * Answer)) :
  refresh_run card card' tr ->
  cardInstanceId card' = cardInstanceId card /\
  createdAt card' = createdAt card /\ config card' = config card.
Proof. by intros []. Qed.

Lemma inputing_run_ids (card card' : AICardInstance) (r : Outcome unit)
    (tr : list (Call * Answer)) :
  inputing_run card r card' tr ->
  cardInstanceId card' = cardInstanceId card /\
  createdAt card' = createdAt card /\ config card' = config card.
Proof. by intros []. Qed.

Lemma push_run_ids (card card' : AICardInstance) (content : jstring)
    (finished : bool) (r : Outcome unit) (tr : list (Call * Answer)) :
  push_run card content finished r card' tr ->
  cardInstanceId card' = cardInstanceId card /\
  createdAt card' = createdAt card /\ config card' = config card.
Proof.
  intros []; try done;
    match goal with
    | |- context [afterUpdate ?f ?t ?c] =>
        destruct (afterUpdate_ids f t c) as (-> & -> & ->)
    end; done.
Qed.

Lemma stream_run_ids (card card' : AICardInstance) (content : jstring)
    (finished : bool) (r : Outcome unit) (tr : list (Call * Answer)) :
  stream_run card content finished r card' tr ->
  cardInstanceId card' = cardInstanceId card /\
  createdAt card' = createdAt card /\ config card' = config card.
Proof.
  intros [card1 tr1 e tr2 R1 R2 | card1 tr1 card2 tr2 r' card3 tr3 R1 R2 R3].
  - by apply refresh_run_ids in R1.
  - apply refresh_run_ids in R1 as (? & ? & ?).
    apply inputing_run_ids in R2 as (? & ? & ?).
    apply push_run_ids in R3 as (? & ? & ?). repeat split; congruence.
Qed.

(** X17.  [finishAICard] throws exactly when its finalizing push throws, and
    leaves the instance as the push left it.  After an accepted push it
    sends one status update, [PUT /v1.0/card/instances] with FINISHED and
    the final content, under the instance's id and current token; whether
    that update is accepted or not changes nothing.  After a failed push
    it sends nothing more. *)
Theorem finishAICard_swallows (card : AICardInstance) (content : jstring)
    (w : World) :
  outcome (finishAICard content (card, w))
    = outcome (streamAICard content true (card, w)) /\
  data (finishAICard content (card, w))
    = data (streamAICard content true (card, w)) /\
  cardInstanceId (data (finishAICard content (card, w))) = cardInstanceId card /\
  world (finishAICard content (card, w)) =
    match outcome (streamAICard content true (card, w)) with
    | Ok _ =>
        grow (world (streamAICard content true (card, w)))
          [(CallHttp
              (PutInstances (cardInstanceId card) FINISHED content)
              (accessToken (data (streamAICard content true (card, w)))),
            answer (world (streamAICard content true (card, w))))]
    | Throw _ => world (streamAICard content true (card, w))
    end.
Proof.
  destruct (streamAICard_run card w content true) as (r & card' & tr & E & R).
  apply stream_run_ids in R as (Hid & _).
  assert (Efin : finishAICard content (card, w) =
            match r with
            | Ok _ =>
                (Ok tt,
                 (card',
                  grow (grow w tr)
                    [(CallHttp (PutInstances (cardInstanceId card) FINISHED content)
                               (accessToken card'), answer (grow w tr))]))
            | Throw e => (Throw e, (card', grow w tr))
            end).
  { unfold finishAICard. unfold bind at 1. rewrite E.
    destruct r as [[]|e]; [|done].
    exec. rewrite Hid. by destruct (failure (answer (grow w tr))). }
  rewrite Efin, E. unfold outcome, data, world.
  by destruct r as [[]|e].
Qed.

Lemma refreshIfStale_eq (card : AICardInstance) (w : World) :
  refreshIfStale (card, w) =
    if time (answer w) - createdAt card >? TOKEN_REFRESH_THRESHOLD
    then
      (Ok tt,
       (match failure (answer (grow w [(CallDateNow, answer w)])) with
        | None => set_accessToken (text (answer (grow w [(CallDateNow, answer w)]))) card
        | Some _ => card
        end,
        grow w [(CallDateNow, answer w);
                (CallGetAccessToken (config card),
                 answer (grow w [(CallDateNow, answer w)]))]))
    else (Ok tt, (card, grow w [(CallDateNow, answer w)])).
Proof.
  unfold refreshIfStale. exec. destruct (_ >? _); [|done].
  exec. rewrite grow_grow. by destruct (failure _).
Qed.

(** The second and third block never start with a token request. *)
Lemma after_refresh_run (card : AICardInstance) (w : World) (content : jstring)
    (finished : bool) :
  exists r card' tr,
    (ensureInputing >> pushContent content finished) (card, w)
      = (r, (card', grow w tr)) /\
    match tr with
    | (CallGetAccessToken _, _) :: _ => False
    | _ => True
    end.
Proof.
  destruct (ensureInputing_run card w) as (r2 & card2 & tr2 & E2 & R2).
  unfold bind. rewrite E2.
  destruct r2 as [[]|e].
  - destruct (pushContent_run card2 (grow w tr2) content finished)
      as (r3 & card3 & tr3 & E3 & R3).
    rewrite E3, grow_grow. exists r3, card3, (tr2 ++ tr3). split; [done|].
    destruct R2; destruct R3; exact I.
  - exists (Throw e), card2, tr2. split; [done|]. by destruct R2.
Qed.

(** X18.  A push never changes the instance's id, configuration or creation
    time, and it always starts by reading the clock.  When that reading is
    more than 90 minutes past the creation time the very next call is a
    token request, and otherwise the next call is not one.  As the
    creation time is never reset, an instance older than 90 minutes asks
    for a token at the start of every push. *)
Theorem token_age_refresh (card : AICardInstance) (content : jstring)
    (finished : bool) (w : World) :
  createdAt (data (streamAICard content finished (card, w))) = createdAt card /\
  cardInstanceId (data (streamAICard content finished (card, w)))
    = cardInstanceId card /\
  config (data (streamAICard content finished (card, w))) = config card /\
  exists tr,
    world (streamAICard content finished (card, w))
      = grow w ((CallDateNow, answer w) :: tr) /\
    if time (answer w) - createdAt card >? TOKEN_REFRESH_THRESHOLD
    then exists a tr', tr = (CallGetAccessToken (config card), a) :: tr'
    else match tr with
         | (CallGetAccessToken _, _) :: _ => False
         | _ => True
         end.
Proof.
  split; [|split; [|split]].
  1-3: destruct (streamAICard_run card w content finished) as (r & card' & tr & E & R);
       rewrite E; unfold data; cbn [fst snd];
       by destruct (stream_run_ids _ _ _ _ _ _ R) as (? & ? & ?).
  unfold streamAICard. unfold bind at 1. rewrite refreshIfStale_eq.
  destruct (_ >? _).
  - match goal with
    | |- context [(ensureInputing >> pushContent content finished) (?c, ?w')] =>
        destruct (after_refresh_run c w' content finished) as (r & card' & tr & E & _)
    end.
    cbv beta iota. rewrite E, grow_grow. cbn [app]. unfold world. cbn [snd].
    eexists. split; [reflexivity|]. eauto.
  - destruct (after_refresh_run card (grow w [(CallDateNow, answer w)])
                content finished) as (r & card' & tr & E & Htr).
    cbv beta iota. rewrite E, grow_grow. cbn [app]. unfold world. cbn [snd].
    exists tr. split; [reflexivity | exact Htr].
Qed.

(** X19.  Every content update a push sends is a full replacement under the
    key [msgContent], carries the instance's id, the content given and the
    [finished] flag, and is never marked as an error; a push sends at most
    two of them, and the second, sent after a 401, repeats the body of the
    first, guid included. *)
Theorem push_updates_identical (card : AICardInstance) (content : jstring)
    (finished : bool) (w : World) :
  exists guid,
    Forall
      (fun ev =>
         is_update ev = true ->
         exists token,
           ev.1 = CallHttp
                    (PutStreaming
                       (mkStreamingRequest (cardInstanceId card) guid
                          (lit "msgContent") content true finished false))
                    token)
      (new_calls w (world (streamAICard content finished (card, w)))) /\
    (length (List.filter is_update
               (new_calls w (world (streamAICard content finished (card, w)))))
     <= 2)%nat.
Proof.
  destruct (streamAICard_run card w content finished) as (r & card' & tr & E & R).
  rewrite E. unfold world. cbn [snd]. rewrite new_calls_grow.
  destruct R as [card1 tr1 e tr2 R1 R2 | card1 tr1 card2 tr2 r' card3 tr3 R1 R2 R3].
  - exists []. destruct R1; inversion R2; subst; cbn; split; try lia;
      repeat constructor; discriminate.
  - apply refresh_run_ids in R1 as Hid1. destruct Hid1 as (Hid1 & _).
    apply inputing_run_ids in R2 as Hid2. destruct Hid2 as (Hid2 & _).
    assert (Hid : cardInstanceId card2 = cardInstanceId card) by congruence.
    destruct R1; inversion R2; subst; destruct R3;
      unfold streamBody; rewrite ?Hid; cbn [cardInstanceId set_inputingStarted
                                            set_accessToken] in *;
      eexists; (split; [|cbn; lia]);
      repeat constructor; try discriminate; intros _; eexists; reflexivity.
Qed.

End CardMoreFacts.

(** ** The card cache: look-up, removal and the sweep *)

Module CardCacheMoreFacts.
Import Runtime Retry Card CardCache RuntimeFacts CardFacts CardCacheFacts.

(** X20.  [getActiveCardForTarget] never returns a terminal instance.  When
    it returns an instance it changes nothing, and [getOrCreateCard] for
    the same target returns that same instance without calling anything.
    When it returns [undefined] it changes neither the instances nor any
    other target's mapping, and the target is left unmapped (or mapped to
    the empty id it was mapped to). *)
Theorem getActiveCardForTarget_agrees (accountId conversationId : jstring)
    (cache : Cache) :
  (forall ref,
     (getActiveCardForTarget accountId conversationId cache).1 = Some ref ->
     (getActiveCardForTarget accountId conversationId cache).2 = cache /\
     (exists card, heap cache !! ref = Some card /\
                   isCardInTerminalState (state card) = false) /\
     forall cfg target w,
       t_accountId target = accountId ->
       t_conversationId target = conversationId ->
       getOrCreateCard cfg target (cache, w) = (Ok (Some ref), (cache, w))) /\
  ((getActiveCardForTarget accountId conversationId cache).1 = None ->
   heap (getActiveCardForTarget accountId conversationId cache).2 = heap cache /\
   cardInstances (getActiveCardForTarget accountId conversationId cache).2
     = cardInstances cache /\
   (forall other, other <> getTargetKey accountId conversationId ->
      activeCardsByTarget (getActiveCardForTarget accountId conversationId cache).2
        !! other = activeCardsByTarget cache !! other) /\
   (activeCardsByTarget (getActiveCardForTarget accountId conversationId cache).2
      !! getTargetKey accountId conversationId = None \/
    activeCardsByTarget (getActiveCardForTarget accountId conversationId cache).2
      !! getTargetKey accountId conversationId = Some [])).
Proof.
  unfold getActiveCardForTarget.
  destruct (activeCardsByTarget cache !! getTargetKey accountId conversationId)
    as [id|] eqn:Hk.
  2: { split; [discriminate|]. intros _. cbn [snd]. repeat split; auto. }
  destruct (truthy id) eqn:Hid; cbn [negb].
  2: { split; [discriminate|]. intros _. cbn [snd]. repeat split; auto.
       right. apply truthy_false in Hid. by subst id. }
  destruct (cachedCard cache id) as [[ref card]|] eqn:Hc.
  2: { split; [discriminate|]. intros _. cbn [snd deleteActive heap cardInstances
                                               activeCardsByTarget].
       repeat split; [intros other Hne; by apply lookup_delete_ne|].
       left. apply lookup_delete_eq. }
  destruct (isCardInTerminalState (state card)) eqn:Ht.
  { split; [discriminate|]. intros _. cbn [snd deleteActive heap cardInstances
                                            activeCardsByTarget].
    repeat split; [intros other Hne; by apply lookup_delete_ne|].
    left. apply lookup_delete_eq. }
  split; [|discriminate].
  cbn [fst snd]. intros ref' [= <-]. split; [done|]. split.
  - exists card. split; [|done]. unfold cachedCard in Hc.
    destruct (cardInstances cache !! id) as [r|]; [|done].
    destruct (heap cache !! r) eqn:Hh; [|done]. by injection Hc as -> ->.
  - intros cfg target w <- <-.
    apply (getOrCreateCard_reuse cfg target cache w id ref card); try done.
    by apply truthy_true.
Qed.

Lemma getActiveCardForTarget_agrees_witness :
  getOrCreateCard (mkConfig (lit "app") None None) sampleTarget
    (sampleCache INPUTING, scripted [])
  = (Ok (Some 0%nat), (sampleCache INPUTING, scripted [])).
Proof.
  destruct (getActiveCardForTarget_agrees (lit "acc") (lit "cid") (sampleCache INPUTING))
    as [H _].
  destruct (H 0%nat) as (_ & _ & Hget); [reflexivity|].
  apply Hget; reflexivity.
Defined.

(** X21.  After [removeActiveCard] the instances are all still cached by
    id, but the next [getOrCreateCard] for that target never reuses one:
    it runs [createAICard], asks of the world exactly what that asks, and
    returns [null] when it does, and otherwise the new card as a fresh
    instance, in state PROCESSING, now mapped to the target. *)
Theorem removeActiveCard_forces_new (cfg : DingTalkConfig) (target : AICardTarget)
    (cache : Cache) (w : World) :
  (forall id,
     getCachedCard id
       (removeActiveCard (t_accountId target) (t_conversationId target) cache)
     = getCachedCard id cache) /\
  world (getOrCreateCard cfg target
           (removeActiveCard (t_accountId target) (t_conversationId target) cache, w))
    = world (createAICard cfg target (tt, w)) /\
  match outcome (getOrCreateCard cfg target
                   (removeActiveCard (t_accountId target) (t_conversationId target)
                      cache, w)) with
  | Ok (Some ref) =>
      ref = length (heap cache) /\
      exists newCard,
        outcome (createAICard cfg target (tt, w)) = Ok (Some newCard) /\
        state newCard = PROCESSING /\
        heap (data (getOrCreateCard cfg target
                      (removeActiveCard (t_accountId target)
                         (t_conversationId target) cache, w))) !! ref
          = Some newCard /\
        activeCardsByTarget
          (data (getOrCreateCard cfg target
                   (removeActiveCard (t_accountId target)
                      (t_conversationId target) cache, w)))
          !! getTargetKey (t_accountId target) (t_conversationId target)
          = Some (cardInstanceId newCard)
  | Ok None => outcome (createAICard cfg target (tt, w)) = Ok None
  | Throw _ => False
  end.
Proof.
  split; [done|].
  set (key := getTargetKey (t_accountId target) (t_conversationId target)).
  destruct (createAICard_result cfg target w) as (res & w' & E & Hres).
  rewrite (getOrCreateCard_stale cfg target
             (removeActiveCard (t_accountId target) (t_conversationId target) cache)
             w res w').
  - rewrite E. fold key. unfold world, outcome, data.
    destruct res as [newCard|]; cbn [fst snd]; [|done].
    split; [done|]. split; [done|]. exists newCard.
    destruct Hres as (_ & Hst & _). split; [done|]. split; [done|].
    unfold install, removeActiveCard, deleteActive.
    cbn [heap activeCardsByTarget]. split.
    + rewrite lookup_app_r by lia. by rewrite Nat.sub_diag.
    + apply lookup_insert_eq.
  - left. unfold removeActiveCard, deleteActive. cbn [activeCardsByTarget].
    apply lookup_delete_eq.
  - exact E.
Qed.

(** *** The sweep *)

Lemma cachedCard_delete (cache : Cache) (active : gmap jstring jstring)
    (h id : jstring) :
  cachedCard (mkCache (heap cache) (delete h (cardInstances cache)) active) id =
    if bool_decide (h = id) then None else cachedCard cache id.
Proof.
  unfold cachedCard. cbn [cardInstances heap].
  destruct (bool_decide_reflect (h = id)) as [->|Hne].
  - by rewrite lookup_delete_eq.
  - by rewrite lookup_delete_ne.
Qed.

Lemma cleanupStep_cached (now : Z) (targetOrder : list jstring) (cache : Cache)
    (h id : jstring) :
  cachedCard (cleanupStep now targetOrder cache h) id =
    if bool_decide (h = id)
       && match cachedCard cache h with
          | Some (_, card) => expired now card
          | None => false
          end
    then None else cachedCard cache id.
Proof.
  unfold cleanupStep, expired.
  destruct (cachedCard cache h) as [[ref card]|] eqn:Hc;
    [|by rewrite andb_false_r].
  destruct (isCardInTerminalState (state card)
            && (now - lastUpdated card >? CARD_CACHE_TTL));
    [|by rewrite andb_false_r].
  rewrite andb_true_r. apply cachedCard_delete.
Qed.

Lemma cleanupStep_heap (now : Z) (targetOrder : list jstring) (cache : Cache)
    (h : jstring) :
  heap (cleanupStep now targetOrder cache h) = heap cache.
Proof.
  unfold cleanupStep. destruct (cachedCard cache h) as [[ref card]|]; [|done].
  by destruct (_ && _).
Qed.

(** A step deletes at most one mapping, and only one to the instance it
    removes. *)
Lemma cleanupStep_active (now : Z) (targetOrder : list jstring) (cache : Cache)
    (h : jstring) :
  activeCardsByTarget (cleanupStep now targetOrder cache h)
    = activeCardsByTarget cache \/
  exists k ref card,
    cachedCard cache h = Some (ref, card) /\ expired now card = true /\
    firstTargetOf h targetOrder (activeCardsByTarget cache) = Some k /\
    activeCardsByTarget cache !! k = Some h /\
    activeCardsByTarget (cleanupStep now targetOrder cache h)
      = delete k (activeCardsByTarget cache).
Proof.
  unfold cleanupStep.
  destruct (cachedCard cache h) as [[ref card]|] eqn:Hc; [|by left].
  fold (expired now card). destruct (expired now card) eqn:He; [|by left].
  cbn [activeCardsByTarget].
  destruct (firstTargetOf h targetOrder (activeCardsByTarget cache)) as [k|] eqn:Hf;
    [|by left].
  right. exists k, ref, card. repeat split; try done.
  unfold firstTargetOf in Hf. apply find_some in Hf as [_ Hf].
  by apply bool_decide_eq_true in Hf.
Qed.

Lemma cleanupStep_first (now : Z) (targetOrder : list jstring) (cache : Cache)
    (h k : jstring) (ref : nat) (card : AICardInstance) :
  cachedCard cache h = Some (ref, card) -> expired now card = true ->
  In k targetOrder -> activeCardsByTarget cache !! k = Some h ->
  (forall k', activeCardsByTarget cache !! k' = Some h -> k' = k) ->
  activeCardsByTarget (cleanupStep now targetOrder cache h) !! k = None.
Proof.
  intros Hc He Hin Hk Huniq. unfold cleanupStep. rewrite Hc.
  fold (expired now card). rewrite He. cbn [activeCardsByTarget].
  destruct (firstTargetOf h targetOrder (activeCardsByTarget cache)) as [k'|] eqn:Hf.
  - unfold firstTargetOf in Hf. apply find_some in Hf as [_ Hf].
    apply bool_decide_eq_true in Hf. rewrite (Huniq k' Hf). apply lookup_delete_eq.
  - unfold firstTargetOf in Hf.
    pose proof (find_none _ _ Hf k Hin) as Hno. cbn beta in Hno.
    by rewrite bool_decide_eq_true_2 in Hno.
Qed.

Lemma cleanupCardCache_run (now : Z) (targetOrder cardOrder : list jstring) :
  forall cache : Cache,
  heap (cleanupCardCache now cardOrder targetOrder cache) = heap cache /\
  (forall id, cachedCard cache id = None ->
     cachedCard (cleanupCardCache now cardOrder targetOrder cache) id = None) /\
  (forall id ref card,
     cachedCard cache id = Some (ref, card) ->
     In id cardOrder -> expired now card = true ->
     cachedCard (cleanupCardCache now cardOrder targetOrder cache) id = None) /\
  (forall id ref card,
     cachedCard cache id = Some (ref, card) ->
     ~ In id cardOrder \/ expired now card = false ->
     cachedCard (cleanupCardCache now cardOrder targetOrder cache) id
       = Some (ref, card)) /\
  (forall k id,
     activeCardsByTarget (cleanupCardCache now cardOrder targetOrder cache) !! k
       = Some id ->
     activeCardsByTarget cache !! k = Some id) /\
  (forall k id,
     activeCardsByTarget cache !! k = Some id ->
     activeCardsByTarget (cleanupCardCache now cardOrder targetOrder cache) !! k
       = Some id \/
     exists ref card, cachedCard cache id = Some (ref, card) /\
                      expired now card = true /\ In id cardOrder) /\
  (forall k id ref card,
     activeCardsByTarget cache !! k = Some id ->
     cachedCard cache id = Some (ref, card) -> expired now card = true ->
     In id cardOrder -> In k targetOrder ->
     (forall k', activeCardsByTarget cache !! k' = Some id -> k' = k) ->
     activeCardsByTarget (cleanupCardCache now cardOrder targetOrder cache) !! k
       = None).
Proof.
  unfold cleanupCardCache.
  induction cardOrder as [|h cardOrder IH]; intros cache; cbn [fold_left].
  { repeat split; auto.
    - by intros id ref card _ [].
    - by intros k id ref card _ _ _ []. }
  destruct (IH (cleanupStep now targetOrder cache h))
    as (Hheap & Hnone & Hgone & Hsome & Hsub & Hkeep & Hfirst).
  pose proof (cleanupStep_cached now targetOrder cache h) as Hstep.
  assert (Hact : forall k id,
            activeCardsByTarget (cleanupStep now targetOrder cache h) !! k = Some id ->
            activeCardsByTarget cache !! k = Some id).
  { intros k id.
    destruct (cleanupStep_active now targetOrder cache h)
      as [-> | (k0 & ref & card & _ & _ & _ & _ & ->)]; [done|].
    by intros [_ ?]%lookup_delete_Some. }
  split; [by rewrite Hheap, cleanupStep_heap|].
  split; [|split; [|split; [|split; [|split]]]].
  - intros id Hid. apply Hnone. rewrite Hstep, Hid. by destruct (_ && _).
  - intros id ref card Hid Hin He. specialize (Hstep id).
    destruct (bool_decide_reflect (h = id)) as [->|Hne].
    + rewrite Hid, He in Hstep. by apply Hnone.
    + destruct Hin as [? | Hin]; [done|].
      by apply (Hgone id ref card); [rewrite Hstep|..].
  - intros id ref card Hid Hlive. specialize (Hstep id).
    apply Hsome.
    + rewrite Hstep. destruct (bool_decide_reflect (h = id)) as [->|Hne]; [|done].
      rewrite Hid. destruct Hlive as [Hnin | ->]; [|done].
      exfalso. apply Hnin. by left.
    + destruct Hlive as [Hnin | ?]; [|by right].
      left. intros Hin. apply Hnin. by right.
  - intros k id Hk. by apply Hact, Hsub.
  - intros k id Hk.
    destruct (cleanupStep_active now targetOrder cache h)
      as [Eact | (k0 & ref & card & Hc & He & _ & Hk0 & Eact)].
    + destruct (Hkeep k id) as [? | (ref & card & Hc & He & Hin)];
        [by rewrite Eact | by left |].
      right. exists ref, card. split; [|split; [done | by right]].
      rewrite Hstep in Hc. by destruct (_ && _).
    + destruct (decide (k0 = k)) as [->|Hne].
      * right. exists ref, card. rewrite Hk in Hk0. injection Hk0 as ->.
        split; [done|]. split; [done | by left].
      * destruct (Hkeep k id) as [? | (ref' & card' & Hc' & He' & Hin)];
          [by rewrite Eact, lookup_delete_ne | by left |].
        right. exists ref', card'. split; [|split; [done | by right]].
        rewrite Hstep in Hc'. by destruct (_ && _).
  - intros k id ref card Hk Hc He Hin Hkin Huniq.
    destruct (decide (h = id)) as [->|Hne].
    + pose proof (cleanupStep_first now targetOrder cache id k ref card
                    Hc He Hkin Hk Huniq) as Hdel.
      destruct (activeCardsByTarget
                  (fold_left (cleanupStep now targetOrder) cardOrder
                     (cleanupStep now targetOrder cache id)) !! k) as [x|] eqn:Ex;
        [|done].
      apply Hsub in Ex. congruence.
    + destruct Hin as [? | Hin]; [done|].
      apply (Hfirst k id ref card); try done.
      * destruct (cleanupStep_active now targetOrder cache h)
          as [-> | (k0 & ref0 & card0 & _ & _ & _ & Hk0 & ->)]; [done|].
        rewrite lookup_delete_ne; [done|]. intros ->. congruence.
      * rewrite Hstep. by rewrite bool_decide_eq_false_2.
      * intros k' Hk'. apply Huniq. by apply Hact.
Qed.

(** X22.  [cleanupCardCache] changes no instance.  A cached instance is
    dropped from the cache exactly when it is terminal and was last
    updated more than an hour before the reading taken; every other
    instance stays cached.  A target's mapping is deleted only if it points
    to an instance that is dropped, and it is deleted whenever it is the
    only mapping to that instance; mappings to surviving instances are
    never touched, and nothing is ever added. *)
Theorem cleanupCardCache_sweeps (now : Z) (cardOrder targetOrder : list jstring)
    (cache : Cache) :
  (forall id, is_Some (cardInstances cache !! id) -> In id cardOrder) ->
  (forall k, is_Some (activeCardsByTarget cache !! k) -> In k targetOrder) ->
  heap (cleanupCardCache now cardOrder targetOrder cache) = heap cache /\
  (forall id,
     getCachedCard id (cleanupCardCache now cardOrder targetOrder cache) =
       match getCachedCard id cache with
       | Some (ref, card) => if expired now card then None else Some (ref, card)
       | None => None
       end) /\
  (forall k id,
     activeCardsByTarget (cleanupCardCache now cardOrder targetOrder cache) !! k
       = Some id ->
     activeCardsByTarget cache !! k = Some id) /\
  (forall k id,
     activeCardsByTarget cache !! k = Some id ->
     (forall ref card, getCachedCard id cache = Some (ref, card) ->
                       expired now card = false) ->
     activeCardsByTarget (cleanupCardCache now cardOrder targetOrder cache) !! k
       = Some id) /\
  (forall k id ref card,
     activeCardsByTarget cache !! k = Some id ->
     getCachedCard id cache = Some (ref, card) -> expired now card = true ->
     (forall k', activeCardsByTarget cache !! k' = Some id -> k' = k) ->
     activeCardsByTarget (cleanupCardCache now cardOrder targetOrder cache) !! k
       = None).
Proof.
  intros Hcards Htargets. unfold getCachedCard.
  destruct (cleanupCardCache_run now targetOrder cardOrder cache)
    as (Hheap & Hnone & Hgone & Hsome & Hsub & Hkeep & Hfirst).
  split; [done|]. split; [|split; [done|split]].
  - intros id. destruct (cachedCard cache id) as [[ref card]|] eqn:Hc;
      [|by apply Hnone].
    destruct (expired now card) eqn:He.
    + apply (Hgone id ref card Hc); [|done].
      apply Hcards. unfold cachedCard in Hc.
      by destruct (cardInstances cache !! id).
    + apply (Hsome id ref card Hc). by right.
  - intros k id Hk Hlive.
    destruct (Hkeep k id Hk) as [? | (ref & card & Hc & He & _)]; [done|].
    by rewrite (Hlive ref card Hc) in He.
  - intros k id ref card Hk Hc He Huniq.
    apply (Hfirst k id ref card); try done.
    + apply Hcards. unfold cachedCard in Hc. by destruct (cardInstances cache !! id).
    + apply Htargets. by rewrite Hk.
Qed.

Lemma cleanupCardCache_sweeps_witness :
  getCachedCard (lit "card_1")
    (cleanupCardCache 4000000 [lit "card_1"] [lit "acc:cid"] (sampleCache FINISHED))
    = None /\
  activeCardsByTarget
    (cleanupCardCache 4000000 [lit "card_1"] [lit "acc:cid"] (sampleCache INPUTING))
    !! lit "acc:cid" = Some (lit "card_1").
Proof.
  assert (Hcards : forall st id,
            is_Some (cardInstances (sampleCache st) !! id) -> In id [lit "card_1"]).
  { intros st id. cbn [sampleCache cardInstances].
    destruct (decide (id = lit "card_1")) as [->|Hne]; [by left|].
    rewrite lookup_singleton_ne by done. by intros []. }
  assert (Htargets : forall st k,
            is_Some (activeCardsByTarget (sampleCache st) !! k) ->
            In k [lit "acc:cid"]).
  { intros st k. cbn [sampleCache activeCardsByTarget].
    destruct (decide (k = lit "acc:cid")) as [->|Hne]; [by left|].
    rewrite lookup_singleton_ne by done. by intros []. }
  split.
  - destruct (cleanupCardCache_sweeps 4000000 [lit "card_1"] [lit "acc:cid"]
                (sampleCache FINISHED) (Hcards FINISHED) (Htargets FINISHED))
      as (_ & H & _).
    rewrite H. reflexivity.
  - destruct (cleanupCardCache_sweeps 4000000 [lit "card_1"] [lit "acc:cid"]
                (sampleCache INPUTING) (Hcards INPUTING) (Htargets INPUTING))
      as (_ & _ & _ & H & _).
    apply H; [reflexivity|].
    intros ref card Hc. vm_compute in Hc. injection Hc as _ <-. reflexivity.
Defined.

End CardCacheMoreFacts.

(** ** The helpers *)

Module HelpersFacts.
Import Js Helpers JsFacts SessionOpsFacts StreamChunkFacts.

(** *** The channel prefix *)

Lemma matchesIgnoreCase_cases (p c : N) :
  matchesIgnoreCase p c = true ->
  c = p \/ (((97 <=? p) && (p <=? 122))%N = true /\ c = (p - 32)%N).
Proof.
  unfold matchesIgnoreCase. intros [H|H]%orb_true_iff.
  - left. by apply N.eqb_eq.
  - right. apply andb_true_iff in H as [H1 H2]. split; [done|]. by apply N.eqb_eq.
Qed.

Lemma stripPrefixIgnoreCase_app (pattern p s : jstring) :
  stripPrefixIgnoreCase pattern p = Some [] ->
  stripPrefixIgnoreCase pattern (p ++ s) = Some s.
Proof.
  revert p. induction pattern as [|a pattern IH]; intros [|c p];
    cbn [stripPrefixIgnoreCase app]; try done.
  destruct (matchesIgnoreCase a c); [apply IH | done].
Qed.

Lemma stripPrefixIgnoreCase_exact (pattern p : jstring) :
  stripPrefixIgnoreCase pattern p = Some [] ->
  Forall2 (fun a c => matchesIgnoreCase a c = true) pattern p.
Proof.
  revert p. induction pattern as [|a pattern IH]; intros [|c p];
    cbn [stripPrefixIgnoreCase]; try done.
  destruct (matchesIgnoreCase a c) eqn:E; [|done].
  intros H. constructor; [done | by apply IH].
Qed.

Ltac spell H :=
  apply stripPrefixIgnoreCase_exact in H; vm_compute lit in H;
  repeat match goal with
         | H : Forall2 _ (_ :: _) _ |- _ => inversion H; subst; clear H
         | H : Forall2 _ [] _ |- _ => inversion H; subst; clear H
         end;
  repeat match goal with
         | H : matchesIgnoreCase _ _ = true |- _ =>
             apply matchesIgnoreCase_cases in H as [->|[H ->]];
             [|first [discriminate H | clear H]]
         end.

(** A channel prefix is taken off, whatever follows it. *)
Lemma stripChannelPrefix_prefixed (p id : jstring) :
  channelPrefix p -> stripChannelPrefix (p ++ id) = id.
Proof.
  intros [H|[H|H]].
  - unfold stripChannelPrefix. by rewrite (stripPrefixIgnoreCase_app _ _ _ H).
  - spell H; reflexivity.
  - spell H; reflexivity.
Qed.

Lemma channelPrefix_first (p : jstring) :
  channelPrefix p -> trimStart p = p /\ p <> [].
Proof. intros [H|[H|H]]; spell H; split; done. Qed.

(** *** The allow list *)

Lemma includesEntry_In (value : jstring) (array : list jstring) :
  includesEntry value array = true <-> In value array.
Proof.
  unfold includesEntry. rewrite existsb_exists. split.
  - intros (v & Hv & E). apply bool_decide_eq_true in E. by subst.
  - intros H. exists value. split; [done|]. by apply bool_decide_eq_true.
Qed.

(** The entries that count: trimmed and not blank. *)
Lemma kept_In (value : jstring) (l : list jstring) :
  In value (List.filter truthy (map trim l)) <->
  exists entry, In entry l /\ trim entry = value /\ value <> [].
Proof.
  rewrite List.filter_In, in_map_iff, truthy_true. split.
  - intros [(entry & E & Hin) Hne]. eauto.
  - intros (entry & Hin & E & Hne). eauto.
Qed.

Section Case.
Variable toLowerCase : jstring -> jstring.

Lemma hasEntries_blank (list : option (list jstring)) :
  Forall (fun v => trim v = []) (default [] list) ->
  hasEntries (normalizeAllowFrom toLowerCase list) = false.
Proof.
  intros H. cbn [normalizeAllowFrom hasEntries].
  replace (List.filter truthy (map trim (default [] list))) with (@nil jstring); [done|].
  symmetry. induction H as [|v l Hv _ IH]; [done|].
  cbn [map List.filter]. by rewrite Hv.
Qed.

Lemma hasEntries_some (list : option (list jstring)) :
  Exists (fun v => trim v <> []) (default [] list) ->
  hasEntries (normalizeAllowFrom toLowerCase list) = true.
Proof.
  intros H. cbn [normalizeAllowFrom hasEntries].
  apply Exists_exists in H as (v & Hin & Hv).
  assert (Hk : In (trim v) (List.filter truthy (map trim (default [] list)))).
  { apply kept_In. apply list_elem_of_In in Hin. eauto. }
  destruct (List.filter _ _); [destruct Hk | done].
Qed.

Lemma hasWildcard_iff (list : option (list jstring)) :
  hasWildcard (normalizeAllowFrom toLowerCase list) = true <->
  Exists (fun v => trim v = lit "*") (default [] list).
Proof.
  cbn [normalizeAllowFrom hasWildcard]. rewrite includesEntry_In, kept_In, Exists_exists.
  split.
  - intros (entry & Hin & E & _). exists entry. split; [by apply list_elem_of_In | done].
  - intros (entry & Hin & E). exists entry. rewrite E.
    split; [by apply list_elem_of_In | done].
Qed.

Lemma entriesLower_In (list : option (list jstring)) (value : jstring) :
  In value (entriesLower (normalizeAllowFrom toLowerCase list)) <->
  exists entry, In entry (default [] list) /\ trim entry <> [] /\
                trim entry <> lit "*" /\
                toLowerCase (stripChannelPrefix (trim entry)) = value.
Proof.
  cbn [normalizeAllowFrom entriesLower]. rewrite in_map_iff. split.
  - intros (x & <- & (y & <- & Hy)%in_map_iff).
    apply List.filter_In in Hy as [(entry & Hin & <- & Hne)%kept_In Hstar].
    apply negb_true_iff, bool_decide_eq_false in Hstar. eauto 6.
  - intros (entry & Hin & Hne & Hstar & <-).
    eexists. split; [reflexivity|]. apply in_map_iff. eexists. split; [reflexivity|].
    apply List.filter_In. split; [apply kept_In; eauto|].
    by apply negb_true_iff, bool_decide_eq_false.
Qed.

(** X23.  [normalizeAllowFrom] with [isSenderAllowed] lets everyone in, a
    missing sender id included, when the list is missing, is empty or
    holds only blank entries, and when one of its entries is the
    wildcard (white space around it aside). *)
Theorem allowFrom_open (list : option (list jstring)) (senderId : option jstring) :
  Forall (fun v => trim v = []) (default [] list) \/
  Exists (fun v => trim v = lit "*") (default [] list) ->
  isSenderAllowed toLowerCase (normalizeAllowFrom toLowerCase list) senderId = true.
Proof.
  intros [H|H]; unfold isSenderAllowed.
  - by rewrite hasEntries_blank.
  - apply hasWildcard_iff in H. rewrite H. by destruct (negb _).
Qed.

(** X24.  Under a list with an entry that is not blank and without the
    wildcard, [isSenderAllowed] accepts exactly the non-empty sender ids
    whose lower-case form is the lower-case form of an entry, trimmed and
    with its channel prefix taken off; so a sender listed as [dingtalk:ID],
    [dd:ID] or [ding:ID], in any letter case of the prefix, is accepted,
    and a missing or empty sender id is refused. *)
Theorem allowFrom_listed (list : option (list jstring)) :
  Exists (fun v => trim v <> []) (default [] list) ->
  Forall (fun v => trim v <> lit "*") (default [] list) ->
  (forall senderId,
     isSenderAllowed toLowerCase (normalizeAllowFrom toLowerCase list) senderId = true <->
     exists id entry,
       senderId = Some id /\ id <> [] /\ In entry (default [] list) /\
       trim entry <> [] /\
       toLowerCase (stripChannelPrefix (trim entry)) = toLowerCase id) /\
  (forall entry p id,
     In entry (default [] list) -> channelPrefix p -> trim entry = p ++ id ->
     id <> [] ->
     isSenderAllowed toLowerCase (normalizeAllowFrom toLowerCase list) (Some id) = true).
Proof.
  intros Hsome Hstar.
  assert (Hw : hasWildcard (normalizeAllowFrom toLowerCase list) = false).
  { apply not_true_is_false. intros H%hasWildcard_iff.
    apply Exists_exists in H as (v & Hin & Hv).
    rewrite Forall_forall in Hstar. by apply (Hstar v). }
  assert (Hiff : forall senderId,
     isSenderAllowed toLowerCase (normalizeAllowFrom toLowerCase list) senderId = true <->
     exists id entry,
       senderId = Some id /\ id <> [] /\ In entry (default [] list) /\
       trim entry <> [] /\
       toLowerCase (stripChannelPrefix (trim entry)) = toLowerCase id).
  { intros senderId. unfold isSenderAllowed.
    rewrite (hasEntries_some _ Hsome), Hw. cbn [negb].
    destruct senderId as [id|]; [|split; [done | by intros (? & ? & ? & _)]].
    rewrite andb_true_iff, truthy_true, includesEntry_In, entriesLower_In. split.
    - intros [Hid (entry & Hin & Hne & _ & E)]. eauto 8.
    - intros (id' & entry & [= <-] & Hid & Hin & Hne & E).
      split; [done|]. exists entry. repeat split; try done.
      rewrite Forall_forall in Hstar. apply Hstar. by apply list_elem_of_In. }
  split; [exact Hiff|].
  intros entry p id Hin Hp E Hid. apply Hiff.
  exists id, entry. repeat split; try done.
  - rewrite E. destruct p; [by destruct (channelPrefix_first [] Hp) | done].
  - by rewrite E, stripChannelPrefix_prefixed.
Qed.

End Case.

Lemma allowFrom_open_witness :
  isSenderAllowed sampleLower
    (normalizeAllowFrom sampleLower (Some [lit "  "; lit " * "; lit "alice"])) None = true.
Proof.
  apply allowFrom_open. right. apply Exists_cons_tl, Exists_cons_hd. vm_compute. reflexivity.
Defined.

Lemma allowFrom_listed_witness :
  isSenderAllowed sampleLower
    (normalizeAllowFrom sampleLower (Some [lit " DingTalk:Alice "; lit "dd:bob"]))
    (Some (lit "alice")) = true.
Proof.
  assert (Hsome : Exists (fun v => trim v <> [])
                    (default [] (Some [lit " DingTalk:Alice "; lit "dd:bob"]))).
  { apply Exists_cons_hd. vm_compute. discriminate. }
  assert (Hstar : Forall (fun v => trim v <> lit "*")
                    (default [] (Some [lit " DingTalk:Alice "; lit "dd:bob"]))).
  { repeat constructor; vm_compute; discriminate. }
  apply (proj1 (allowFrom_listed sampleLower _ Hsome Hstar)).
  exists (lit "alice"), (lit " DingTalk:Alice ").
  repeat split; try (vm_compute; discriminate).
  - vm_compute. by left.
Defined.

(** *** Targets *)

Lemma trimStart_split (s : jstring) : exists pad, s = pad ++ trimStart s.
Proof.
  induction s as [|c s (pad & IH)]; [by exists []|].
  cbn [trimStart]. destruct (_ || _); [|by exists []].
  exists (c :: pad). cbn [app]. by rewrite <- IH.
Qed.

Lemma trimStart_same_length (s : jstring) :
  length (trimStart s) = length s -> trimStart s = s.
Proof.
  destruct (trimStart_split s) as (pad & E). intros H.
  rewrite E in H at 2. rewrite length_app in H.
  destruct pad; [done | cbn [length] in H; lia].
Qed.

Lemma trimStart_length (s : jstring) : (length (trimStart s) <= length s)%nat.
Proof.
  destruct (trimStart_split s) as (pad & E). rewrite E at 2. rewrite length_app. lia.
Qed.

Lemma trim_fixed_parts (s : jstring) :
  trim s = s -> trimStart s = s /\ trimStart (rev s) = rev s.
Proof.
  intros H. assert (Hl : length (trim s) = length s) by (by rewrite H).
  unfold trim, trimEnd in Hl. rewrite length_rev in Hl.
  pose proof (trimStart_length (rev (trimStart s))) as H1.
  pose proof (trimStart_length s) as H2. rewrite length_rev in H1.
  assert (E : trimStart s = s) by (apply trimStart_same_length; lia).
  split; [done|]. apply trimStart_same_length. rewrite E in Hl. by rewrite length_rev.
Qed.

(** A trimmed text stays as it is behind a trimmed, non-empty one. *)
Lemma trim_app_fixed (a b : jstring) :
  trim a = a -> a <> [] -> trim b = b -> trim (a ++ b) = a ++ b.
Proof.
  intros Ha Hne Hb. destruct b as [|c b]; [by rewrite app_nil_r|].
  apply trim_fixed_parts in Ha as [Ha _]. apply trim_fixed_parts in Hb as [_ Hb].
  unfold trim, trimEnd. rewrite trimStart_app, Ha.
  destruct a as [|a0 a]; [done|].
  rewrite rev_app_distr, trimStart_app, Hb.
  destruct (rev (c :: b)) eqn:E.
  - apply (f_equal (@length N)) in E. rewrite length_rev in E. done.
  - by rewrite <- E, <- rev_app_distr, rev_involutive.
Qed.

Lemma parseTarget_padded (pre s post : jstring) :
  Forall (fun c => isSpace c = true) pre ->
  Forall (fun c => isSpace c = true) post ->
  parseTarget (pre ++ s ++ post) = parseTarget s.
Proof. intros Hpre Hpost. unfold parseTarget. by rewrite trim_padded. Qed.

Lemma prefixed_trimmed (p tag id : jstring) :
  p = [] \/ channelPrefix p -> trim (p ++ tag) = p ++ tag -> p ++ tag <> [] ->
  trim id = id ->
  trim (p ++ tag ++ id) = p ++ tag ++ id /\
  stripChannelPrefix (p ++ tag ++ id) = stripChannelPrefix (tag ++ id) \/
  trim (p ++ tag ++ id) = p ++ tag ++ id /\
  stripChannelPrefix (p ++ tag ++ id) = tag ++ id.
Proof.
  intros Hp Ht Hne Hid.
  assert (E : trim (p ++ tag ++ id) = p ++ tag ++ id).
  { rewrite app_assoc. by apply trim_app_fixed. }
  destruct Hp as [->|Hp]; [left; by split|].
  right. split; [done|]. by apply stripChannelPrefix_prefixed.
Qed.

(** X25.  [parseTarget] reads a tagged target back: [user:ID] is the user
    [ID], [group:ID] the group [ID] and an id that starts with [cid] a
    group under its whole id, also behind a channel prefix ([dingtalk:],
    [dd:], [ding:] in any letter case) and with white space around the
    whole, for every [ID] that has no white space at its ends. *)
Theorem parseTarget_round_trip (pre post p id : jstring) :
  Forall (fun c => isSpace c = true) pre ->
  Forall (fun c => isSpace c = true) post ->
  p = [] \/ channelPrefix p ->
  trim id = id ->
  parseTarget (pre ++ (p ++ lit "user:" ++ id) ++ post) = (UserTarget, id) /\
  parseTarget (pre ++ (p ++ lit "group:" ++ id) ++ post) = (GroupTarget, id) /\
  parseTarget (pre ++ (p ++ lit "cid" ++ id) ++ post) = (GroupTarget, lit "cid" ++ id).
Proof.
  intros Hpre Hpost Hp Hid.
  rewrite (parseTarget_padded pre (p ++ lit "user:" ++ id) post),
    (parseTarget_padded pre (p ++ lit "group:" ++ id) post),
    (parseTarget_padded pre (p ++ lit "cid" ++ id) post) by done.
  assert (Htag : forall tag, tag <> [] -> trim tag = tag ->
            trim (p ++ tag) = p ++ tag /\ p ++ tag <> []).
  { intros tag Hne Ht. destruct Hp as [->|Hp]; [by split|].
    destruct (channelPrefix_first p Hp) as [Hs Hpne].
    split; [|by destruct p].
    unfold trim, trimEnd. rewrite trimStart_app, Hs.
    destruct p as [|p0 p]; [done|].
    apply trim_fixed_parts in Ht as [_ Ht].
    rewrite rev_app_distr, trimStart_app, Ht.
    destruct (rev tag) eqn:E.
    - apply (f_equal (@length N)) in E. rewrite length_rev in E. by destruct tag.
    - by rewrite <- E, <- rev_app_distr, rev_involutive. }
  assert (Hall : forall tag, tag <> [] -> trim tag = tag ->
            stripChannelPrefix (tag ++ id) = tag ++ id ->
            trim (p ++ tag ++ id) = p ++ tag ++ id /\
            stripChannelPrefix (p ++ tag ++ id) = tag ++ id).
  { intros tag Hne Ht Hs. destruct (Htag tag Hne Ht) as [H1 H2].
    destruct (prefixed_trimmed p tag id Hp H1 H2 Hid) as [[E1 E2]|[E1 E2]];
      split; try done. by rewrite E2. }
  repeat split; unfold parseTarget.
  - destruct (Hall (lit "user:")) as [-> ->]; done.
  - destruct (Hall (lit "group:")) as [-> ->]; done.
  - destruct (Hall (lit "cid")) as [-> ->]; done.
Qed.

Lemma parseTarget_round_trip_witness :
  parseTarget (lit " " ++ (lit "DingTalk:" ++ lit "user:" ++ lit "u1") ++ lit " ")
    = (UserTarget, lit "u1") /\
  parseTarget (lit " " ++ (lit "DingTalk:" ++ lit "group:" ++ lit "u1") ++ lit " ")
    = (GroupTarget, lit "u1") /\
  parseTarget (lit " " ++ (lit "DingTalk:" ++ lit "cid" ++ lit "u1") ++ lit " ")
    = (GroupTarget, lit "cid" ++ lit "u1").
Proof.
  apply parseTarget_round_trip.
  - repeat constructor.
  - repeat constructor.
  - right. left. vm_compute. reflexivity.
  - vm_compute. reflexivity.
Defined.

(** *** Titles *)

Lemma splitLines_head (text : jstring) :
  exists rest, text = default [] (head (splitLines text)) ++ rest /\
               Streaming.noLineFeed (default [] (head (splitLines text))).
Proof.
  induction text as [|c text (rest & E & Hno)]; [exists []; split; [done | constructor]|].
  cbn [splitLines]. destruct (N.eqb_spec c 10) as [->|Hc].
  - exists (10%N :: text). split; [done | constructor].
  - destruct (splitLines text) as [|piece pieces]; cbn [head default from_option id] in *.
    + exists text. split; [done | by repeat constructor].
    + exists rest. split; [cbn [app]; by rewrite <- E | by constructor].
Qed.

Lemma dropTitleMarks_split (s : jstring) :
  exists marks, s = marks ++ dropTitleMarks s /\
                Forall (fun c => isTitleMark c = true) marks /\
                match dropTitleMarks s with
                | c :: _ => isTitleMark c = false
                | [] => True
                end.
Proof.
  induction s as [|c s (marks & E & Hm & Hd)]; [by exists []|].
  cbn [dropTitleMarks]. destruct (isTitleMark c) eqn:Ec.
  - exists (c :: marks). cbn [app]. rewrite <- E. by repeat split; [constructor|].
  - by exists [].
Qed.

(** X26.  [extractTitle] gives the default title, or a title of at most
    twenty code units that holds no line feed, starts with a code unit
    that is none of [#], [*], [-], [>] and white space, and stands in
    the text behind nothing but such code units; with a non-empty default
    the title is never empty. *)
Theorem extractTitle_bounds (text defaultTitle : jstring) :
  (defaultTitle <> [] -> extractTitle text defaultTitle <> []) /\
  (extractTitle text defaultTitle = defaultTitle \/
   (length (extractTitle text defaultTitle) <= 20)%nat /\
   Streaming.noLineFeed (extractTitle text defaultTitle) /\
   (exists c r, extractTitle text defaultTitle = c :: r /\ isTitleMark c = false) /\
   (exists marks post,
      text = marks ++ extractTitle text defaultTitle ++ post /\
      Forall (fun c => isTitleMark c = true) marks)).
Proof.
  unfold extractTitle, or_else.
  destruct (splitLines_head text) as (rest & E & Hno).
  set (first := default [] (head (splitLines text))) in *.
  destruct (dropTitleMarks_split first) as (marks & Em & Hm & Hd).
  destruct (take 20 (dropTitleMarks first)) as [|c r] eqn:Et; cbn [truthy].
  - split; [done | by left].
  - split; [done|]. right. rewrite <- Et. repeat split.
    + rewrite length_take. lia.
    + unfold Streaming.noLineFeed in *. rewrite Em in Hno.
      apply Forall_app in Hno as [_ Hno].
      rewrite <- (take_drop 20 (dropTitleMarks first)) in Hno.
      by apply Forall_app in Hno as [Hno _].
    + exists c, r. split; [done|].
      destruct (dropTitleMarks first) as [|c' r']; [done|].
      cbn [take] in Et. by injection Et as <- _.
    + exists marks, (drop 20 (dropTitleMarks first) ++ rest). split; [|done].
      rewrite (app_assoc (take 20 _)), take_drop, app_assoc, <- Em.
      exact E.
Qed.

(** *** Masking *)

Lemma JValue_nested_ind (P : JValue -> Prop) :
  P JNull -> (forall b, P (JBool b)) -> (forall n, P (JNumber n)) ->
  (forall s, P (JString s)) ->
  (forall items, Forall P items -> P (JArray items)) ->
  (forall members, Forall (fun m => P m.2) members -> P (JObject members)) ->
  forall v, P v.
Proof.
  intros Hnull Hbool Hnum Hstr Harr Hobj. fix IH 1.
  intros [ |b|n|s|items|members].
  - exact Hnull.
  - apply Hbool.
  - apply Hnum.
  - apply Hstr.
  - apply Harr. induction items as [|v items IHi]; constructor; [apply IH | exact IHi].
  - apply Hobj. induction members as [|[k v] members IHm]; constructor;
      [apply IH | exact IHm].
Qed.

Section Masking.
Variable toLowerCase : jstring -> jstring.

Lemma maskSensitiveData_object (members : list (jstring * JValue)) :
  maskSensitiveData toLowerCase (JObject members)
    = JObject (maskMembers toLowerCase members).
Proof.
  reflexivity.
Qed.

Lemma maskSensitiveData_array (items : list JValue) :
  maskSensitiveData toLowerCase (JArray items)
    = JObject (maskItems toLowerCase 0 items).
Proof.
  reflexivity.
Qed.

Lemma masked_object (members : list (jstring * JValue)) :
  masked toLowerCase (JObject members) <-> Forall (maskedEntry toLowerCase) members.
Proof.
  cbn [masked]. induction members as [|[k v] members IH].
  - split; [constructor | done].
  - rewrite Forall_cons, <- IH. reflexivity.
Qed.

Lemma maskEntry_masked (key : jstring) (value : JValue) :
  masked toLowerCase (maskSensitiveData toLowerCase value) ->
  maskedEntry toLowerCase (key, maskEntry toLowerCase key value).
Proof.
  intros Hv. unfold maskedEntry, maskEntry. cbn [fst snd].
  destruct (isSensitiveKey toLowerCase key).
  - destruct value; cbn [maskValue];
      try (exists []; split; [reflexivity | cbn; lia]).
    exists (take 4 s). split; [done|]. rewrite length_take. lia.
  - destruct value; try exact Hv; done.
Qed.

Lemma maskMembers_masked (members : list (jstring * JValue)) :
  Forall (fun m => masked toLowerCase (maskSensitiveData toLowerCase m.2)) members ->
  Forall (maskedEntry toLowerCase) (maskMembers toLowerCase members).
Proof.
  induction 1 as [|[k v] members Hv _ IH]; [constructor|].
  cbn [maskMembers]. destruct (bool_decide _); [exact IH|].
  constructor; [by apply maskEntry_masked | exact IH].
Qed.

Lemma maskItems_masked (i : Z) (items : list JValue) :
  Forall (fun v => masked toLowerCase (maskSensitiveData toLowerCase v)) items ->
  Forall (maskedEntry toLowerCase) (maskItems toLowerCase i items).
Proof.
  intros H. revert i. induction H as [|v items Hv _ IH]; intros i; [constructor|].
  cbn [maskItems]. constructor; [by apply maskEntry_masked | apply IH].
Qed.

Lemma maskMembers_keys (members : list (jstring * JValue)) :
  map fst (maskMembers toLowerCase members) =
    List.filter (fun key => negb (bool_decide (key = lit "__proto__")))
                (map fst members).
Proof.
  induction members as [|[k v] members IH]; [done|].
  cbn [maskMembers map List.filter fst].
  destruct (bool_decide _); cbn [negb map fst]; [exact IH | by rewrite IH].
Qed.

Lemma maskMembers_In (members : list (jstring * JValue)) (key : jstring) (value : JValue) :
  In (key, value) members -> key <> lit "__proto__" ->
  In (key, maskEntry toLowerCase key value) (maskMembers toLowerCase members).
Proof.
  intros Hin Hkey. induction members as [|[k v] members IH]; [done|].
  cbn [maskMembers]. destruct Hin as [[= -> ->]|Hin].
  - rewrite bool_decide_eq_false_2 by done. by left.
  - destruct (bool_decide _); [by apply IH | right; by apply IH].
Qed.

(** X27.  Whatever [maskSensitiveData] returns is masked: at any depth, what
    stands under a key that contains one of the sensitive words (letter
    case aside) is a string of at most four code units followed by four
    stars.  Of an object it keeps the keys in their order, [__proto__]
    aside; a secret string is cut to its first four code units, any other
    secret value replaced by the stars alone, and a plain value under any
    other key is kept as it is. *)
Theorem maskSensitiveData_masks :
  (forall data, masked toLowerCase (maskSensitiveData toLowerCase data)) /\
  (forall members, exists result,
     maskSensitiveData toLowerCase (JObject members) = JObject result /\
     map fst result =
       List.filter (fun key => negb (bool_decide (key = lit "__proto__")))
                   (map fst members) /\
     forall key value,
       In (key, value) members -> key <> lit "__proto__" ->
       (isSensitiveKey toLowerCase key = true ->
        forall s, value = JString s ->
                  In (key, JString (take 4 s ++ lit "****")) result) /\
       (isSensitiveKey toLowerCase key = true ->
        (forall s, value <> JString s) -> In (key, JString (lit "****")) result) /\
       (isSensitiveKey toLowerCase key = false ->
        match value with JArray _ | JObject _ => False | _ => True end ->
        In (key, value) result)).
Proof.
  split.
  - intros data. induction data using JValue_nested_ind; try done.
    + rewrite maskSensitiveData_array. apply masked_object. by apply maskItems_masked.
    + rewrite maskSensitiveData_object. apply masked_object. by apply maskMembers_masked.
  - intros members. exists (maskMembers toLowerCase members).
    split; [apply maskSensitiveData_object|]. split; [apply maskMembers_keys|].
    intros key value Hin Hkey.
    pose proof (maskMembers_In members key value Hin Hkey) as H.
    unfold maskEntry in H. repeat split.
    + intros Hs s ->. by rewrite Hs in H.
    + intros Hs Hv. rewrite Hs in H. destruct value; try exact H.
      by destruct (Hv s).
    + intros Hs Hv. rewrite Hs in H. by destruct value.
Qed.

End Masking.

End HelpersFacts.

(** ** The direct-message policy *)

Module HandlerFacts.
Import Js Runtime Helpers Handler JsFacts RuntimeFacts HelpersFacts.

Section Case.
Variable toLowerCase : jstring -> jstring.

(** X28.  [checkDmPolicy] never throws and refuses a sender only under the
    policy [allowlist], when [isSenderAllowed] refuses them, in which case
    it starts exactly one notice to that sender over the session webhook;
    otherwise it asks nothing of the environment.  Every other policy
    value ([pairing] too) lets everyone in, and so does [allowlist] with a
    list that is missing, blank or holds the wildcard. *)
Theorem checkDmPolicy_cases (config : DmSettings) (senderId sessionWebhook : jstring)
    (w : World) :
  let run := checkDmPolicy toLowerCase config senderId sessionWebhook (tt, w) in
  let policy := or_else (default [] (dmPolicy config)) (lit "open") in
  let listed := isSenderAllowed toLowerCase
                  (normalizeAllowFrom toLowerCase (allowFrom config)) (Some senderId) in
  (exists allowed, outcome run = Ok allowed /\
     (allowed = true -> world run = w) /\
     (allowed = false ->
      policy = lit "allowlist" /\ listed = false /\
      new_calls w (world run) =
        [(sendMessage senderId (rejectionNotice senderId) sessionWebhook, answer w)])) /\
  (policy <> lit "allowlist" -> outcome run = Ok true) /\
  (policy = lit "allowlist" -> outcome run = Ok listed) /\
  (Forall (fun v => trim v = []) (default [] (allowFrom config)) \/
   Exists (fun v => trim v = lit "*") (default [] (allowFrom config)) ->
   outcome run = Ok true).
Proof.
  intros run policy listed.
  assert (Hopen : policy <> lit "allowlist" -> run = (Ok true, (tt, w))).
  { intros Hp. subst run. unfold checkDmPolicy. fold policy.
    destruct (bool_decide (policy = lit "open")); [done|].
    by rewrite bool_decide_eq_false_2. }
  assert (Hlist : policy = lit "allowlist" ->
            run = (Ok listed,
                   (tt, if listed then w
                        else grow w [(sendMessage senderId (rejectionNotice senderId)
                                                  sessionWebhook, answer w)]))).
  { intros Hp. subst run. unfold checkDmPolicy. fold policy. rewrite Hp.
    rewrite bool_decide_eq_false_2 by discriminate.
    rewrite bool_decide_eq_true_2 by done. fold listed.
    by destruct listed. }
  destruct (decide (policy = lit "allowlist")) as [Hp|Hp].
  - rewrite (Hlist Hp). cbn [outcome world fst snd]. repeat split.
    + exists listed. split; [done|]. split.
      * by intros ->.
      * intros E. rewrite E. by rewrite new_calls_grow.
    + done.
    + intros H. f_equal. by apply allowFrom_open.
  - rewrite (Hopen Hp). cbn [outcome world fst snd]. repeat split; try done.
    exists true. by repeat split.
Qed.

End Case.

End HandlerFacts.

(** ** Hiding the markers, and the pipeline *)

Module PipelineFacts.
Import Js Runtime Card Markers Handler JsFacts RuntimeFacts MarkersFacts
       SessionOpsFacts HelpersFacts.

Ltac flatten := repeat first [rewrite <- app_assoc | progress (cbn [app])].

(** *** The tags *)

Lemma tags_plain (kind : MarkerKind) :
  exists open close,
    openTag kind = LBRACKET :: open /\ closeTag kind = LBRACKET :: close /\
    plain open /\ plain close.
Proof.
  destruct kind; eexists _, _; (split; [reflexivity|]); (split; [reflexivity|]);
    split; repeat constructor; discriminate.
Qed.

Lemma matchTag_close (dotAll : bool) (kind kind' : MarkerKind) (s : jstring) :
  matchTag dotAll kind' (closeTag kind ++ s) = None.
Proof. destruct kind, kind'; reflexivity. Qed.

Lemma matchTag_foreign (dotAll : bool) (kind kind' : MarkerKind) (s : jstring) :
  kind' <> kind -> matchTag dotAll kind' (openTag kind ++ s) = None.
Proof. destruct kind, kind'; intros H; try done; reflexivity. Qed.

Lemma matchHere_close (kind kind' : MarkerKind) (s : jstring) :
  matchHere kind' (closeTag kind ++ s) = None.
Proof. destruct kind, kind'; reflexivity. Qed.

Lemma matchHere_foreign (kind kind' : MarkerKind) (s : jstring) :
  kind' <> kind -> matchHere kind' (openTag kind ++ s) = None.
Proof. destruct kind, kind'; intros H; try done; reflexivity. Qed.

(** A marker, cut at its two brackets into plain runs. *)
Lemma marker_runs (kind : MarkerKind) (body : jstring) :
  plainBody body ->
  exists run1 run2,
    plain run1 /\ plain run2 /\
    openTag kind ++ LBRACE :: body ++ [RBRACE] = LBRACKET :: run1 /\
    closeTag kind = LBRACKET :: run2 /\
    marker kind body = (LBRACKET :: run1) ++ LBRACKET :: run2.
Proof.
  intros Hb. destruct (tags_plain kind) as (open & close & Eo & Ec & Ho & Hc).
  exists (open ++ LBRACE :: body ++ [RBRACE]), close.
  split; [|split; [done|]].
  - unfold plain in *. apply Forall_app. split; [done|].
    constructor; [discriminate|]. apply Forall_app. split.
    + eapply Forall_impl; [exact Hb|]. by intros c [H _].
    + by repeat constructor.
  - split; [by rewrite Eo|]. split; [done|].
    unfold marker. rewrite Eo, Ec. cbn [app]. f_equal.
    rewrite <- !app_assoc. cbn [app]. by rewrite <- ?app_assoc.
Qed.

(** *** The scan that hides *)

Lemma lazyUntil_length (dotAll : bool) (close s rest : jstring) :
  lazyUntil dotAll close s = Some rest -> (length rest <= length s)%nat.
Proof.
  revert rest. induction s as [|c s IH]; intros rest; cbn [lazyUntil].
  - destruct (stripPrefix close []) eqn:E; [|done].
    intros [= <-]. apply stripPrefix_length in E. lia.
  - destruct (stripPrefix close (c :: s)) eqn:E.
    + intros [= <-]. apply stripPrefix_length in E. lia.
    + destruct (negb dotAll && isLineTerminator c); [done|].
      intros H%IH. cbn [length]. lia.
Qed.

Lemma matchTag_length (dotAll : bool) (kind : MarkerKind) (s rest : jstring) :
  matchTag dotAll kind s = Some rest -> (length rest < length s)%nat.
Proof.
  unfold matchTag. destruct (stripPrefix (openTag kind) s) as [s1|] eqn:E; [|done].
  intros H%lazyUntil_length. apply stripPrefix_length in E.
  destruct (openTag_bracket kind) as (open & Eo). rewrite Eo in E. cbn [length] in E. lia.
Qed.

Lemma stripScan_enough (dotAll : bool) (kind : MarkerKind) (fuel : nat) :
  forall s, (length s <= fuel)%nat -> stripScan dotAll kind fuel s = stripAll dotAll kind s.
Proof.
  unfold stripAll. induction fuel as [fuel IH] using lt_wf_ind. intros s Hs.
  destruct s as [|c s]; [by destruct fuel|].
  destruct fuel as [|fuel]; [cbn [length] in Hs; lia|].
  cbn [stripScan length].
  destruct (matchTag dotAll kind (c :: s)) as [rest|] eqn:E.
  - apply matchTag_length in E. cbn [length] in E, Hs.
    rewrite (IH fuel (Nat.lt_succ_diag_r fuel) rest) by lia.
    rewrite (IH (length s)) by lia. reflexivity.
  - cbn [length] in Hs. rewrite (IH fuel (Nat.lt_succ_diag_r fuel) s) by lia.
    reflexivity.
Qed.

Lemma stripAll_cons (dotAll : bool) (kind : MarkerKind) (c : N) (s : jstring) :
  stripAll dotAll kind (c :: s) =
    match matchTag dotAll kind (c :: s) with
    | Some rest => stripAll dotAll kind rest
    | None => c :: stripAll dotAll kind s
    end.
Proof.
  unfold stripAll at 1. cbn [length stripScan].
  destruct (matchTag dotAll kind (c :: s)) as [rest|] eqn:E.
  - apply matchTag_length in E. cbn [length] in E. by rewrite stripScan_enough by lia.
  - reflexivity.
Qed.

Lemma matchTag_no_bracket (dotAll : bool) (kind : MarkerKind) (c : N) (s : jstring) :
  c <> LBRACKET -> matchTag dotAll kind (c :: s) = None.
Proof.
  intros Hc. unfold matchTag. destruct (openTag_bracket kind) as (open & ->).
  by rewrite stripPrefix_head.
Qed.

Lemma stripAll_plain_app (dotAll : bool) (kind : MarkerKind) (gap s : jstring) :
  plain gap -> stripAll dotAll kind (gap ++ s) = gap ++ stripAll dotAll kind s.
Proof.
  induction 1 as [|c gap Hc _ IH]; cbn [app]; [done|].
  by rewrite stripAll_cons, matchTag_no_bracket, IH.
Qed.

Lemma stripAll_plain (dotAll : bool) (kind : MarkerKind) (s : jstring) :
  plain s -> stripAll dotAll kind s = s.
Proof.
  intros Hs. rewrite <- (app_nil_r s) at 1.
  rewrite stripAll_plain_app by done. by rewrite app_nil_r.
Qed.

Lemma lazyUntil_eq (dotAll : bool) (close s : jstring) :
  lazyUntil dotAll close s =
    match stripPrefix close s with
    | Some rest => Some rest
    | None =>
        match s with
        | [] => None
        | c :: s' =>
            if negb dotAll && isLineTerminator c then None
            else lazyUntil dotAll close s'
        end
    end.
Proof. by destruct s. Qed.

Lemma lazyUntil_plain (dotAll : bool) (kind : MarkerKind) (run rest : jstring) :
  plainBody run ->
  lazyUntil dotAll (closeTag kind) (run ++ closeTag kind ++ rest) = Some rest.
Proof.
  destruct (closeTag_bracket kind) as (close & Hclose).
  induction 1 as [|c run [Hc Ht] _ IH]; cbn [app].
  - by rewrite lazyUntil_eq, stripPrefix_app.
  - rewrite lazyUntil_eq. rewrite Hclose at 1.
    rewrite stripPrefix_head by congruence.
    rewrite Ht, andb_false_r. exact IH.
Qed.

Lemma matchTag_marker (dotAll : bool) (kind : MarkerKind) (body rest : jstring) :
  plainBody body ->
  matchTag dotAll kind (marker kind body ++ rest) = Some rest.
Proof.
  intros Hb. unfold matchTag, marker. rewrite <- app_assoc, stripPrefix_app.
  replace (([LBRACE] ++ body ++ [RBRACE] ++ closeTag kind) ++ rest)
    with ((LBRACE :: body ++ [RBRACE]) ++ closeTag kind ++ rest)
    by (cbn [app]; by rewrite <- !app_assoc).
  apply lazyUntil_plain. constructor; [by split|].
  apply Forall_app. split; [done | by repeat constructor].
Qed.

Lemma stripAll_marker_app (dotAll : bool) (kind : MarkerKind) (body rest : jstring) :
  plainBody body ->
  stripAll dotAll kind (marker kind body ++ rest) = stripAll dotAll kind rest.
Proof.
  intros Hb. pose proof (matchTag_marker dotAll kind body rest Hb) as E.
  destruct (marker_runs kind body Hb) as (r1 & r2 & _ & _ & _ & _ & Em).
  rewrite Em in *. cbn [app] in *. by rewrite stripAll_cons, E.
Qed.

(** The markers of the kind are taken out. *)
Lemma stripAll_assemble (dotAll : bool) (kind : MarkerKind)
    (pieces : list (jstring * jstring)) (rest : jstring) :
  wellFormed pieces ->
  stripAll dotAll kind (assemble kind pieces rest) =
    flat_map fst pieces ++ stripAll dotAll kind rest.
Proof.
  induction 1 as [|[gap body] pieces [Hg Hb] _ IH]; cbn [assemble flat_map]; [done|].
  cbn [fst snd] in *.
  rewrite stripAll_plain_app by done. rewrite stripAll_marker_app by done.
  by rewrite IH, <- app_assoc.
Qed.

Lemma stripAll_foreign_marker (dotAll : bool) (kind kind' : MarkerKind)
    (body rest : jstring) :
  kind' <> kind -> plainBody body ->
  stripAll dotAll kind' (marker kind body ++ rest)
    = marker kind body ++ stripAll dotAll kind' rest.
Proof.
  intros Hk Hb.
  destruct (marker_runs kind body Hb) as (r1 & r2 & H1 & H2 & E1 & E2 & Em).
  pose proof (matchTag_foreign dotAll kind kind'
                (LBRACE :: body ++ [RBRACE] ++ closeTag kind ++ rest) Hk) as Eo.
  pose proof (matchTag_close dotAll kind kind' rest) as Ec.
  rewrite Em. rewrite <- app_assoc. cbn [app].
  replace (openTag kind ++ LBRACE :: body ++ [RBRACE] ++ closeTag kind ++ rest)
    with (LBRACKET :: r1 ++ closeTag kind ++ rest) in Eo.
  2:{ rewrite app_comm_cons, <- E1. rewrite <- app_assoc. cbn [app].
      by rewrite <- app_assoc. }
  rewrite E2 in Ec, Eo. cbn [app] in Ec, Eo.
  rewrite stripAll_cons, Eo. rewrite stripAll_plain_app by done.
  rewrite stripAll_cons, Ec. rewrite stripAll_plain_app by done.
  by rewrite <- app_assoc.
Qed.

(** The markers of another kind stay. *)
Lemma stripAll_foreign_assemble (dotAll : bool) (kind kind' : MarkerKind)
    (pieces : list (jstring * jstring)) (rest : jstring) :
  kind' <> kind -> wellFormed pieces ->
  stripAll dotAll kind' (assemble kind pieces rest) =
    assemble kind pieces (stripAll dotAll kind' rest).
Proof.
  intros Hk. induction 1 as [|[gap body] pieces [Hg Hb] _ IH]; cbn [assemble]; [done|].
  cbn [fst snd] in *.
  rewrite stripAll_plain_app by done. rewrite stripAll_foreign_marker by done.
  by rewrite IH.
Qed.

Lemma strip_passes (dotAll : bool) (kind : MarkerKind)
    (pieces : list (jstring * jstring)) (tail : jstring) :
  wellFormed pieces -> plain tail ->
  stripAll dotAll AUDIO
    (stripAll dotAll VIDEO (stripAll dotAll FILE (assemble kind pieces tail)))
    = flat_map fst pieces ++ tail.
Proof.
  intros Hw Ht. pose proof (plain_flat_map pieces tail Hw Ht) as Hp.
  destruct kind.
  - rewrite stripAll_assemble, (stripAll_plain _ _ tail) by done.
    by rewrite (stripAll_plain _ VIDEO), (stripAll_plain _ AUDIO) by done.
  - rewrite (stripAll_foreign_assemble _ VIDEO FILE), (stripAll_plain _ _ tail) by done.
    rewrite stripAll_assemble, (stripAll_plain _ _ tail) by done.
    by rewrite (stripAll_plain _ AUDIO) by done.
  - rewrite (stripAll_foreign_assemble _ AUDIO FILE), (stripAll_plain _ _ tail) by done.
    rewrite (stripAll_foreign_assemble _ AUDIO VIDEO), (stripAll_plain _ _ tail) by done.
    by rewrite stripAll_assemble, (stripAll_plain _ _ tail) by done.
Qed.

(** *** Markers that span lines *)

Lemma lazyUntil_line (kind : MarkerKind) (run rest : jstring) :
  plainBody run ->
  lazyUntil false (closeTag kind) (run ++ 10%N :: rest) = None.
Proof.
  destruct (closeTag_bracket kind) as (close & Hclose).
  induction 1 as [|c run [Hc Ht] _ IH]; cbn [app].
  - rewrite lazyUntil_eq, Hclose. by rewrite stripPrefix_head by discriminate.
  - rewrite lazyUntil_eq. rewrite Hclose at 1.
    rewrite stripPrefix_head by congruence.
    rewrite Ht, andb_false_r. exact IH.
Qed.

Lemma lazyUntil_any (kind : MarkerKind) (run rest : jstring) :
  plain run ->
  lazyUntil true (closeTag kind) (run ++ closeTag kind ++ rest) = Some rest.
Proof.
  destruct (closeTag_bracket kind) as (close & Hclose).
  induction 1 as [|c run Hc _ IH]; cbn [app].
  - by rewrite lazyUntil_eq, stripPrefix_app.
  - rewrite lazyUntil_eq. rewrite Hclose at 1.
    rewrite stripPrefix_head by congruence. exact IH.
Qed.

Lemma plainBody_plain (s : jstring) : plainBody s -> plain s.
Proof. intros H. eapply Forall_impl; [exact H|]. by intros c [Hc _]. Qed.

Lemma kind_cases (kind kind' : MarkerKind) : kind = kind' \/ kind <> kind'.
Proof. destruct kind, kind'; (by left) || (by right). Qed.

Lemma closeTag_last (kind : MarkerKind) :
  closeTag kind = removelast (closeTag kind) ++ [93%N].
Proof. by destruct kind. Qed.

(** A text between two code units that are no white space is trimmed. *)
Lemma trim_bracketed (c d : N) (x y : jstring) :
  c :: x = y ++ [d] -> isSpace c = false -> isSpace d = false ->
  trim (c :: x) = c :: x.
Proof.
  intros E Hc Hd. unfold isSpace in *. unfold trim, trimEnd.
  cbn [trimStart]. rewrite Hc. rewrite E, rev_app_distr. cbn [rev app trimStart].
  rewrite Hd. change (d :: rev y) with ([d] ++ rev y).
  by rewrite rev_app_distr, rev_involutive.
Qed.

(** The marker around a body of two plain lines. *)
Lemma twoLines_runs (kind : MarkerKind) (body1 body2 : jstring) :
  plainBody body1 -> plainBody body2 ->
  exists run1 run2,
    plain run1 /\ plain run2 /\
    closeTag kind = LBRACKET :: run2 /\
    marker kind (body1 ++ 10%N :: body2) = (LBRACKET :: run1) ++ LBRACKET :: run2 /\
    trim (marker kind (body1 ++ 10%N :: body2)) = marker kind (body1 ++ 10%N :: body2).
Proof.
  intros H1 H2. destruct (tags_plain kind) as (open & close & Eo & Ec & Ho & Hc).
  exists (open ++ LBRACE :: (body1 ++ 10%N :: body2) ++ [RBRACE]), close.
  assert (Em : marker kind (body1 ++ 10%N :: body2) =
                 (LBRACKET :: open ++ LBRACE :: (body1 ++ 10%N :: body2) ++ [RBRACE])
                   ++ LBRACKET :: close).
  { unfold marker. rewrite Eo, Ec. by flatten. }
  split; [|split; [done|]; split; [done|]; split; [done|]].
  - unfold plain in *. apply Forall_app. split; [done|].
    constructor; [discriminate|]. rewrite <- app_assoc. apply Forall_app.
    split; [by apply plainBody_plain|]. constructor; [discriminate|].
    apply Forall_app. split; [by apply plainBody_plain | by repeat constructor].
  - pose proof (closeTag_last kind) as Ey.
    set (y := removelast (closeTag kind)) in Ey. rewrite Em. cbn [app].
    eapply (trim_bracketed _ 93 _ ((LBRACKET :: open ++ LBRACE ::
                (body1 ++ 10%N :: body2) ++ [RBRACE]) ++ y)); [|done|done].
    rewrite <- Ec, Ey. by flatten.
Qed.

Lemma matchTag_twoLines (kind : MarkerKind) (body1 body2 rest : jstring) :
  plainBody body1 -> plainBody body2 ->
  matchTag false kind (marker kind (body1 ++ 10%N :: body2) ++ rest) = None /\
  matchTag true kind (marker kind (body1 ++ 10%N :: body2) ++ rest) = Some rest.
Proof.
  intros H1 H2. unfold matchTag, marker. rewrite <- app_assoc, stripPrefix_app. split.
  - replace (([LBRACE] ++ (body1 ++ 10%N :: body2) ++ [RBRACE] ++ closeTag kind) ++ rest)
      with ((LBRACE :: body1) ++ 10%N :: body2 ++ [RBRACE] ++ closeTag kind ++ rest)
      by (cbn [app]; by rewrite <- !app_assoc).
    apply lazyUntil_line. by constructor.
  - replace (([LBRACE] ++ (body1 ++ 10%N :: body2) ++ [RBRACE] ++ closeTag kind) ++ rest)
      with ((LBRACE :: (body1 ++ 10%N :: body2) ++ [RBRACE]) ++ closeTag kind ++ rest)
      by (cbn [app]; by rewrite <- !app_assoc).
    apply lazyUntil_any. constructor; [discriminate|].
    apply Forall_app. split; [|by repeat constructor].
    apply Forall_app. split; [by apply plainBody_plain|].
    constructor; [discriminate | by apply plainBody_plain].
Qed.

Lemma stripAll_twoLines (kind kind' : MarkerKind) (body1 body2 : jstring) :
  plainBody body1 -> plainBody body2 ->
  stripAll false kind' (marker kind (body1 ++ 10%N :: body2))
    = marker kind (body1 ++ 10%N :: body2).
Proof.
  intros H1 H2.
  destruct (twoLines_runs kind body1 body2 H1 H2) as (r1 & r2 & P1 & P2 & Ec & Em & _).
  assert (Eo : matchTag false kind' (marker kind (body1 ++ 10%N :: body2)) = None).
  { destruct (kind_cases kind' kind) as [->|Hk].
    - rewrite <- (app_nil_r (marker _ _)). by apply matchTag_twoLines.
    - unfold marker. by apply matchTag_foreign. }
  pose proof (matchTag_close false kind kind' []) as Ecl.
  rewrite Em in *. rewrite Ec, app_nil_r in Ecl. cbn [app] in *.
  rewrite stripAll_cons, Eo. rewrite stripAll_plain_app by done.
  rewrite stripAll_cons, Ecl. by rewrite stripAll_plain by done.
Qed.

(** X29.  On a text of plain gaps and well-formed markers of one kind, the
    preview cleaner [cleanMediaMarkers] of the handler and
    [cleanAllMediaMarkers] of the pipeline both give the gaps and the
    tail, trimmed.  They part on a marker whose body spans two lines:
    [cleanAllMediaMarkers] takes it out, [cleanMediaMarkers] leaves it
    where it is. *)
Theorem cleaners_hide_markers (kind : MarkerKind)
    (pieces : list (jstring * jstring)) (tail body1 body2 : jstring) :
  wellFormed pieces -> plain tail -> plainBody body1 -> plainBody body2 ->
  cleanMediaMarkers (assemble kind pieces tail) = trim (flat_map fst pieces ++ tail) /\
  cleanAllMediaMarkers (assemble kind pieces tail) = trim (flat_map fst pieces ++ tail) /\
  cleanAllMediaMarkers (marker kind (body1 ++ 10%N :: body2)) = [] /\
  cleanMediaMarkers (marker kind (body1 ++ 10%N :: body2))
    = marker kind (body1 ++ 10%N :: body2).
Proof.
  intros Hw Ht H1 H2. unfold cleanMediaMarkers, cleanAllMediaMarkers.
  rewrite !strip_passes by done. repeat split.
  - destruct (twoLines_runs kind body1 body2 H1 H2) as (r1 & r2 & _ & _ & _ & Em & _).
    pose proof (matchTag_twoLines kind body1 body2 [] H1 H2) as [_ E].
    rewrite app_nil_r in E.
    assert (Eown : stripAll true kind (marker kind (body1 ++ 10%N :: body2)) = []).
    { rewrite Em in *. cbn [app] in *. by rewrite stripAll_cons, E. }
    assert (Eother : forall kind', kind' <> kind ->
              stripAll true kind' (marker kind (body1 ++ 10%N :: body2))
                = marker kind (body1 ++ 10%N :: body2)).
    { intros kind' Hk.
      destruct (twoLines_runs kind body1 body2 H1 H2)
        as (q1 & q2 & P1 & P2 & Ec & Eq & _).
      assert (Eo : matchTag true kind' (marker kind (body1 ++ 10%N :: body2)) = None)
        by (unfold marker; by apply matchTag_foreign).
      pose proof (matchTag_close true kind kind' []) as Ecl.
      rewrite Eq in *. rewrite Ec, app_nil_r in Ecl. cbn [app] in *.
      rewrite stripAll_cons, Eo. rewrite stripAll_plain_app by done.
      rewrite stripAll_cons, Ecl. by rewrite stripAll_plain by done. }
    destruct kind.
    + by rewrite Eown.
    + rewrite (Eother FILE) by done. by rewrite Eown.
    + rewrite (Eother FILE), (Eother VIDEO) by done. by rewrite Eown.
  - rewrite !stripAll_twoLines by done.
    by destruct (twoLines_runs kind body1 body2 H1 H2) as (_ & _ & _ & _ & _ & _ & E).
Qed.

Lemma cleaners_hide_markers_witness :
  cleanMediaMarkers
    (assemble AUDIO [(lit "hi ", litq "'path':'/tmp/a.ogg'")] (lit " bye "))
    = lit "hi  bye" /\
  cleanAllMediaMarkers (marker FILE (lit "a" ++ 10%N :: lit "b")) = [] /\
  cleanMediaMarkers (marker FILE (lit "a" ++ 10%N :: lit "b"))
    = marker FILE (lit "a" ++ 10%N :: lit "b").
Proof.
  assert (Hw : wellFormed [(lit "hi ", litq "'path':'/tmp/a.ogg'")]).
  { constructor; [|constructor]. split; repeat constructor; discriminate. }
  assert (Ht : plain (lit " bye ")) by (repeat constructor; discriminate).
  assert (H1 : plainBody (lit "a")) by (repeat constructor; discriminate).
  assert (H2 : plainBody (lit "b")) by (repeat constructor; discriminate).
  destruct (cleaners_hide_markers AUDIO _ _ _ _ Hw Ht H1 H2) as (E1 & _ & _ & _).
  destruct (cleaners_hide_markers FILE _ _ _ _ Hw Ht H1 H2) as (_ & _ & E3 & E4).
  split; [exact E1|]. split; [exact E3 | exact E4].
Defined.

(** *** The passes on markers of another kind *)

Lemma replaceAll_cons_none (kind : MarkerKind) (c : N) (s : jstring) :
  matchHere kind (c :: s) = None -> replaceAll kind (c :: s) = c :: replaceAll kind s.
Proof. intros E. unfold replaceAll. by rewrite tokenize_cons, E. Qed.

Lemma replaceAll_plain_app (kind : MarkerKind) (gap s : jstring) :
  plain gap -> replaceAll kind (gap ++ s) = gap ++ replaceAll kind s.
Proof.
  intros Hg. unfold replaceAll. rewrite tokenize_plain_app by done.
  by rewrite flat_map_app, flat_map_charOf_chars.
Qed.

Lemma replaceAll_foreign_marker (kind kind' : MarkerKind) (body rest : jstring) :
  kind' <> kind -> plainBody body ->
  replaceAll kind' (marker kind body ++ rest) = marker kind body ++ replaceAll kind' rest.
Proof.
  intros Hk Hb.
  destruct (marker_runs kind body Hb) as (r1 & r2 & H1 & H2 & E1 & E2 & Em).
  pose proof (matchHere_foreign kind kind'
                (LBRACE :: body ++ [RBRACE] ++ closeTag kind ++ rest) Hk) as Eo.
  pose proof (matchHere_close kind kind' rest) as Ec.
  rewrite Em. rewrite <- app_assoc. cbn [app].
  replace (openTag kind ++ LBRACE :: body ++ [RBRACE] ++ closeTag kind ++ rest)
    with (LBRACKET :: r1 ++ closeTag kind ++ rest) in Eo.
  2:{ rewrite app_comm_cons, <- E1. by flatten. }
  rewrite E2 in Ec, Eo. cbn [app] in Ec, Eo.
  rewrite replaceAll_cons_none by done. rewrite replaceAll_plain_app by done.
  rewrite replaceAll_cons_none by done. rewrite replaceAll_plain_app by done.
  by flatten.
Qed.

Lemma replaceAll_foreign_assemble (kind kind' : MarkerKind)
    (pieces : list (jstring * jstring)) (rest : jstring) :
  kind' <> kind -> wellFormed pieces ->
  replaceAll kind' (assemble kind pieces rest) =
    assemble kind pieces (replaceAll kind' rest).
Proof.
  intros Hk. induction 1 as [|[gap body] pieces [Hg Hb] _ IH]; cbn [assemble]; [done|].
  cbn [fst snd] in *.
  rewrite replaceAll_plain_app by done. rewrite replaceAll_foreign_marker by done.
  by rewrite IH.
Qed.

(** *** Trimming a text with markers *)

Lemma trim_idem (s : jstring) : trim (trim s) = trim s.
Proof.
  destruct (trimStart_pad s) as (pad & E & Hpad).
  destruct (trimEnd_pad (trimStart s)) as (pad' & E' & Hpad').
  fold (trim s) in E'. rewrite E' in E.
  rewrite E at 2. by rewrite trim_padded.
Qed.

Lemma assemble_tail (kind : MarkerKind) (pieces : list (jstring * jstring))
    (tail : jstring) :
  assemble kind pieces tail = assemble kind pieces [] ++ tail.
Proof.
  induction pieces as [|[gap body] pieces IH]; cbn [assemble]; [done|].
  rewrite IH. by flatten.
Qed.

Lemma core_last (kind : MarkerKind) (pieces : list (jstring * jstring)) :
  forall body, exists y, marker kind body ++ assemble kind pieces [] = y ++ [93%N].
Proof.
  induction pieces as [|[gap body'] pieces IH]; intros body; cbn [assemble].
  - unfold marker. rewrite (closeTag_last kind). eexists. rewrite app_nil_r.
    rewrite !app_assoc. reflexivity.
  - destruct (IH body') as (y & E). cbn [fst snd]. rewrite E.
    exists (marker kind body ++ gap ++ y). by flatten.
Qed.

Lemma trimStart_fixed (c : N) (s : jstring) :
  isSpace c = false -> trimStart (c :: s) = c :: s.
Proof. unfold isSpace. intros H. cbn [trimStart]. by rewrite H. Qed.

(** White space around a core that starts and ends with a bracket. *)
Lemma trim_core (gap x y tail : jstring) :
  LBRACKET :: x = y ++ [93%N] ->
  trim (gap ++ (LBRACKET :: x) ++ tail) = trimStart gap ++ (LBRACKET :: x) ++ trimEnd tail.
Proof.
  intros E. unfold trim.
  assert (E1 : trimStart (gap ++ (LBRACKET :: x) ++ tail)
                 = trimStart gap ++ (LBRACKET :: x) ++ tail).
  { rewrite trimStart_app. destruct (trimStart gap); [|done].
    cbn [app]. by rewrite trimStart_fixed. }
  rewrite E1. unfold trimEnd at 1.
  rewrite !rev_app_distr. rewrite E at 1. rewrite rev_app_distr. cbn [rev app].
  rewrite <- !app_assoc. rewrite trimStart_app.
  assert (E2 : trimStart (93%N :: rev y ++ rev (trimStart gap))
                 = 93%N :: rev y ++ rev (trimStart gap))
    by (by apply trimStart_fixed).
  cbn [app]. rewrite E2.
  replace (match trimStart (rev tail) with
           | [] => 93%N :: rev y ++ rev (trimStart gap)
           | _ :: _ => trimStart (rev tail) ++ 93%N :: rev y ++ rev (trimStart gap)
           end)
    with (trimStart (rev tail) ++ 93%N :: rev y ++ rev (trimStart gap))
    by (by destruct (trimStart (rev tail))).
  change (93%N :: rev y ++ rev (trimStart gap))
    with ([93%N] ++ rev y ++ rev (trimStart gap)).
  rewrite !rev_app_distr, !rev_involutive. cbn [rev app].
  unfold trimEnd. rewrite <- !app_assoc. f_equal.
  change (LBRACKET :: x ++ rev (trimStart (rev tail)))
    with ((LBRACKET :: x) ++ rev (trimStart (rev tail))).
  rewrite E. by flatten.
Qed.

(** Trimming a text of gaps and markers gives such a text again, with
    the same gaps and tail up to white space at the two ends. *)
Lemma trim_assemble (kind : MarkerKind) (pieces : list (jstring * jstring))
    (tail : jstring) :
  wellFormed pieces -> plain tail ->
  exists pieces' tail',
    trim (assemble kind pieces tail) = assemble kind pieces' tail' /\
    wellFormed pieces' /\ plain tail' /\
    trim (flat_map fst pieces' ++ tail') = trim (flat_map fst pieces ++ tail).
Proof.
  intros Hw Ht. destruct Hw as [|[gap body] pieces [Hg Hb] Hw].
  - exists [], (trim tail). cbn [assemble flat_map app].
    split; [done|]. split; [constructor|]. split; [by apply trim_Forall|].
    apply trim_idem.
  - cbn [fst snd] in *.
    exists ((trimStart gap, body) :: pieces), (trimEnd tail).
    destruct (core_last kind pieces body) as (y & Ey).
    destruct (marker_runs kind body Hb) as (r1 & r2 & _ & _ & _ & _ & Em).
    assert (Ex : exists x, marker kind body ++ assemble kind pieces [] = LBRACKET :: x).
    { rewrite Em. cbn [app]. eauto. }
    destruct Ex as (x & Ex). rewrite Ex in Ey.
    repeat split.
    + cbn [assemble fst snd]. rewrite (assemble_tail kind pieces tail).
      rewrite (assemble_tail kind pieces (trimEnd tail)).
      rewrite !(app_assoc (marker kind body)), Ex.
      by apply trim_core with (y := y).
    + constructor; [|done]. split; [by apply trimStart_Forall | done].
    + unfold trimEnd. apply Forall_rev, trimStart_Forall. by apply Forall_rev.
    + cbn [flat_map fst].
      destruct (trimStart_pad gap) as (pad & Eg & Hpad).
      destruct (trimEnd_pad tail) as (pad' & Et & Hpad').
      assert (E : (gap ++ flat_map fst pieces) ++ tail =
                    pad ++ ((trimStart gap ++ flat_map fst pieces) ++ trimEnd tail)
                      ++ pad').
      { rewrite Eg at 1. rewrite Et at 1. by flatten. }
      rewrite E. by rewrite trim_padded.
Qed.

(** *** The pipeline without a token *)

Lemma pass_plain (kind : MarkerKind) (s : jstring) :
  plain s -> trim (replaceAll kind (trim s)) = trim s.
Proof.
  intros Hs. rewrite replaceAll_plain by (by apply trim_Forall). apply trim_idem.
Qed.

Lemma pass_own (kind : MarkerKind) (pieces : list (jstring * jstring)) (tail : jstring) :
  wellFormed pieces -> plain tail ->
  trim (replaceAll kind (assemble kind pieces tail)) = trim (flat_map fst pieces ++ tail).
Proof. intros Hw Ht. by rewrite replaceAll_assemble, replaceAll_plain by done. Qed.

Lemma pass_foreign (kind kind' : MarkerKind) (pieces : list (jstring * jstring))
    (tail : jstring) :
  kind' <> kind -> wellFormed pieces -> plain tail ->
  exists pieces' tail',
    trim (replaceAll kind' (assemble kind pieces tail)) = assemble kind pieces' tail' /\
    wellFormed pieces' /\ plain tail' /\
    trim (flat_map fst pieces' ++ tail') = trim (flat_map fst pieces ++ tail).
Proof.
  intros Hk Hw Ht. rewrite replaceAll_foreign_assemble, replaceAll_plain by done.
  by apply trim_assemble.
Qed.

Lemma passes_assemble (kind : MarkerKind) (pieces : list (jstring * jstring))
    (tail : jstring) :
  wellFormed pieces -> plain tail ->
  trim (replaceAll FILE
          (trim (replaceAll AUDIO
                   (trim (replaceAll VIDEO (assemble kind pieces tail))))))
    = trim (flat_map fst pieces ++ tail).
Proof.
  intros Hw Ht. pose proof (plain_flat_map pieces tail Hw Ht) as Hp.
  destruct kind.
  - destruct (pass_foreign FILE VIDEO pieces tail) as (p1 & t1 & -> & Hw1 & Ht1 & <-);
      try done.
    destruct (pass_foreign FILE AUDIO p1 t1) as (p2 & t2 & -> & Hw2 & Ht2 & <-);
      try done.
    by apply pass_own.
  - rewrite pass_own by done. rewrite (pass_plain AUDIO) by done.
    by rewrite (pass_plain FILE) by done.
  - destruct (pass_foreign AUDIO VIDEO pieces tail) as (p1 & t1 & -> & Hw1 & Ht1 & <-);
      try done.
    rewrite pass_own by done. apply pass_plain. by apply plain_flat_map.
Qed.

Section Pipeline.
Variable JSON_parse : jstring -> option MarkerPayload.
Variable basename : jstring -> jstring.
Variable String_of : JValue -> option jstring.
Variable processImages : jstring -> jstring -> M unit jstring.
Variable statusText : StatusLine -> jstring.

(** X30.  Without an oapi token [processPostPipeline] asks nothing of its
    environment, [processImages] included: it returns the content after
    the video, audio and file passes have each taken their markers out
    and trimmed it, with no media message and no status line.  On a text
    of plain gaps and well-formed markers of one kind that content is the
    gaps and the tail, trimmed, which is what [cleanAllMediaMarkers]
    gives. *)
Theorem processPostPipeline_without_token (content : jstring)
    (context : ProcessContext) (w : World) :
  truthyField (ctx_oapiToken context) = false ->
  processPostPipeline JSON_parse basename String_of processImages statusText content
      context (tt, w)
    = (Ok (mkResult
             (trim (replaceAll FILE
                      (trim (replaceAll AUDIO (trim (replaceAll VIDEO content))))))
             [] []),
       (tt, w)) /\
  forall kind pieces tail,
    wellFormed pieces -> plain tail -> content = assemble kind pieces tail ->
    trim (replaceAll FILE (trim (replaceAll AUDIO (trim (replaceAll VIDEO content)))))
      = trim (flat_map fst pieces ++ tail) /\
    cleanAllMediaMarkers content = trim (flat_map fst pieces ++ tail).
Proof.
  intros Htoken. split.
  - unfold processPostPipeline, processVideoMarkers, processAudioMarkers,
      processFileMarkers.
    rewrite Htoken. reflexivity.
  - intros kind pieces tail Hw Ht ->. split; [by apply passes_assemble|].
    unfold cleanAllMediaMarkers. by rewrite strip_passes.
Qed.

End Pipeline.

Lemma processPostPipeline_without_token_witness :
  processPostPipeline sampleParse sampleBasename sampleString
      (fun content _ => ret content) (fun _ => [])
      (assemble AUDIO [(lit "hi ", litq "'path':'/tmp/a.ogg'")] (lit " bye "))
      (mkContext (mkConfig (lit "app") None None)
                 (mkTarget (lit "acc") (lit "cid") false None) None)
      (tt, scripted [])
    = (Ok (mkResult (lit "hi  bye") [] []), (tt, scripted [])).
Proof.
  apply (proj1 (processPostPipeline_without_token sampleParse sampleBasename
                  sampleString (fun content _ => ret content) (fun _ => [])
                  (assemble AUDIO [(lit "hi ", litq "'path':'/tmp/a.ogg'")] (lit " bye "))
                  (mkContext (mkConfig (lit "app") None None)
                             (mkTarget (lit "acc") (lit "cid") false None) None)
                  (scripted []) eq_refl)).
Defined.

End PipelineFacts.
